(** * int_stack: the integer-stack character device behind a USB key

    A shallow embedding of [int_stack.c] (the lab5 kernel module) and the
    properties of its stack that the design document states.

    Conventions of the embedding.
    - A C [int] is a [Z]; the places where the code computes on an [int]
      ([--top], [top++]) or converts to [size_t] ([n * sizeof(int)]) carry
      their wrap-around explicitly ([int_wrap], [size_t_wrap]; the kernel is
      built with wrapping signed arithmetic, and the module of the report is
      an x86-64 one: LP64, little endian).
    - [stack->data] is a nullable pointer to a heap block of [int]s: an
      [option (list Z)].  A handler that dereferences NULL or indexes outside
      the block has no defined result: it returns [None].
    - User memory is seen through [copy_from_user] / [copy_to_user]: a source
      pointer is the list of bytes readable from it, a destination pointer is
      the number of bytes writable at it.  An [int] crosses the boundary in
      its 4-byte object representation (little endian, two's complement).
    - What the kernel answers ([kmalloc], [register_chrdev], ...) is an input
      of the handler that asks. *)

From Stdlib Require Import ZArith Lia List.
From coqutil Require Import Byte Word.LittleEndianList.
From stdpp Require Import base option list strings.

Local Open Scope Z_scope.

(** ** C scalars *)

Module C.

Definition INT_MAX : Z := 2 ^ 31 - 1.
Definition INT_MIN : Z := - 2 ^ 31.
Definition sizeof_int : Z := 4.

(** Two's-complement reduction of a mathematical integer to an [int]. *)
Definition int_wrap (z : Z) : Z := (z + 2 ^ 31) mod 2 ^ 32 - 2 ^ 31.

(** Conversion to [size_t] / [unsigned long] (64 bits). *)
Definition size_t_wrap (z : Z) : Z := z mod 2 ^ 64.

Definition int_range (z : Z) : Prop := INT_MIN <= z <= INT_MAX.

(** The object representation of an [int], as [copy_to_user] sees it. *)
Definition int_bytes (v : Z) : list byte := le_split 4 v.

(** The [int] stored in (the first) four bytes. *)
Definition int_of_bytes (bs : list byte) : Z := int_wrap (le_combine (take 4 bs)).

End C.

(** ** Kernel constants used by the module *)

Module Errno.
Definition ENOMEM : Z := 12.
Definition EFAULT : Z := 14.
Definition EINVAL : Z := 22.
Definition ENOTTY : Z := 25.
Definition ERANGE : Z := 34.
Definition MAX_ERRNO : Z := 4095.
End Errno.

Module Ioctl.
Definition _IOC_WRITE : Z := 1.
Definition _IOC (dir type nr sz : Z) : Z :=
  Z.lor (Z.lor (Z.lor (Z.shiftl dir 30) (Z.shiftl type 8)) nr) (Z.shiftl sz 16).
Definition _IOW (type nr sz : Z) : Z := _IOC _IOC_WRITE type nr sz.
End Ioctl.

(** [#define IOCTL_SET_SIZE _IOW('s', 1, int)] *)
Definition IOCTL_SET_SIZE : Z := Ioctl._IOW 115 1 C.sizeof_int.

(** ** User memory and the allocator *)

(** [copy_from_user(dst, from, n)]: the number of bytes that could not be
    copied, and the bytes that were. *)
Definition copy_from_user (from : list byte) (n : Z) : Z * list byte :=
  let got := take (Z.to_nat n) from in
  (n - Z.of_nat (length got), got).

(** [copy_to_user(to, src, n)] with [src] the [n] bytes to send and
    [writable] the number of bytes that can be stored at [to]: the number of
    bytes not copied, and the bytes that reached the user. *)
Definition copy_to_user (writable : nat) (src : list byte) : Z * list byte :=
  let sent := take writable src in
  (Z.of_nat (length src) - Z.of_nat (length sent), sent).

(** The answer of one [kmalloc] call: NULL, or a block whose cells hold
    whatever was in memory before. *)
Inductive kmalloc_answer : Type :=
| KNull
| KBlock (junk : nat -> Z).

(** [kmalloc(bytes, GFP_KERNEL)] seen as a block of [int] cells. *)
Definition kmalloc (k : kmalloc_answer) (bytes : Z) : option (list Z) :=
  match k with
  | KNull => None
  | KBlock junk => Some (map junk (seq 0 (Z.to_nat (bytes / C.sizeof_int))))
  end.

(** [block[i]] as an rvalue; [None] outside the block. *)
Definition cell (block : list Z) (i : Z) : option Z :=
  if 0 <=? i then block !! Z.to_nat i else None.

(** [block[i] = v]; [None] outside the block. *)
Definition set_cell (block : list Z) (i : Z) (v : Z) : option (list Z) :=
  if (0 <=? i) && (i <? Z.of_nat (length block))
  then Some (<[Z.to_nat i := v]> block) else None.

(** [memcpy(dst, src, bytes)] on blocks of [int]; [None] when it would run
    past the end of either block. *)
Definition memcpy (dst src : list Z) (bytes : Z) : option (list Z) :=
  let n := bytes / C.sizeof_int in
  if (n <=? Z.of_nat (length src)) && (n <=? Z.of_nat (length dst))
  then Some (take (Z.to_nat n) src ++ drop (Z.to_nat n) dst) else None.

(** ** The stack *)

(** [struct stack], without its mutex: one handler at a time.  The mutex
    is the [lock] of [shared], below. *)
Record stack : Type := Stack {
  data : option (list Z);
  top : Z;
  size : Z
}.

(** The stack as [stack_init] leaves it: no block, nothing stored. *)
Definition stack0 : stack := {| data := None; top := 0; size := 0 |}.

(** What a caller gets back: the return value and the bytes stored in its
    buffer (none, except by [read]). *)
Record reply : Type := Reply {
  ret : Z;
  to_user : list byte
}.

(** [stack_read(file, buf, count, ppos)]: pop. [buf] is given by the number
    of bytes writable at it. *)
Definition stack_read (buf : nat) (count : Z) (s : stack) : option (reply * stack) :=
  if negb (count =? C.sizeof_int) then Some (Reply (- Errno.EINVAL) [], s)
  else if top s =? 0 then Some (Reply 0 [], s)
  else
    let top' := C.int_wrap (top s - 1) in
    block ← data s;
    value ← cell block top';
    let s' := {| data := data s; top := top'; size := size s |} in
    let '(missed, sent) := copy_to_user buf (C.int_bytes value) in
    if negb (missed =? 0) then Some (Reply (- Errno.EFAULT) sent, s')
    else Some (Reply C.sizeof_int sent, s').

(** [stack_write(file, buf, count, ppos)]: push. [buf] is given by the bytes
    readable from it. *)
Definition stack_write (buf : list byte) (count : Z) (s : stack) : option (Z * stack) :=
  if negb (count =? C.sizeof_int) then Some (- Errno.EINVAL, s)
  else
    let '(missed, bytes) := copy_from_user buf C.sizeof_int in
    if negb (missed =? 0) then Some (- Errno.EFAULT, s)
    else
      let value := C.int_of_bytes bytes in
      if top s >=? size s then Some (- Errno.ERANGE, s)
      else
        block ← data s;
        block' ← set_cell block (top s) value;
        Some (C.sizeof_int,
              {| data := Some block'; top := C.int_wrap (top s + 1); size := size s |}).

(** [stack_ioctl(file, cmd, arg)]: set the size. [arg] is the user pointer,
    given by the bytes readable from it; [k] is what [kmalloc] answers if it
    is called. *)
Definition stack_ioctl (cmd : Z) (arg : list byte) (k : kmalloc_answer) (s : stack)
  : option (Z * stack) :=
  if negb (cmd =? IOCTL_SET_SIZE) then Some (- Errno.ENOTTY, s)
  else
    let '(missed, bytes) := copy_from_user arg C.sizeof_int in
    if negb (missed =? 0) then Some (- Errno.EFAULT, s)
    else
      let new_size := C.int_of_bytes bytes in
      if new_size <=? 0 then Some (- Errno.EINVAL, s)
      else
        match kmalloc k (C.size_t_wrap (new_size * C.sizeof_int)) with
        | None => Some (- Errno.ENOMEM, s)
        | Some new_data =>
            new_data' ←
              match data s with
              | Some old =>
                  let elements_to_copy := if top s <? new_size then top s else new_size in
                  memcpy new_data old (C.size_t_wrap (elements_to_copy * C.sizeof_int))
              | None => Some new_data
              end;
            Some (0, {| data := Some new_data';
                        top := if top s >? new_size then new_size else top s;
                        size := new_size |})
        end.

(** ** The module and its USB key *)

(** The file-scope variables of the module. [the_stack] is the object that
    the global pointer [stack] designates; the two handles are kernel
    pointers, read as a [long]. *)
Record module_state : Type := ModuleState {
  the_stack : stack;
  major_number : Z;
  stack_class : Z;
  stack_device : Z
}.

(** The same module variables around another stack object. *)
Definition with_stack (m : module_state) (s : stack) : module_state :=
  {| the_stack := s; major_number := major_number m;
     stack_class := stack_class m; stack_device := stack_device m |}.

(** The calls that the key's callbacks make into the device model. *)
Inductive kcall : Type :=
| Kregister_chrdev
| Kunregister_chrdev (major : Z)
| Kclass_create
| Kclass_destroy (cls : Z)
| Kdevice_create (cls major : Z)
| Kdevice_destroy (cls major : Z).

(** What the kernel answers to the three registrations of [usb_key_probe]. *)
Record probe_answers : Type := ProbeAnswers {
  register_chrdev_ret : Z;
  class_create_ret : Z;
  device_create_ret : Z
}.

(** [IS_ERR(p)]: the pointer lies in the last [MAX_ERRNO] addresses. *)
Definition IS_ERR (p : Z) : bool := (- Errno.MAX_ERRNO <=? p) && (p <? 0).

(** [PTR_ERR(p)] returned through an [int]. *)
Definition PTR_ERR (p : Z) : Z := C.int_wrap p.

(** [usb_key_probe(interface, id)]: the key is inserted. *)
Definition usb_key_probe (k : probe_answers) (m : module_state)
  : Z * list kcall * module_state :=
  let m1 := {| the_stack := the_stack m; major_number := register_chrdev_ret k;
               stack_class := stack_class m; stack_device := stack_device m |} in
  if major_number m1 <? 0 then (major_number m1, [Kregister_chrdev], m1)
  else
    let m2 := {| the_stack := the_stack m1; major_number := major_number m1;
                 stack_class := class_create_ret k; stack_device := stack_device m1 |} in
    if IS_ERR (stack_class m2)
    then (PTR_ERR (stack_class m2),
          [Kregister_chrdev; Kclass_create; Kunregister_chrdev (major_number m2)], m2)
    else
      let m3 := {| the_stack := the_stack m2; major_number := major_number m2;
                   stack_class := stack_class m2; stack_device := device_create_ret k |} in
      if IS_ERR (stack_device m3)
      then (PTR_ERR (stack_device m3),
            [Kregister_chrdev; Kclass_create;
             Kdevice_create (stack_class m3) (major_number m3);
             Kclass_destroy (stack_class m3); Kunregister_chrdev (major_number m3)], m3)
      else (0, [Kregister_chrdev; Kclass_create;
                Kdevice_create (stack_class m3) (major_number m3)], m3).

(** [usb_key_disconnect(interface)]: the key is removed. *)
Definition usb_key_disconnect (m : module_state) : list kcall * module_state :=
  ([Kdevice_destroy (stack_class m) (major_number m);
    Kclass_destroy (stack_class m);
    Kunregister_chrdev (major_number m)], m).

(** [stack_init()]: [alloc] says whether the [struct stack] could be
    allocated, [usb_register_ret] is the answer of [usb_register]. The module
    state is there only when the load succeeds. *)
Definition stack_init (alloc : bool) (usb_register_ret : Z) : Z * option module_state :=
  if negb alloc then (- Errno.ENOMEM, None)
  else
    let st := {| data := None; top := 0; size := 0 |} in
    if negb (usb_register_ret =? 0) then (usb_register_ret, None)
    else (0, Some {| the_stack := st; major_number := 0;
                     stack_class := 0; stack_device := 0 |}).

(** ** Sequences of calls on the device *)

(** One call through the endpoint, with everything the environment
    contributes to it. *)
Inductive call : Type :=
| CRead (buf : nat) (count : Z)
| CWrite (buf : list byte) (count : Z)
| CIoctl (cmd : Z) (arg : list byte) (k : kmalloc_answer).

(** The file operations table [stack_fops]: which handler serves a call.
    [None]: the call has no defined result. *)
Definition handle (c : call) (s : stack) : option (reply * stack) :=
  match c with
  | CRead buf count => stack_read buf count s
  | CWrite buf count => '(r, s') ← stack_write buf count s; Some (Reply r [], s')
  | CIoctl cmd arg k => '(r, s') ← stack_ioctl cmd arg k s; Some (Reply r [], s')
  end.

(** The stack after one call. *)
Definition after (c : call) (s : stack) : option stack := snd <$> handle c s.

(** The states that a sequence of calls goes through, one per call. *)
Fixpoint states_of (cs : list call) (s : stack) : option (list stack) :=
  match cs with
  | [] => Some []
  | c :: cs' =>
      s' ← after c s;
      rest ← states_of cs' s';
      Some (s' :: rest)
  end.

(** The replies to a sequence of calls, and the stack after the last. *)
Fixpoint replies_of (cs : list call) (s : stack) : option (list reply * stack) :=
  match cs with
  | [] => Some ([], s)
  | c :: cs' =>
      '(r, s') ← handle c s;
      '(rs, s'') ← replies_of cs' s';
      Some (r :: rs, s'')
  end.

(** ** The stack that the design document talks about *)

(** The stored elements, bottom first: the first [top] cells of the block. *)
Definition elements (s : stack) : list Z :=
  take (Z.to_nat (top s)) (default [] (data s)).

(** The representation invariant of [struct stack]. *)
Definition stack_ok (s : stack) : Prop :=
  0 <= top s <= size s /\ size s <= C.INT_MAX /\
  match data s with
  | Some block => Z.of_nat (length block) = size s
  | None => size s = 0
  end.

(** ** Concurrent callers

    Several callers are inside the handlers at once.  Each handler is cut at
    its accesses to the shared [struct stack]; a caller advances by one such
    access at a time, in any interleaving with the others.  [mutex_lock] can
    only be passed while the mutex is free, [mutex_unlock] frees it; no other
    step looks at the mutex. *)

(** The shared object: the stack, the owner of its mutex if it is taken, and
    (for the statements only) the record of every store into a cell of the
    block: who stored, and at which index. *)
Record shared : Type := Shared {
  stk : stack;
  lock : option nat;
  log : list (nat * Z)
}.

(** Where a caller is in its handler, with the locals that are live there. *)
Inductive pc : Type :=
| Entry (c : call)
  (* stack_write *)
| WLock (value : Z)
| WCheck (value : Z)
| WStore (value : Z)
| WInc
| WUnlock (r : Z)
  (* stack_read *)
| RLock (buf : nat)
| RCheck (buf : nat)
| RUnlockEmpty
| RDec (buf : nat)
| RLoad (buf : nat)
| RUnlock (buf : nat) (value : Z)
| RCopy (buf : nat) (value : Z)
  (* stack_ioctl *)
| ILock (new_size : Z) (k : kmalloc_answer)
| IAlloc (new_size : Z) (k : kmalloc_answer)
| ICopy (new_size : Z) (new_data : list Z)
| ISetData (new_size : Z) (new_data : list Z)
| ISetSize (new_size : Z)
| ISetTop (new_size : Z)
| IUnlock (r : Z)
  (* returned *)
| Done (r : reply).

Definition set_stk (sh : shared) (s : stack) : shared :=
  {| stk := s; lock := lock sh; log := log sh |}.

Definition set_lock (sh : shared) (o : option nat) : shared :=
  {| stk := stk sh; lock := o; log := log sh |}.

(** [mutex_lock(&stack->lock)] by caller [i]: blocked while the mutex is
    taken. *)
Definition mutex_lock (i : nat) (next : pc) (sh : shared) : option (pc * shared) :=
  match lock sh with
  | None => Some (next, set_lock sh (Some i))
  | Some _ => None
  end.

(** [mutex_unlock(&stack->lock)]. *)
Definition mutex_unlock (next : pc) (sh : shared) : option (pc * shared) :=
  Some (next, set_lock sh None).

(** The part of a handler before its [mutex_lock]: argument checks and the
    copy from user memory. *)
Definition enter (c : call) : pc :=
  match c with
  | CRead buf count =>
      if negb (count =? C.sizeof_int) then Done (Reply (- Errno.EINVAL) [])
      else RLock buf
  | CWrite buf count =>
      if negb (count =? C.sizeof_int) then Done (Reply (- Errno.EINVAL) [])
      else
        let '(missed, bytes) := copy_from_user buf C.sizeof_int in
        if negb (missed =? 0) then Done (Reply (- Errno.EFAULT) [])
        else WLock (C.int_of_bytes bytes)
  | CIoctl cmd arg k =>
      if negb (cmd =? IOCTL_SET_SIZE) then Done (Reply (- Errno.ENOTTY) [])
      else
        let '(missed, bytes) := copy_from_user arg C.sizeof_int in
        if negb (missed =? 0) then Done (Reply (- Errno.EFAULT) [])
        else
          let new_size := C.int_of_bytes bytes in
          if new_size <=? 0 then Done (Reply (- Errno.EINVAL) [])
          else ILock new_size k
  end.

(** One step of caller [i] at [l]. [None]: it cannot move (it waits for the
    mutex, it has returned, or the access has no defined result). *)
Definition tstep (i : nat) (l : pc) (sh : shared) : option (pc * shared) :=
  let s := stk sh in
  match l with
  | Entry c => Some (enter c, sh)
  (* stack_write *)
  | WLock v => mutex_lock i (WCheck v) sh
  | WCheck v =>
      Some (if top s >=? size s then WUnlock (- Errno.ERANGE) else WStore v, sh)
  | WStore v =>
      block ← data s;
      block' ← set_cell block (top s) v;
      Some (WInc, {| stk := {| data := Some block'; top := top s; size := size s |};
                     lock := lock sh;
                     log := log sh ++ [(i, top s)] |})
  | WInc =>
      Some (WUnlock C.sizeof_int,
            set_stk sh {| data := data s; top := C.int_wrap (top s + 1); size := size s |})
  | WUnlock r => mutex_unlock (Done (Reply r [])) sh
  (* stack_read *)
  | RLock buf => mutex_lock i (RCheck buf) sh
  | RCheck buf => Some (if top s =? 0 then RUnlockEmpty else RDec buf, sh)
  | RUnlockEmpty => mutex_unlock (Done (Reply 0 [])) sh
  | RDec buf =>
      Some (RLoad buf,
            set_stk sh {| data := data s; top := C.int_wrap (top s - 1); size := size s |})
  | RLoad buf =>
      block ← data s;
      value ← cell block (top s);
      Some (RUnlock buf value, sh)
  | RUnlock buf value => mutex_unlock (RCopy buf value) sh
  | RCopy buf value =>
      let '(missed, sent) := copy_to_user buf (C.int_bytes value) in
      Some (Done (if negb (missed =? 0) then Reply (- Errno.EFAULT) sent
                  else Reply C.sizeof_int sent), sh)
  (* stack_ioctl *)
  | ILock n k => mutex_lock i (IAlloc n k) sh
  | IAlloc n k =>
      match kmalloc k (C.size_t_wrap (n * C.sizeof_int)) with
      | None => Some (IUnlock (- Errno.ENOMEM), sh)
      | Some new_data => Some (ICopy n new_data, sh)
      end
  | ICopy n new_data =>
      match data s with
      | Some old =>
          let elements_to_copy := if top s <? n then top s else n in
          new_data' ← memcpy new_data old (C.size_t_wrap (elements_to_copy * C.sizeof_int));
          Some (ISetData n new_data', sh)
      | None => Some (ISetData n new_data, sh)
      end
  | ISetData n new_data =>
      Some (ISetSize n, set_stk sh {| data := Some new_data; top := top s; size := size s |})
  | ISetSize n =>
      Some (ISetTop n, set_stk sh {| data := data s; top := top s; size := n |})
  | ISetTop n =>
      Some (IUnlock 0,
            set_stk sh {| data := data s;
                          top := if top s >? n then n else top s;
                          size := size s |})
  | IUnlock r => mutex_unlock (Done (Reply r [])) sh
  | Done _ => None
  end.

(** All the callers and the shared object. *)
Record config : Type := Config {
  threads : list pc;
  sh : shared
}.

(** The scheduler lets caller [i] make its next step. *)
Definition sched_step (i : nat) (cf : config) : option config :=
  l ← threads cf !! i;
  '(l', sh') ← tstep i l (sh cf);
  Some {| threads := <[i := l']> (threads cf); sh := sh' |}.

(** An interleaving: the callers that step, in order. [None] when one of them
    cannot step at its turn. *)
Fixpoint run (sched : list nat) (cf : config) : option config :=
  match sched with
  | [] => Some cf
  | i :: sched' => cf' ← sched_step i cf; run sched' cf'
  end.

(** All callers at the entry of their handler, the mutex free. *)
Definition start (cs : list call) (s : stack) : config :=
  {| threads := map Entry cs; sh := {| stk := s; lock := None; log := [] |} |}.

Definition returned (l : pc) : option reply :=
  match l with Done r => Some r | _ => None end.

(** Every caller has returned. *)
Definition all_done (cf : config) : Prop :=
  Forall (fun l => is_Some (returned l)) (threads cf).

(** The stores into the block that a call makes when it runs alone on [s]:
    a push that finds room stores at index [top]. *)
Definition stores (i : nat) (c : call) (s : stack) : list (nat * Z) :=
  match c with
  | CWrite buf count =>
      match stack_write buf count s with
      | Some (r, _) => if r =? C.sizeof_int then [(i, top s)] else []
      | None => []
      end
  | _ => []
  end.

(** The call [c] of caller [i] served in one piece, with nobody else
    around: the handler of the first part, and its stores recorded. *)
Definition atomic (i : nat) (c : call) (sh : shared) : option (reply * shared) :=
  '(r, s') ← handle c (stk sh);
  Some (r, {| stk := s'; lock := lock sh; log := log sh ++ stores i c (stk sh) |}).

(** The same calls one after the other, in the order [order] of the callers:
    the reply to each caller and the final shared object. *)
Fixpoint serial (cs : list call) (order : list nat) (sh : shared)
  : option (list (nat * reply) * shared) :=
  match order with
  | [] => Some ([], sh)
  | i :: order' =>
      c ← cs !! i;
      '(r, sh') ← atomic i c sh;
      '(rs, sh'') ← serial cs order' sh';
      Some ((i, r) :: rs, sh'')
  end.

(** Where a caller is with respect to the mutex. *)
Inductive phase : Type := Before | Waiting | Inside | After.

Definition phase_of (l : pc) : phase :=
  match l with
  | Entry _ => Before
  | WLock _ | RLock _ | ILock _ _ => Waiting
  | WCheck _ | WStore _ | WInc | WUnlock _
  | RCheck _ | RUnlockEmpty | RDec _ | RLoad _ | RUnlock _ _
  | IAlloc _ _ | ICopy _ _ | ISetData _ _ | ISetSize _ | ISetTop _ | IUnlock _ => Inside
  | RCopy _ _ | Done _ => After
  end.

(** What a caller that has released the mutex is going to return. *)
Definition final_reply (l : pc) : option reply :=
  match l with
  | Done r => Some r
  | RCopy buf value =>
      let '(missed, sent) := copy_to_user buf (C.int_bytes value) in
      Some (if negb (missed =? 0) then Reply (- Errno.EFAULT) sent
            else Reply C.sizeof_int sent)
  | _ => None
  end.

(** The holder of the mutex runs alone up to its [mutex_unlock]. *)
Fixpoint finish (fuel : nat) (i : nat) (l : pc) (sh : shared) : option (pc * shared) :=
  match phase_of l with
  | Inside =>
      match fuel with
      | O => None
      | S fuel' => '(l', sh') ← tstep i l sh; finish fuel' i l' sh'
      end
  | _ => Some (l, sh)
  end.

(** A bound on the steps that a caller still has to make. *)
Definition steps_left (l : pc) : nat :=
  match l with
  | Entry (CWrite _ _) => 6
  | Entry (CRead _ _) => 7
  | Entry (CIoctl _ _ _) => 8
  | WLock _ => 5 | WCheck _ => 4 | WStore _ => 3 | WInc => 2 | WUnlock _ => 1
  | RLock _ => 6 | RCheck _ => 5 | RDec _ => 4 | RLoad _ => 3 | RUnlock _ _ => 2
  | RUnlockEmpty => 1 | RCopy _ _ => 1
  | ILock _ _ => 7 | IAlloc _ _ => 6 | ICopy _ _ => 5 | ISetData _ _ => 4
  | ISetSize _ => 3 | ISetTop _ => 2 | IUnlock _ => 1
  | Done _ => 0
  end%nat.

Definition work_left (cf : config) : nat :=
  foldr (fun l n => (steps_left l + n)%nat) 0%nat (threads cf).

(** Callers [i] that push the four bytes [bufs !! i]. *)
Definition pushes (bufs : list (list byte)) : list call :=
  map (fun buf => CWrite buf C.sizeof_int) bufs.

(** *** The invariant of the interleavings

    [order] lists the callers whose handler is past its [mutex_unlock] (or
    returned before any [mutex_lock]), in that order; [rs] and [base] are
    the replies and the shared object that serving them one after the other
    in that order gives. *)

(** What is known of caller [i], at [l] in the call [c]. *)
Definition caller_ok (sh0 base : shared) (order : list nat) (rs : list (nat * reply))
    (i : nat) (c : call) (l : pc) : Prop :=
  match phase_of l with
  | Before => l = Entry c /\ (i ∉ order) /\ lock sh0 <> Some i
  | Waiting => l = enter c /\ (i ∉ order) /\ lock sh0 <> Some i
  | Inside =>
      lock sh0 = Some i /\ (i ∉ order) /\
      exists fuel l' sh' r,
        finish fuel i l sh0 = Some (l', sh') /\
        phase_of l' = After /\ final_reply l' = Some r /\
        atomic i c base = Some (r, sh')
  | After => exists r, final_reply l = Some r /\ (i, r) ∈ rs
  end.

Definition linearized (cs : list call) (s0 : stack) (cf : config) : Prop :=
  exists order rs base,
    serial cs order {| stk := s0; lock := None; log := [] |} = Some (rs, base) /\
    NoDup order /\
    stack_ok (stk base) /\ lock base = None /\
    (lock (sh cf) = None -> sh cf = base) /\
    (forall i, lock (sh cf) = Some i ->
       exists l, threads cf !! i = Some l /\ phase_of l = Inside) /\
    length (threads cf) = length cs /\
    (forall i c l, cs !! i = Some c -> threads cf !! i = Some l ->
       caller_ok (sh cf) base order rs i c l).

(** The values that the write calls of a sequence offer to the stack. *)
Definition pushed (cs : list call) : list Z :=
  omap (fun c => match c with
                 | CWrite buf _ => Some (C.int_of_bytes buf)
                 | _ => None
                 end) cs.

(** The bytes of a reply are none, or the first bytes of a value of [V]. *)
Definition comes_from (V : list Z) (r : reply) : Prop :=
  to_user r = [] \/ exists v w, v ∈ V /\ to_user r = take w (C.int_bytes v).

(** ** The command-line utility [kernel_stack]

    The user-space program of the repository.  One run of [main] opens
    [/dev/int_stack] and makes the system calls of one command; the handlers
    above serve them.  [atoi] is the C library's, taken as a parameter. *)

(** What the utility writes, in order (a line is given without its
    newline; [PrintfInt] is [printf("%d\n", value)]). *)
Inductive output : Type :=
| Usage
| Stderr (line : string)
| Perror (msg : string) (errno : Z)
| Printf (line : string)
| PrintfInt (value : Z).

(** The C library's wrapper of a system call: a negative result of the
    handler comes back as -1, with [errno] set to its opposite. *)
Definition syscall (r : Z) (errno : Z) : Z * Z :=
  if r <? 0 then (-1, - r) else (r, errno).

(** The loop of [unwind]: [read] until it returns 0.  The loop of the
    source has no bound of its own; [fuel] bounds the number of [read]s, and
    [None] is also what running out of it gives. *)
Fixpoint unwind_loop (fuel : nat) (errno : Z) (s : stack) (out : list output)
  : option (Z * list output * stack) :=
  match fuel with
  | O => None
  | S fuel' =>
      '(r, s') ← stack_read 4 C.sizeof_int s;
      let '(ret, errno') := syscall (ret r) errno in
      if ret =? 0 then Some (0, out, s')
      else if ret <? 0
           then Some (- errno', out ++ [Perror "Failed to unwind stack" errno'], s')
           else unwind_loop fuel' errno' s'
                            (out ++ [PrintfInt (C.int_of_bytes (to_user r))])
  end.

(** [main(argc, argv)].  [present] is what [access(DEVICE_PATH, F_OK)] finds,
    [open_errno] is the error of [open] if it fails, [k] what [kmalloc]
    answers to an ioctl; the result is the value returned by [main], what was
    written, and the stack of the device. *)
Definition main (atoi : string -> Z) (fuel : nat)
    (present : bool) (open_errno : option Z) (k : kmalloc_answer)
    (argv : list string) (s : stack) : option (Z * list output * stack) :=
  if negb present then Some (1, [Stderr "error: USB key not inserted"], s)
  else if (length argv <? 2)%nat then Some (1, [Usage], s)
  else
    match open_errno with
    | Some e => Some (1, [Perror "Failed to open device" e], s)
    | None =>
        let argv1 := default "" (argv !! 1%nat) in
        let argv2 := default "" (argv !! 2%nat) in
        if String.eqb argv1 "set-size" then
          if negb (length argv =? 3)%nat then Some (1, [Usage], s)
          else
            let value := atoi argv2 in
            if value <=? 0 then Some (1, [Printf "ERROR: size should be > 0"], s)
            else
              '(r, s') ← stack_ioctl IOCTL_SET_SIZE (C.int_bytes value) k s;
              let '(ret, errno) := syscall r 0 in
              if ret <? 0
              then Some (- ret, [Perror "ERROR: failed to set stack size" errno], s')
              else Some (0, [], s')
        else if String.eqb argv1 "push" then
          if negb (length argv =? 3)%nat then Some (1, [Usage], s)
          else
            let value := atoi argv2 in
            '(r, s') ← stack_write (C.int_bytes value) C.sizeof_int s;
            let '(ret, errno) := syscall r 0 in
            if ret <? 0 then
              if errno =? Errno.ERANGE
              then Some (- Errno.ERANGE, [Printf "ERROR: stack is full"], s')
              else Some (- errno, [Perror "Failed to push value" errno], s')
            else Some (0, [], s')
        else if String.eqb argv1 "pop" then
          if negb (length argv =? 2)%nat then Some (1, [Usage], s)
          else
            '(r, s') ← stack_read 4 C.sizeof_int s;
            let '(ret, errno) := syscall (ret r) 0 in
            if ret =? 0 then Some (0, [Printf "NULL"], s')
            else if ret <? 0
                 then Some (- errno, [Perror "Failed to pop value" errno], s')
                 else Some (0, [PrintfInt (C.int_of_bytes (to_user r))], s')
        else if String.eqb argv1 "unwind" then
          if negb (length argv =? 2)%nat then Some (1, [Usage], s)
          else unwind_loop fuel 0 s []
        else Some (1, [Usage], s)
    end.

(** The exit status that the shell shows for a value returned by [main]:
    its low eight bits (the report: -34 is shown as 222). *)
Definition exit_status (r : Z) : Z := r mod 256.

(** ** The machine: the module, the device node and the key *)

(** The loaded module and whether [/dev/int_stack] exists. *)
Record machine : Type := Machine {
  modst : module_state;
  node : bool
}.

(** The key is inserted: the node appears when [usb_key_probe] succeeds. *)
Definition insert_key (k : probe_answers) (m : machine) : machine :=
  let '(r, _, ms) := usb_key_probe k (modst m) in
  {| modst := ms; node := if r =? 0 then true else node m |}.

(** The key is removed: [usb_key_disconnect] destroys the device. *)
Definition remove_key (m : machine) : machine :=
  {| modst := snd (usb_key_disconnect (modst m)); node := false |}.

(** One run of the utility on the machine. *)
Definition cli (atoi : string -> Z) (fuel : nat) (open_errno : option Z)
    (k : kmalloc_answer) (argv : list string) (m : machine)
  : option (Z * list output * machine) :=
  '(r, out, s') ← main atoi fuel (node m) open_errno k argv (the_stack (modst m));
  Some (r, out, {| modst := with_stack (modst m) s'; node := node m |}).

(** ** What the callbacks hold registered *)

(** A registration in the device model. *)
Inductive resource : Type :=
| Chrdev (major : Z)
| Class (cls : Z)
| Device (cls major : Z).

#[global] Instance resource_eq_dec : EqDecision resource.
Proof. solve_decision. Defined.

(** A held registration is given up; [None] when it is not held. *)
Fixpoint release (r : resource) (held : list resource) : option (list resource) :=
  match held with
  | [] => None
  | h :: held' =>
      if decide (h = r) then Some held' else cons h <$> release r held'
  end.

(** The registrations held after one call, given what the kernel answered
    to the registrations of this probe.  A registration that failed holds
    nothing; [None]: the call releases something that is not held. *)
Definition registry_step (k : probe_answers) (held : list resource) (c : kcall)
  : option (list resource) :=
  match c with
  | Kregister_chrdev =>
      Some (if register_chrdev_ret k <? 0 then held
            else Chrdev (register_chrdev_ret k) :: held)
  | Kclass_create =>
      Some (if IS_ERR (class_create_ret k) then held
            else Class (class_create_ret k) :: held)
  | Kdevice_create cls major =>
      Some (if IS_ERR (device_create_ret k) then held
            else Device cls major :: held)
  | Kunregister_chrdev major => release (Chrdev major) held
  | Kclass_destroy cls => release (Class cls) held
  | Kdevice_destroy cls major => release (Device cls major) held
  end.

Fixpoint registry_run (k : probe_answers) (held : list resource) (cs : list kcall)
  : option (list resource) :=
  match cs with
  | [] => Some held
  | c :: cs' => held' ← registry_step k held c; registry_run k held' cs'
  end.

(** ** Loading and unloading the module: what is allocated and freed *)

(** The two kinds of heap block of the module. *)
Inductive block : Type := StackStruct | StackData.

#[global] Instance block_eq_dec : EqDecision block.
Proof. solve_decision. Defined.

(** A call to the allocator: [kmalloc] with whether it gave a block, and
    [kfree]. *)
Inductive heap_op : Type :=
| Kmalloc (b : block) (ok : bool)
| Kfree (b : block).

(** The calls of the module's entry points, in order. *)
Inductive lcall : Type :=
| Lheap (h : heap_op)
| Lreg (c : kcall)
| Lusb_register
| Lusb_deregister.

(** A live block is freed; [None] when no such block is live. *)
Fixpoint free_block (b : block) (live : list block) : option (list block) :=
  match live with
  | [] => None
  | b' :: live' =>
      if decide (b' = b) then Some live' else cons b' <$> free_block b live'
  end.

(** The live blocks after one allocator call; [None]: a block is freed that
    is not live. *)
Definition heap_step (live : list block) (h : heap_op) : option (list block) :=
  match h with
  | Kmalloc b ok => Some (if ok then b :: live else live)
  | Kfree b => free_block b live
  end.

Fixpoint heap_run (live : list block) (hs : list heap_op) : option (list block) :=
  match hs with
  | [] => Some live
  | h :: hs' => live' ← heap_step live h; heap_run live' hs'
  end.

Definition heap_of (l : list lcall) : list heap_op :=
  omap (fun c => match c with Lheap h => Some h | _ => None end) l.

Definition reg_of (l : list lcall) : list kcall :=
  omap (fun c => match c with Lreg c => Some c | _ => None end) l.

(** The allocator calls of [stack_ioctl], in order: the [kmalloc] of the new
    block and, when there was a block, the [kfree] of the old one. *)
Definition stack_ioctl_heap (cmd : Z) (arg : list byte) (k : kmalloc_answer) (s : stack)
  : list heap_op :=
  if negb (cmd =? IOCTL_SET_SIZE) then []
  else
    let '(missed, bytes) := copy_from_user arg C.sizeof_int in
    if negb (missed =? 0) then []
    else
      let new_size := C.int_of_bytes bytes in
      if new_size <=? 0 then []
      else
        match kmalloc k (C.size_t_wrap (new_size * C.sizeof_int)) with
        | None => [Kmalloc StackData false]
        | Some _ =>
            Kmalloc StackData true ::
            match data s with
            | Some _ => [Kfree StackData]
            | None => []
            end
        end.

(** The allocator calls of one call on the device ([stack_read] and
    [stack_write] make none). *)
Definition heap_of_call (c : call) (s : stack) : list heap_op :=
  match c with
  | CIoctl cmd arg k => stack_ioctl_heap cmd arg k s
  | _ => []
  end.

(** The allocator calls of a sequence of calls. *)
Fixpoint heap_of_calls (cs : list call) (s : stack) : list heap_op :=
  match cs with
  | [] => []
  | c :: cs' =>
      heap_of_call c s ++
      match after c s with
      | Some s' => heap_of_calls cs' s'
      | None => []
      end
  end.

(** The data block that the stack holds, if it holds one. *)
Definition data_live (s : stack) : list block :=
  match data s with
  | Some _ => [StackData]
  | None => []
  end.

(** *** Blocks one by one

    To follow each block from its [kmalloc] to its [kfree], a block is named
    by a number, and the successive blocks that [kmalloc] hands out get
    successive numbers ([fresh] is the next one): two blocks are never
    confused, even if the allocator reuses an address. *)

(** A call to the allocator: [kmalloc] with the block it returned (none for
    NULL), and [kfree] of a block. *)
Inductive bop : Type :=
| Bmalloc (b : option nat)
| Bfree (b : nat).

(** The two pointers of the module: the global [stack], and [stack->data]
    (NULL or a block). *)
Record pointers : Type := Pointers {
  stack_ptr : nat;
  data_ptr : option nat
}.

(** A live block is freed; [None] when the block is not live. *)
Fixpoint bfree (b : nat) (live : list nat) : option (list nat) :=
  match live with
  | [] => None
  | b' :: live' =>
      if decide (b' = b) then Some live' else cons b' <$> bfree b live'
  end.

(** The live blocks after one allocator call; [None]: [kfree] of a block
    that is not live (never allocated, or freed already), or a block handed
    out while it is live. *)
Definition bheap_step (live : list nat) (o : bop) : option (list nat) :=
  match o with
  | Bmalloc None => Some live
  | Bmalloc (Some b) => if decide (b ∈ live) then None else Some (b :: live)
  | Bfree b => bfree b live
  end.

Fixpoint bheap_run (live : list nat) (os : list bop) : option (list nat) :=
  match os with
  | [] => Some live
  | o :: os' => live' ← bheap_step live o; bheap_run live' os'
  end.

(** The allocator calls of [stack_init] of [int_stack.c], and the pointers
    of the module when the load succeeds. *)
Definition stack_init_blocks (alloc : bool) (usb_register_ret : Z) (fresh : nat)
  : list bop * option pointers :=
  if negb alloc then ([Bmalloc None], None)
  else
    if negb (usb_register_ret =? 0) then ([Bmalloc (Some fresh); Bfree fresh], None)
    else ([Bmalloc (Some fresh)], Some {| stack_ptr := fresh; data_ptr := None |}).

(** The allocator calls of [stack_ioctl], the pointers after it and the next
    block number: [new_data] is the block [fresh]; the block freed is the
    one that [stack->data] pointed to, and [stack->data] then points to
    [new_data]. *)
Definition stack_ioctl_blocks (cmd : Z) (arg : list byte) (k : kmalloc_answer)
    (p : pointers) (fresh : nat) : list bop * pointers * nat :=
  if negb (cmd =? IOCTL_SET_SIZE) then ([], p, fresh)
  else
    let '(missed, bytes) := copy_from_user arg C.sizeof_int in
    if negb (missed =? 0) then ([], p, fresh)
    else
      let new_size := C.int_of_bytes bytes in
      if new_size <=? 0 then ([], p, fresh)
      else
        match kmalloc k (C.size_t_wrap (new_size * C.sizeof_int)) with
        | None => ([Bmalloc None], p, fresh)
        | Some _ =>
            let new_data := fresh in
            (Bmalloc (Some new_data) ::
             match data_ptr p with
             | Some old => [Bfree old]
             | None => []
             end,
             {| stack_ptr := stack_ptr p; data_ptr := Some new_data |},
             S fresh)
        end.

(** The allocator calls of one call on the device ([stack_read] and
    [stack_write] make none). *)
Definition blocks_of_call (c : call) (p : pointers) (fresh : nat)
  : list bop * pointers * nat :=
  match c with
  | CIoctl cmd arg k => stack_ioctl_blocks cmd arg k p fresh
  | _ => ([], p, fresh)
  end.

(** The allocator calls of a sequence of calls. *)
Fixpoint blocks_of_calls (cs : list call) (p : pointers) (fresh : nat)
  : list bop * pointers * nat :=
  match cs with
  | [] => ([], p, fresh)
  | c :: cs' =>
      let '(os, p', fresh') := blocks_of_call c p fresh in
      let '(os', p'', fresh'') := blocks_of_calls cs' p' fresh' in
      (os ++ os', p'', fresh'')
  end.

(** The allocator calls of [stack_exit] of [int_stack.c] (after its
    [usb_deregister]): the data block if there is one, then the struct. *)
Definition stack_exit_blocks (p : pointers) : list bop :=
  match data_ptr p with
  | Some d => [Bfree d]
  | None => []
  end ++ [Bfree (stack_ptr p)].

(** The blocks that the module points to: the data block if there is one,
    and the struct. *)
Definition pointed (p : pointers) : list nat :=
  match data_ptr p with
  | Some d => [d]
  | None => []
  end ++ [stack_ptr p].

(** The module before the USB key (the earlier source file of the
    repository): the device is created when the module is loaded. *)
Module Legacy.

(** [stack_init()]: the returned value, the calls made, and the module state
    when the load succeeds. *)
Definition stack_init (alloc : bool) (k : probe_answers)
  : Z * list lcall * option module_state :=
  if negb alloc then (- Errno.ENOMEM, [Lheap (Kmalloc StackStruct false)], None)
  else
    let st := {| data := None; top := 0; size := 0 |} in
    let major_number := register_chrdev_ret k in
    if major_number <? 0
    then (major_number,
          [Lheap (Kmalloc StackStruct true); Lreg Kregister_chrdev;
           Lheap (Kfree StackStruct)], None)
    else
      let stack_class := class_create_ret k in
      if IS_ERR stack_class
      then (PTR_ERR stack_class,
            [Lheap (Kmalloc StackStruct true); Lreg Kregister_chrdev;
             Lreg Kclass_create; Lreg (Kunregister_chrdev major_number);
             Lheap (Kfree StackStruct)], None)
      else
        let stack_device := device_create_ret k in
        if IS_ERR stack_device
        then (PTR_ERR stack_device,
              [Lheap (Kmalloc StackStruct true); Lreg Kregister_chrdev;
               Lreg Kclass_create; Lreg (Kdevice_create stack_class major_number);
               Lreg (Kclass_destroy stack_class);
               Lreg (Kunregister_chrdev major_number);
               Lheap (Kfree StackStruct)], None)
        else (0,
              [Lheap (Kmalloc StackStruct true); Lreg Kregister_chrdev;
               Lreg Kclass_create; Lreg (Kdevice_create stack_class major_number)],
              Some {| the_stack := st; major_number := major_number;
                      stack_class := stack_class; stack_device := stack_device |}).

(** [stack_exit()]. *)
Definition stack_exit (m : module_state) : list lcall :=
  [Lreg (Kdevice_destroy (stack_class m) (major_number m));
   Lreg (Kclass_destroy (stack_class m));
   Lreg (Kunregister_chrdev (major_number m))]
  ++ match data (the_stack m) with
     | Some _ => [Lheap (Kfree StackData)]
     | None => []
     end
  ++ [Lheap (Kfree StackStruct)].

End Legacy.

(** * Properties *)

(** ** C scalars and the user-memory boundary *)

Lemma int_wrap_id z : C.int_range z -> C.int_wrap z = z.
Proof.
  unfold C.int_range, C.INT_MIN, C.INT_MAX, C.int_wrap. intros Hz.
  rewrite Z.mod_small; lia.
Qed.

Lemma int_wrap_range z : C.int_range (C.int_wrap z).
Proof.
  unfold C.int_range, C.INT_MIN, C.INT_MAX, C.int_wrap.
  pose proof (Z.mod_pos_bound (z + 2 ^ 31) (2 ^ 32)). lia.
Qed.

Lemma int_of_bytes_range bs : C.int_range (C.int_of_bytes bs).
Proof. apply int_wrap_range. Qed.

Lemma int_wrap_mod z : C.int_wrap z mod 2 ^ 32 = z mod 2 ^ 32.
Proof.
  unfold C.int_wrap.
  rewrite <- Zminus_mod_idemp_l.
  rewrite Z.mod_mod by lia.
  rewrite Zminus_mod_idemp_l. f_equal. lia.
Qed.

(** An [int] survives the trip through its four bytes. *)
Lemma int_of_bytes_int_bytes v : C.int_range v -> C.int_of_bytes (C.int_bytes v) = v.
Proof.
  intros Hv. unfold C.int_of_bytes, C.int_bytes.
  rewrite take_ge by (rewrite length_le_split; lia).
  rewrite le_combine_split.
  change (Z.of_nat 4 * 8) with 32.
  unfold C.int_range, C.INT_MIN, C.INT_MAX in Hv. unfold C.int_wrap.
  rewrite Zplus_mod_idemp_l.
  rewrite Z.mod_small; lia.
Qed.

(** Four bytes survive the trip through the [int] they encode. *)
Lemma int_bytes_int_of_bytes bs :
  (4 <= length bs)%nat -> C.int_bytes (C.int_of_bytes bs) = take 4 bs.
Proof.
  intros Hlen. unfold C.int_of_bytes, C.int_bytes.
  rewrite le_split_mod. change (Z.of_nat 4 * 8) with 32.
  rewrite int_wrap_mod, <- le_split_mod.
  apply split_le_combine'. rewrite length_take. lia.
Qed.

Lemma copy_from_user_ok buf :
  (4 <= length buf)%nat -> copy_from_user buf C.sizeof_int = (0, take 4 buf).
Proof.
  intros Hlen. unfold copy_from_user, C.sizeof_int.
  change (Z.to_nat 4) with 4%nat. rewrite length_take. f_equal. lia.
Qed.

Lemma copy_from_user_fault buf :
  (length buf < 4)%nat -> fst (copy_from_user buf C.sizeof_int) <> 0.
Proof.
  intros Hlen. unfold copy_from_user, C.sizeof_int. cbn [fst].
  change (Z.to_nat 4) with 4%nat. rewrite length_take. lia.
Qed.

Lemma copy_to_user_ok w v :
  (4 <= w)%nat -> copy_to_user w (C.int_bytes v) = (0, C.int_bytes v).
Proof.
  intros Hw. unfold copy_to_user, C.int_bytes.
  rewrite take_ge by (rewrite length_le_split; lia).
  f_equal; lia.
Qed.

Lemma copy_to_user_fault w v :
  (w < 4)%nat -> fst (copy_to_user w (C.int_bytes v)) = 4 - Z.of_nat w.
Proof.
  intros Hw. unfold copy_to_user, C.int_bytes. cbn [fst].
  rewrite length_take, length_le_split. lia.
Qed.

(** On an LP64 kernel the byte count of [n] ints does not wrap. *)
Lemma size_t_cells n :
  0 <= n <= C.INT_MAX -> C.size_t_wrap (n * C.sizeof_int) / C.sizeof_int = n.
Proof.
  unfold C.INT_MAX, C.size_t_wrap, C.sizeof_int. intros Hn.
  rewrite Z.mod_small by lia. rewrite Z.div_mul by lia. reflexivity.
Qed.

Lemma kmalloc_length junk n :
  0 <= n <= C.INT_MAX ->
  exists block, kmalloc (KBlock junk) (C.size_t_wrap (n * C.sizeof_int)) = Some block
                /\ Z.of_nat (length block) = n.
Proof.
  intros Hn. unfold kmalloc. rewrite size_t_cells by exact Hn.
  eexists. split; [reflexivity|].
  rewrite length_map, length_seq. lia.
Qed.

(** ** The handlers, one at a time *)

Lemma stack_ok_block s :
  stack_ok s -> 0 < size s ->
  exists block, data s = Some block /\ Z.of_nat (length block) = size s.
Proof.
  intros (_ & _ & Hd) Hpos. destruct (data s) as [block|]; [eauto | lia].
Qed.

Lemma stack_ok_stack0 : stack_ok stack0.
Proof. unfold stack_ok, stack0, C.INT_MAX; simpl. lia. Qed.

(** [stack_write] on a full stack. *)
Lemma stack_write_full buf s :
  (4 <= length buf)%nat -> size s <= top s ->
  stack_write buf C.sizeof_int s = Some (- Errno.ERANGE, s).
Proof.
  intros Hbuf Hfull. unfold stack_write.
  rewrite Z.eqb_refl, copy_from_user_ok by exact Hbuf. cbn [negb].
  rewrite Z.eqb_refl. cbn [negb].
  destruct (Z.geb_spec (top s) (size s)); [reflexivity | lia].
Qed.

(** [stack_write] with room left. *)
Lemma stack_write_push buf s :
  stack_ok s -> (4 <= length buf)%nat -> top s < size s ->
  exists block,
    data s = Some block /\
    stack_write buf C.sizeof_int s =
      Some (C.sizeof_int,
            {| data := Some (<[Z.to_nat (top s) := C.int_of_bytes buf]> block);
               top := top s + 1; size := size s |}).
Proof.
  intros Hok Hbuf Hroom.
  destruct (stack_ok_block s Hok) as (block & Hdata & Hlen); [destruct Hok; lia|].
  destruct Hok as (Htop & Hmax & _).
  exists block. split; [exact Hdata|]. unfold stack_write.
  rewrite Z.eqb_refl, copy_from_user_ok by exact Hbuf. cbn [negb].
  rewrite Z.eqb_refl. cbn [negb].
  destruct (Z.geb_spec (top s) (size s)); [lia|].
  rewrite Hdata. cbn [mbind option_bind]. unfold set_cell.
  destruct (Z.leb_spec 0 (top s)); [|lia].
  destruct (Z.ltb_spec (top s) (Z.of_nat (length block))); [|lia].
  cbn [andb mbind option_bind].
  rewrite int_wrap_id by (unfold C.int_range, C.INT_MIN, C.INT_MAX in *; lia).
  unfold C.int_of_bytes. rewrite take_take, Nat.min_id. reflexivity.
Qed.

(** [stack_read] on an empty stack. *)
Lemma stack_read_empty w s :
  top s = 0 -> stack_read w C.sizeof_int s = Some (Reply 0 [], s).
Proof.
  intros Hempty. unfold stack_read. rewrite Z.eqb_refl. cbn [negb].
  rewrite Hempty. reflexivity.
Qed.

(** [stack_read] on a stack that holds something. *)
Lemma stack_read_pop w s :
  stack_ok s -> top s <> 0 ->
  exists block v,
    data s = Some block /\ block !! Z.to_nat (top s - 1) = Some v /\
    stack_read w C.sizeof_int s =
      Some (if (w <? 4)%nat then Reply (- Errno.EFAULT) (take w (C.int_bytes v))
            else Reply C.sizeof_int (C.int_bytes v),
            {| data := Some block; top := top s - 1; size := size s |}).
Proof.
  intros Hok Hne.
  destruct (stack_ok_block s Hok) as (block & Hdata & Hlen); [destruct Hok; lia|].
  destruct Hok as (Htop & Hmax & _).
  destruct (lookup_lt_is_Some_2 block (Z.to_nat (top s - 1))) as [v Hv]; [lia|].
  exists block, v. split; [exact Hdata|]. split; [exact Hv|].
  unfold stack_read. rewrite Z.eqb_refl. cbn [negb].
  destruct (Z.eqb_spec (top s) 0); [lia|].
  rewrite int_wrap_id by (unfold C.int_range, C.INT_MIN, C.INT_MAX in *; lia).
  rewrite Hdata. cbn [mbind option_bind]. unfold cell.
  destruct (Z.leb_spec 0 (top s - 1)); [|lia].
  rewrite Hv. cbn [mbind option_bind].
  destruct (Nat.ltb_spec w 4) as [Hw|Hw].
  - pose proof (copy_to_user_fault w v Hw) as Hf.
    unfold copy_to_user in *. cbn [fst] in Hf.
    destruct (Z.eqb_spec (Z.of_nat (length (C.int_bytes v))
                          - Z.of_nat (length (take w (C.int_bytes v)))) 0); [lia|].
    reflexivity.
  - rewrite copy_to_user_ok by exact Hw. reflexivity.
Qed.

(** [stack_ioctl] when the size is positive and [kmalloc] gives a block. *)
Lemma stack_ioctl_resize arg junk s :
  stack_ok s -> (4 <= length arg)%nat -> 0 < C.int_of_bytes arg ->
  let n := C.int_of_bytes arg in
  let kept := Z.to_nat (Z.min (top s) n) in
  stack_ioctl IOCTL_SET_SIZE arg (KBlock junk) s =
    Some (0, {| data := Some (take kept (default [] (data s))
                              ++ drop kept (map junk (seq 0 (Z.to_nat n))));
                top := Z.min (top s) n; size := n |}).
Proof.
  intros Hok Harg Hpos n kept. unfold stack_ioctl.
  rewrite Z.eqb_refl, copy_from_user_ok by exact Harg. cbn [negb].
  rewrite Z.eqb_refl. cbn [negb].
  assert (Hn : C.int_of_bytes (take 4 arg) = n).
  { unfold n, C.int_of_bytes. rewrite take_take, Nat.min_id. reflexivity. }
  rewrite Hn.
  pose proof (int_of_bytes_range arg) as Hr. fold n in Hr, Hpos.
  destruct Hr as [_ Hmax].
  destruct (Z.leb_spec n 0); [lia|].
  unfold kmalloc. rewrite size_t_cells by lia.
  destruct Hok as (Htop & Hsz & Hd).
  assert (Htopn : (if top s >? n then n else top s) = Z.min (top s) n).
  { destruct (Z.gtb_spec (top s) n); lia. }
  rewrite Htopn.
  destruct (data s) as [old|]; cbn [mbind option_bind default].
  - assert (Hcp : (if top s <? n then top s else n) = Z.min (top s) n).
    { destruct (Z.ltb_spec (top s) n); lia. }
    rewrite Hcp. unfold memcpy.
    rewrite size_t_cells by lia. rewrite length_map, length_seq.
    destruct (Z.leb_spec (Z.min (top s) n) (Z.of_nat (length old))); [|lia].
    destruct (Z.leb_spec (Z.min (top s) n) (Z.of_nat (Z.to_nat n))); [|lia].
    reflexivity.
  - assert (Hk : kept = 0%nat) by (unfold kept; lia).
    rewrite Hk, take_nil. reflexivity.
Qed.

(** ** Wrong byte counts and unknown commands *)

Lemma stack_read_count w count s :
  count <> C.sizeof_int -> stack_read w count s = Some (Reply (- Errno.EINVAL) [], s).
Proof.
  intros Hc. unfold stack_read.
  destruct (Z.eqb_spec count C.sizeof_int); [contradiction | reflexivity].
Qed.

Lemma stack_write_count buf count s :
  count <> C.sizeof_int -> stack_write buf count s = Some (- Errno.EINVAL, s).
Proof.
  intros Hc. unfold stack_write.
  destruct (Z.eqb_spec count C.sizeof_int); [contradiction | reflexivity].
Qed.

Lemma stack_write_fault buf s :
  (length buf < 4)%nat -> stack_write buf C.sizeof_int s = Some (- Errno.EFAULT, s).
Proof.
  intros Hb. unfold stack_write. rewrite Z.eqb_refl. cbn [negb].
  pose proof (copy_from_user_fault buf Hb) as Hf.
  destruct (copy_from_user buf C.sizeof_int) as [missed bytes]. cbn [fst] in Hf.
  destruct (Z.eqb_spec missed 0); [contradiction | reflexivity].
Qed.

Lemma stack_ioctl_cmd cmd arg k s :
  cmd <> IOCTL_SET_SIZE -> stack_ioctl cmd arg k s = Some (- Errno.ENOTTY, s).
Proof.
  intros Hc. unfold stack_ioctl.
  destruct (Z.eqb_spec cmd IOCTL_SET_SIZE); [contradiction | reflexivity].
Qed.

Lemma stack_ioctl_fault arg k s :
  (length arg < 4)%nat -> stack_ioctl IOCTL_SET_SIZE arg k s = Some (- Errno.EFAULT, s).
Proof.
  intros Hb. unfold stack_ioctl. rewrite Z.eqb_refl. cbn [negb].
  pose proof (copy_from_user_fault arg Hb) as Hf.
  destruct (copy_from_user arg C.sizeof_int) as [missed bytes]. cbn [fst] in Hf.
  destruct (Z.eqb_spec missed 0); [contradiction | reflexivity].
Qed.

Lemma stack_ioctl_nonpositive arg k s :
  (4 <= length arg)%nat -> C.int_of_bytes arg <= 0 ->
  stack_ioctl IOCTL_SET_SIZE arg k s = Some (- Errno.EINVAL, s).
Proof.
  intros Hb Hn. unfold stack_ioctl.
  rewrite Z.eqb_refl, copy_from_user_ok by exact Hb. cbn [negb].
  rewrite Z.eqb_refl. cbn [negb].
  assert (Heq : C.int_of_bytes (take 4 arg) = C.int_of_bytes arg).
  { unfold C.int_of_bytes. rewrite take_take, Nat.min_id. reflexivity. }
  rewrite Heq.
  destruct (Z.leb_spec (C.int_of_bytes arg) 0); [reflexivity | lia].
Qed.

Lemma stack_ioctl_nomem arg s :
  (4 <= length arg)%nat -> 0 < C.int_of_bytes arg ->
  stack_ioctl IOCTL_SET_SIZE arg KNull s = Some (- Errno.ENOMEM, s).
Proof.
  intros Hb Hn. unfold stack_ioctl.
  rewrite Z.eqb_refl, copy_from_user_ok by exact Hb. cbn [negb].
  rewrite Z.eqb_refl. cbn [negb].
  assert (Heq : C.int_of_bytes (take 4 arg) = C.int_of_bytes arg).
  { unfold C.int_of_bytes. rewrite take_take, Nat.min_id. reflexivity. }
  rewrite Heq.
  destruct (Z.leb_spec (C.int_of_bytes arg) 0); [lia | reflexivity].
Qed.

(** ** The representation invariant is kept, and no call goes wrong *)

Lemma stack_read_ok w count s :
  stack_ok s -> exists r s', stack_read w count s = Some (r, s') /\ stack_ok s'.
Proof.
  intros Hok.
  destruct (Z.eq_dec count C.sizeof_int) as [->|Hc].
  - destruct (Z.eq_dec (top s) 0) as [Hz|Hnz].
    + rewrite stack_read_empty by exact Hz. eauto.
    + destruct (stack_read_pop w s Hok Hnz) as (block & v & Hd & _ & ->).
      do 2 eexists. split; [reflexivity|].
      destruct Hok as (Ht & Hm & Hb). rewrite Hd in Hb.
      unfold stack_ok; cbn [data top size]. lia.
  - rewrite stack_read_count by exact Hc. eauto.
Qed.

Lemma stack_write_ok buf count s :
  stack_ok s -> exists r s', stack_write buf count s = Some (r, s') /\ stack_ok s'.
Proof.
  intros Hok.
  destruct (Z.eq_dec count C.sizeof_int) as [->|Hc].
  - destruct (Nat.lt_ge_cases (length buf) 4) as [Hb|Hb].
    + rewrite stack_write_fault by exact Hb. eauto.
    + destruct (Z.lt_ge_cases (top s) (size s)) as [Hroom|Hfull].
      * destruct (stack_write_push buf s Hok Hb Hroom) as (block & Hd & ->).
        do 2 eexists. split; [reflexivity|].
        destruct Hok as (Ht & Hm & Hlen). rewrite Hd in Hlen.
        unfold stack_ok; cbn [data top size]. rewrite length_insert. lia.
      * rewrite stack_write_full by assumption. eauto.
  - rewrite stack_write_count by exact Hc. eauto.
Qed.

Lemma stack_ioctl_ok cmd arg k s :
  stack_ok s -> exists r s', stack_ioctl cmd arg k s = Some (r, s') /\ stack_ok s'.
Proof.
  intros Hok.
  destruct (Z.eq_dec cmd IOCTL_SET_SIZE) as [->|Hc].
  - destruct (Nat.lt_ge_cases (length arg) 4) as [Hb|Hb].
    + rewrite stack_ioctl_fault by exact Hb. eauto.
    + destruct (Z.lt_ge_cases 0 (C.int_of_bytes arg)) as [Hpos|Hneg].
      * destruct k as [|junk].
        -- rewrite stack_ioctl_nomem by assumption. eauto.
        -- rewrite stack_ioctl_resize by assumption.
           do 2 eexists. split; [reflexivity|].
           pose proof (int_of_bytes_range arg) as [_ Hmax].
           destruct Hok as (Ht & Hm & Hlen).
           unfold stack_ok; cbn [data top size].
           rewrite length_app, length_take, length_drop, length_map, length_seq.
           destruct (data s) as [old|]; cbn [from_option id length]; lia.
      * rewrite stack_ioctl_nonpositive by assumption. eauto.
  - rewrite stack_ioctl_cmd by exact Hc. eauto.
Qed.

Lemma handle_ok c s :
  stack_ok s -> exists r s', handle c s = Some (r, s') /\ stack_ok s'.
Proof.
  intros Hok. destruct c as [w count|buf count|cmd arg k]; cbn [handle].
  - apply stack_read_ok, Hok.
  - destruct (stack_write_ok buf count s Hok) as (r & s' & -> & Hok'). cbn. eauto.
  - destruct (stack_ioctl_ok cmd arg k s Hok) as (r & s' & -> & Hok'). cbn. eauto.
Qed.

Lemma states_of_ok cs : forall s,
  stack_ok s ->
  exists states, states_of cs s = Some states /\
                 length states = length cs /\ Forall stack_ok states.
Proof.
  induction cs as [|c cs IH]; intros s Hok; cbn [states_of].
  - exists []. auto.
  - destruct (handle_ok c s Hok) as (r & s' & Hh & Hok').
    unfold after. rewrite Hh. cbn.
    destruct (IH s' Hok') as (states & -> & Hlen & Hall). cbn.
    exists (s' :: states). cbn. auto.
Qed.

(** ** The stored elements *)

Lemma elements_length s :
  stack_ok s -> Z.of_nat (length (elements s)) = top s.
Proof.
  intros (Ht & _ & Hd). unfold elements. rewrite length_take.
  destruct (data s) as [block|]; cbn [from_option id length]; lia.
Qed.

Lemma elements_push block v t sz :
  0 <= t < Z.of_nat (length block) ->
  elements {| data := Some (<[Z.to_nat t := v]> block); top := t + 1; size := sz |}
  = elements {| data := Some block; top := t; size := sz |} ++ [v].
Proof.
  intros Ht. unfold elements. cbn [data top from_option id].
  replace (Z.to_nat (t + 1)) with (S (Z.to_nat t)) by lia.
  rewrite (take_S_r _ _ v) by (apply list_lookup_insert_eq; lia).
  rewrite take_insert_ge by lia. reflexivity.
Qed.

Lemma elements_pop block v t sz :
  0 < t -> block !! Z.to_nat (t - 1) = Some v ->
  elements {| data := Some block; top := t; size := sz |}
  = elements {| data := Some block; top := t - 1; size := sz |} ++ [v].
Proof.
  intros Ht Hv. unfold elements. cbn [data top from_option id].
  replace (Z.to_nat t) with (S (Z.to_nat (t - 1))) by lia.
  apply take_S_r, Hv.
Qed.

Lemma elements_eta s block :
  data s = Some block ->
  elements s = elements {| data := Some block; top := top s; size := size s |}.
Proof. intros Hd. unfold elements. rewrite Hd. reflexivity. Qed.

Lemma stack_init_stack0 m :
  snd (stack_init true 0) = Some m -> the_stack m = stack0.
Proof. cbn. intros [= <-]. reflexivity. Qed.

(** ** Last in, first out *)

Lemma replies_of_app cs1 : forall cs2 s,
  replies_of (cs1 ++ cs2) s
  = ('(r1, s1) ← replies_of cs1 s; '(r2, s2) ← replies_of cs2 s1; Some (r1 ++ r2, s2)).
Proof.
  induction cs1 as [|c cs1 IH]; intros cs2 s; cbn [app replies_of mbind option_bind].
  - destruct (replies_of cs2 s) as [[r2 s2]|]; reflexivity.
  - destruct (handle c s) as [[r s']|]; cbn [mbind option_bind]; [|reflexivity].
    rewrite IH.
    destruct (replies_of cs1 s') as [[r1 s1]|]; cbn [mbind option_bind]; [|reflexivity].
    destruct (replies_of cs2 s1) as [[r2 s2]|]; reflexivity.
Qed.

(** A pop into a buffer that takes four bytes, on elements [es ++ [v]]. *)
Lemma stack_read_top w s es v :
  stack_ok s -> (4 <= w)%nat -> elements s = es ++ [v] ->
  exists s',
    stack_read w C.sizeof_int s = Some (Reply C.sizeof_int (C.int_bytes v), s') /\
    stack_ok s' /\ top s' = top s - 1 /\ size s' = size s /\ elements s' = es.
Proof.
  intros Hok Hw Hel.
  assert (Hnz : top s <> 0).
  { intros Hz. unfold elements in Hel. rewrite Hz in Hel. cbn [Z.to_nat] in Hel.
    rewrite take_0 in Hel. destruct es; discriminate. }
  destruct (stack_read_pop w s Hok Hnz) as (block & v' & Hd & Hv & Hr).
  destruct (stack_read_ok w C.sizeof_int s Hok) as (r & s' & Hr' & Hok').
  rewrite Hr in Hr'. injection Hr' as <- <-.
  assert (Hpos : 0 < top s) by (destruct Hok; lia).
  pose proof (elements_pop block v' (top s) (size s) Hpos Hv) as Hsplit.
  rewrite <- (elements_eta s block Hd), Hel in Hsplit.
  apply app_inj_tail in Hsplit as [-> ->].
  destruct (Nat.ltb_spec w 4); [lia|].
  eexists. split; [exact Hr|]. split; [exact Hok'|]. repeat split.
Qed.

(** Pushes, then as many pops: the pops give the values back, last pushed
    first, and the stack is as before the pushes. *)
Lemma pushes_then_pops bufs : forall s,
  stack_ok s -> Forall (fun buf => (4 <= length buf)%nat) bufs ->
  top s + Z.of_nat (length bufs) <= size s ->
  exists s',
    replies_of (map (fun buf => CWrite buf C.sizeof_int) bufs
                ++ repeat (CRead 4 C.sizeof_int) (length bufs)) s
    = Some (repeat (Reply C.sizeof_int []) (length bufs)
            ++ map (fun buf => Reply C.sizeof_int (take 4 buf)) (rev bufs), s') /\
    stack_ok s' /\ top s' = top s /\ size s' = size s /\ elements s' = elements s.
Proof.
  induction bufs as [|buf bufs IH]; intros s Hok Hbufs Hroom.
  - exists s. cbn. auto.
  - apply Forall_cons in Hbufs as [Hb Hbufs]. cbn [length] in Hroom.
    destruct (stack_write_push buf s Hok Hb) as (block & Hd & Hw); [lia|].
    destruct (stack_write_ok buf C.sizeof_int s Hok) as (r & s1 & Hw' & Hok1).
    rewrite Hw in Hw'. injection Hw' as <- <-.
    assert (Hel1 : elements {| data := Some (<[Z.to_nat (top s) := C.int_of_bytes buf]> block);
                               top := top s + 1; size := size s |}
                   = elements s ++ [C.int_of_bytes buf]).
    { rewrite (elements_eta s block Hd). apply elements_push.
      destruct Hok as (Ht & _ & Hlen). rewrite Hd in Hlen. lia. }
    destruct (IH _ Hok1 Hbufs) as (s2 & Hrun & Hok2 & Ht2 & Hs2 & He2);
      [cbn [top size]; lia|].
    cbn [top size] in Ht2, Hs2. rewrite Hel1 in He2.
    destruct (stack_read_top 4 s2 _ _ Hok2 (Nat.le_refl _) He2)
      as (s3 & Hrd & Hok3 & Ht3 & Hs3 & He3).
    exists s3. split; [|split; [exact Hok3|split; [lia|split; [congruence|exact He3]]]].
    cbn [map length repeat rev app]. rewrite repeat_cons, app_assoc.
    cbn [app replies_of handle]. rewrite Hw. cbn [mbind option_bind].
    rewrite replies_of_app, Hrun. cbn [mbind option_bind replies_of handle].
    rewrite Hrd. cbn [mbind option_bind].
    rewrite int_bytes_int_of_bytes by exact Hb.
    rewrite map_app, app_assoc. reflexivity.
Qed.

(** A batch of pushes: the first [size - top] find room, the others do not. *)
Lemma pushes_fill (bufs : list (list byte)) : forall s : stack,
  stack_ok s -> Forall (fun buf => (4 <= length buf)%nat) bufs ->
  exists s',
    replies_of (map (fun buf => CWrite buf C.sizeof_int) bufs) s
    = Some (repeat (Reply C.sizeof_int [])
                   (Nat.min (length bufs) (Z.to_nat (size s - top s)))
            ++ repeat (Reply (- Errno.ERANGE) [])
                      (length bufs - Z.to_nat (size s - top s)), s') /\
    stack_ok s' /\ size s' = size s /\
    top s' = Z.min (size s) (top s + Z.of_nat (length bufs)) /\
    elements s'
    = elements s ++ map C.int_of_bytes (take (Z.to_nat (size s - top s)) bufs).
Proof.
  induction bufs as [|buf bufs IH]; intros s Hok Hbufs.
  - exists s. cbn [map replies_of length]. rewrite take_nil.
    destruct Hok as (Ht & Hrest).
    split; [reflexivity|]. split; [split; assumption|]. split; [reflexivity|].
    split; [lia|]. cbn [map]. rewrite app_nil_r. reflexivity.
  - apply Forall_cons in Hbufs as [Hb Hbufs]. cbn [map replies_of handle length].
    destruct (Z.lt_ge_cases (top s) (size s)) as [Hroom|Hfull].
    + destruct (stack_write_push buf s Hok Hb Hroom) as (block & Hd & Hw).
      destruct (stack_write_ok buf C.sizeof_int s Hok) as (r & s1 & Hw' & Hok1).
      rewrite Hw in Hw'. injection Hw' as <- <-. rewrite Hw. cbn [mbind option_bind].
      destruct (IH _ Hok1 Hbufs) as (s' & -> & Hok' & Hs & Ht & He).
      cbn [mbind option_bind top size] in *.
      assert (Hel : elements {| data := Some (<[Z.to_nat (top s) := C.int_of_bytes buf]> block);
                                top := top s + 1; size := size s |}
                    = elements s ++ [C.int_of_bytes buf]).
      { rewrite (elements_eta s block Hd). apply elements_push.
        destruct Hok as (Htop & _ & Hlen). rewrite Hd in Hlen. lia. }
      destruct Hok as (Htop & _).
      replace (Z.to_nat (size s - top s)) with (S (Z.to_nat (size s - (top s + 1)))) by lia.
      exists s'. split; [reflexivity|]. split; [exact Hok'|]. split; [exact Hs|].
      split; [lia|].
      rewrite He, Hel, <- app_assoc. reflexivity.
    + rewrite stack_write_full by assumption. cbn [mbind option_bind].
      destruct (IH _ Hok Hbufs) as (s' & -> & Hok' & Hs & Ht & He).
      cbn [mbind option_bind].
      destruct Hok as (Htop & _).
      replace (Z.to_nat (size s - top s)) with 0%nat in * by lia.
      rewrite Nat.min_0_r in *. rewrite Nat.sub_0_r in *.
      exists s'. split; [reflexivity|]. split; [exact Hok'|]. split; [exact Hs|].
      split; [lia | exact He].
Qed.


(** ** The runs shown in the report *)

(** set-size 2; push 1; push 2; push 3 (full); pop; pop; pop (empty). *)
Example report_run_full_then_empty :
  replies_of [CIoctl IOCTL_SET_SIZE (C.int_bytes 2) (KBlock (fun _ => 0));
              CWrite (C.int_bytes 1) 4; CWrite (C.int_bytes 2) 4;
              CWrite (C.int_bytes 3) 4;
              CRead 4 4; CRead 4 4; CRead 4 4] stack0
  = Some ([Reply 0 []; Reply 4 []; Reply 4 []; Reply (- Errno.ERANGE) [];
           Reply 4 (C.int_bytes 2); Reply 4 (C.int_bytes 1); Reply 0 []],
          {| data := Some [1; 2]; top := 0; size := 2 |}).
Proof. vm_compute. reflexivity. Qed.

(** set-size 3; push 1; push 2; push 3; unwind. *)
Example report_run_unwind :
  replies_of [CIoctl IOCTL_SET_SIZE (C.int_bytes 3) (KBlock (fun _ => 0));
              CWrite (C.int_bytes 1) 4; CWrite (C.int_bytes 2) 4;
              CWrite (C.int_bytes 3) 4;
              CRead 4 4; CRead 4 4; CRead 4 4; CRead 4 4] stack0
  = Some ([Reply 0 []; Reply 4 []; Reply 4 []; Reply 4 [];
           Reply 4 (C.int_bytes 3); Reply 4 (C.int_bytes 2); Reply 4 (C.int_bytes 1);
           Reply 0 []],
          {| data := Some [1; 2; 3]; top := 0; size := 3 |}).
Proof. vm_compute. reflexivity. Qed.

(** A resize to a smaller size drops the elements above it. *)
Example shrink_drops_the_top :
  replies_of [CIoctl IOCTL_SET_SIZE (C.int_bytes 3) (KBlock (fun _ => 0));
              CWrite (C.int_bytes 1) 4; CWrite (C.int_bytes 2) 4;
              CWrite (C.int_bytes 3) 4;
              CIoctl IOCTL_SET_SIZE (C.int_bytes 2) (KBlock (fun _ => 0));
              CRead 4 4] stack0
  = Some ([Reply 0 []; Reply 4 []; Reply 4 []; Reply 4 []; Reply 0 [];
           Reply 4 (C.int_bytes 2)],
          {| data := Some [1; 2]; top := 1; size := 2 |}).
Proof. vm_compute. reflexivity. Qed.

Example ioctl_set_size_value : IOCTL_SET_SIZE = 0x40047301.
Proof. reflexivity. Qed.

(** ** The claims about single calls *)

(** C1: from the initial state (no block, capacity 0, nothing stored), after
    every call of every sequence of read (pop), write (push) and ioctl
    (resize) calls, whatever their arguments and whatever the allocator
    answers, the call has a defined result and [0 <= top <= size] holds,
    [top] being the number of stored elements (and the whole representation
    invariant [stack_ok] holds, which the other statements assume). *)
Theorem invariant_after_every_call (cs : list call) :
  exists states,
    states_of cs stack0 = Some states /\
    length states = length cs /\
    Forall (fun s => 0 <= top s <= size s /\
                     Z.of_nat (length (elements s)) = top s /\
                     stack_ok s)
           states.
Proof.
  destruct (states_of_ok cs stack0 stack_ok_stack0) as (states & Hrun & Hlen & Hall).
  exists states. split; [exact Hrun|]. split; [exact Hlen|].
  eapply Forall_impl; [exact Hall|].
  intros s Hok. split; [apply Hok|]. split; [apply elements_length, Hok | exact Hok].
Qed.

(** C2: a read (pop) of an empty stack returns 0 bytes, with no error, and
    leaves the stack as it was; a read of a stack whose elements are
    [es ++ [v]] leaves [es], decrements [top] by one, keeps [size] and the
    block, and, when the caller's buffer takes the four bytes, returns the
    four bytes of [v], the last element pushed that is still stored.  Last
    in, first out: after any pushes that find room, as many pops return the
    pushed values in the reverse order and leave the stack as it was before
    the pushes. *)
Theorem pop_is_lifo (s : stack) :
  stack_ok s ->
  (top s = 0 -> forall w, stack_read w C.sizeof_int s = Some (Reply 0 [], s)) /\
  (top s <> 0 ->
   exists es v,
     elements s = es ++ [v] /\
     forall w, exists r s',
       stack_read w C.sizeof_int s = Some (r, s') /\
       ((4 <= w)%nat -> r = Reply C.sizeof_int (C.int_bytes v)) /\
       top s' = top s - 1 /\ size s' = size s /\ data s' = data s /\
       elements s' = es) /\
  (forall bufs,
     Forall (fun buf => (4 <= length buf)%nat) bufs ->
     top s + Z.of_nat (length bufs) <= size s ->
     exists s',
       replies_of (map (fun buf => CWrite buf C.sizeof_int) bufs
                   ++ repeat (CRead 4 C.sizeof_int) (length bufs)) s
       = Some (repeat (Reply C.sizeof_int []) (length bufs)
               ++ map (fun buf => Reply C.sizeof_int (take 4 buf)) (rev bufs), s') /\
       top s' = top s /\ size s' = size s /\ elements s' = elements s).
Proof.
  intros Hok. split; [|split].
  - intros Hz w. apply stack_read_empty, Hz.
  - intros Hnz.
    destruct (stack_read_pop 0 s Hok Hnz) as (block & v & Hd & Hv & _).
    assert (Hpos : 0 < top s) by (destruct Hok; lia).
    exists (elements {| data := Some block; top := top s - 1; size := size s |}), v.
    split.
    + rewrite (elements_eta s block Hd). apply elements_pop; assumption.
    + intros w.
      destruct (stack_read_pop w s Hok Hnz) as (block' & v' & Hd' & Hv' & Hr).
      rewrite Hd in Hd'. injection Hd' as <-.
      rewrite Hv in Hv'. injection Hv' as <-.
      do 2 eexists. split; [exact Hr|]. cbn [top size data].
      repeat split; try (symmetry; exact Hd).
      intros Hw. destruct (Nat.ltb_spec w 4); [lia | reflexivity].
  - intros bufs Hbufs Hroom.
    destruct (pushes_then_pops bufs s Hok Hbufs Hroom) as (s' & Hrun & _ & Ht & Hs & He).
    exists s'. auto.
Qed.

Lemma pop_is_lifo_witness :
  stack_ok {| data := Some [7; 8; 9]; top := 2; size := 3 |} /\
  exists es v,
    elements {| data := Some [7; 8; 9]; top := 2; size := 3 |} = es ++ [v] /\
    forall w, exists r s',
      stack_read w C.sizeof_int {| data := Some [7; 8; 9]; top := 2; size := 3 |}
        = Some (r, s') /\
      ((4 <= w)%nat -> r = Reply C.sizeof_int (C.int_bytes v)) /\
      top s' = 2 - 1 /\ size s' = 3 /\ data s' = Some [7; 8; 9] /\
      elements s' = es.
Proof.
  assert (Hok : stack_ok {| data := Some [7; 8; 9]; top := 2; size := 3 |})
    by (unfold stack_ok, C.INT_MAX; cbn; lia).
  split; [exact Hok|].
  apply (proj1 (proj2 (pop_is_lifo _ Hok))). cbn. lia.
Defined.

(** C3: a write (push) of four readable bytes on a stack with
    [top = size] (in particular on the never-sized stack, [size = 0]) fails
    with [-ERANGE] and changes nothing; with [top < size] it returns 4,
    stores the value in the cell of index [top], appends it to the elements
    and increments [top] by one, [size] unchanged. *)
Theorem push_full_or_append (buf : list byte) (s : stack) :
  stack_ok s -> (4 <= length buf)%nat ->
  (top s = size s -> stack_write buf C.sizeof_int s = Some (- Errno.ERANGE, s)) /\
  stack_write buf C.sizeof_int stack0 = Some (- Errno.ERANGE, stack0) /\
  (top s < size s ->
   exists s' block',
     stack_write buf C.sizeof_int s = Some (C.sizeof_int, s') /\
     data s' = Some block' /\
     cell block' (top s) = Some (C.int_of_bytes buf) /\
     elements s' = elements s ++ [C.int_of_bytes buf] /\
     top s' = top s + 1 /\ size s' = size s).
Proof.
  intros Hok Hbuf. split; [|split].
  - intros Hfull. apply stack_write_full; [exact Hbuf | lia].
  - apply stack_write_full; [exact Hbuf | reflexivity].
  - intros Hroom.
    destruct (stack_write_push buf s Hok Hbuf Hroom) as (block & Hd & Hw).
    destruct Hok as (Ht & Hm & Hlen). rewrite Hd in Hlen.
    do 2 eexists. split; [exact Hw|]. cbn [data top size].
    split; [reflexivity|]. split.
    + unfold cell. destruct (Z.leb_spec 0 (top s)); [|lia].
      apply list_lookup_insert_eq. lia.
    + split; [|split; reflexivity].
      rewrite (elements_eta s block Hd). apply elements_push. lia.
Qed.

Lemma push_full_or_append_witness :
  stack_write (C.int_bytes 5) C.sizeof_int {| data := Some [7; 8]; top := 2; size := 2 |}
  = Some (- Errno.ERANGE, {| data := Some [7; 8]; top := 2; size := 2 |}).
Proof.
  assert (Hok : stack_ok {| data := Some [7; 8]; top := 2; size := 2 |})
    by (unfold stack_ok, C.INT_MAX; cbn; lia).
  assert (Hbuf : (4 <= length (C.int_bytes 5))%nat) by (vm_compute; lia).
  exact (proj1 (push_full_or_append _ _ Hok Hbuf) eq_refl).
Defined.

(** C4: an ioctl "set size" whose argument is [n > 0] and whose allocation
    succeeds returns 0, sets [size] to [n], sets [top] to [min top n], and
    keeps as elements exactly the first (bottom) [min top n] of the old
    ones, in their order.  The capacity is [n] in earnest: the stack points
    to a new block of exactly [n] cells (the kept cells, then what the
    allocator left in the others), it is well formed, and of any batch of
    pushes that follows exactly the first [n - min top n] return 4 and the
    others [-ERANGE]. *)
Theorem resize_keeps_bottom (n : Z) (arg : list byte) (junk : nat -> Z) (s : stack) :
  stack_ok s -> (4 <= length arg)%nat -> C.int_of_bytes arg = n -> 0 < n ->
  exists s',
    stack_ioctl IOCTL_SET_SIZE arg (KBlock junk) s = Some (0, s') /\
    size s' = n /\
    top s' = Z.min (top s) n /\
    elements s' = take (Z.to_nat (Z.min (top s) n)) (elements s) /\
    length (elements s') = Nat.min (length (elements s)) (Z.to_nat n) /\
    stack_ok s' /\
    (exists block',
       data s' = Some block' /\ Z.of_nat (length block') = n /\
       block' = take (Z.to_nat (Z.min (top s) n)) (default [] (data s))
                ++ drop (Z.to_nat (Z.min (top s) n)) (map junk (seq 0 (Z.to_nat n)))) /\
    (forall bufs,
       Forall (fun buf => (4 <= length buf)%nat) bufs ->
       exists s'',
         replies_of (map (fun buf => CWrite buf C.sizeof_int) bufs) s'
         = Some (repeat (Reply C.sizeof_int [])
                        (Nat.min (length bufs) (Z.to_nat (n - Z.min (top s) n)))
                 ++ repeat (Reply (- Errno.ERANGE) [])
                           (length bufs - Z.to_nat (n - Z.min (top s) n)), s'') /\
         size s'' = n /\
         elements s''
         = elements s' ++ map C.int_of_bytes (take (Z.to_nat (n - Z.min (top s) n)) bufs)).
Proof.
  intros Hok Harg <- Hpos.
  destruct (stack_ioctl_ok IOCTL_SET_SIZE arg (KBlock junk) s Hok) as (r & s' & Hi & Hok').
  rewrite stack_ioctl_resize in Hi by assumption. injection Hi as <- <-.
  rewrite stack_ioctl_resize by assumption.
  eexists. split; [reflexivity|]. cbn [data top size].
  split; [reflexivity|]. split; [reflexivity|].
  pose proof (elements_length s Hok) as Hlen.
  assert (Hel : elements
            {| data := Some (take (Z.to_nat (Z.min (top s) (C.int_of_bytes arg)))
                                  (default [] (data s)) ++
                             drop (Z.to_nat (Z.min (top s) (C.int_of_bytes arg)))
                                  (map junk (seq 0 (Z.to_nat (C.int_of_bytes arg)))));
               top := Z.min (top s) (C.int_of_bytes arg);
               size := C.int_of_bytes arg |}
          = take (Z.to_nat (Z.min (top s) (C.int_of_bytes arg))) (elements s)).
  { unfold elements at 1. cbn [data top from_option id].
    unfold elements in Hlen |- *. rewrite length_take in Hlen.
    rewrite take_app_le by (rewrite length_take; lia).
    rewrite !take_take. f_equal. lia. }
  split; [exact Hel|].
  split; [rewrite Hel, length_take; lia|].
  split; [exact Hok'|].
  split.
  { eexists. split; [reflexivity|]. split; [|reflexivity].
    destruct Hok' as (_ & _ & Hb). cbn [data size] in Hb. exact Hb. }
  intros bufs Hbufs.
  destruct (pushes_fill bufs _ Hok' Hbufs) as (s'' & Hrun & _ & Hs & _ & He).
  cbn [top size] in Hrun, Hs, He.
  exists s''. split; [exact Hrun|]. split; [exact Hs | exact He].
Qed.

Lemma resize_keeps_bottom_witness :
  exists s',
    stack_ioctl IOCTL_SET_SIZE (C.int_bytes 2) (KBlock (fun _ => 0))
                {| data := Some [7; 8; 9]; top := 3; size := 3 |} = Some (0, s') /\
    size s' = 2 /\
    top s' = Z.min 3 2 /\
    elements s' = take (Z.to_nat (Z.min 3 2)) [7; 8; 9] /\
    length (elements s') = Nat.min 3 (Z.to_nat 2) /\
    stack_ok s' /\
    exists block', data s' = Some block' /\ Z.of_nat (length block') = 2.
Proof.
  assert (Hok : stack_ok {| data := Some [7; 8; 9]; top := 3; size := 3 |})
    by (unfold stack_ok, C.INT_MAX; cbn; lia).
  assert (Harg : (4 <= length (C.int_bytes 2))%nat) by (vm_compute; lia).
  destruct (resize_keeps_bottom 2 (C.int_bytes 2) (fun _ => 0) _ Hok Harg eq_refl eq_refl)
    as (s' & H1 & H2 & H3 & H4 & H5 & H6 & (block' & Hd & Hl & _) & _).
  exists s'. split; [exact H1|]. split; [exact H2|]. split; [exact H3|].
  split; [exact H4|]. split; [exact H5|]. split; [exact H6|].
  exists block'. split; [exact Hd | exact Hl].
Defined.

(** Whatever [stack_ioctl] returns other than 0, it returns with the stack
    it was given. *)
Lemma stack_ioctl_failure cmd arg k s r s' :
  stack_ioctl cmd arg k s = Some (r, s') -> r <> 0 -> s' = s.
Proof.
  unfold stack_ioctl.
  destruct (negb (cmd =? IOCTL_SET_SIZE)); [intros [= <- <-]; reflexivity|].
  destruct (copy_from_user arg C.sizeof_int) as [missed bytes].
  destruct (negb (missed =? 0)); [intros [= <- <-]; reflexivity|].
  destruct (C.int_of_bytes bytes <=? 0); [intros [= <- <-]; reflexivity|].
  destruct (kmalloc k _) as [new_data|]; [|intros [= <- <-]; reflexivity].
  destruct (match data s with Some _ => _ | None => _ end) as [new_data'|];
    cbn [mbind option_bind]; [|discriminate].
  intros [= <- <-] Hr. contradiction.
Qed.

(** C5: an ioctl "set size" whose argument is [n <= 0] fails with [-EINVAL]
    whatever the allocator would answer, one whose allocation fails fails
    with [-ENOMEM], and both return with the stack exactly as it was; more
    generally every ioctl that returns an error leaves the stack exactly as
    it was. *)
Theorem failed_resize_changes_nothing (arg : list byte) (s : stack) :
  (4 <= length arg)%nat ->
  (C.int_of_bytes arg <= 0 ->
   forall k, stack_ioctl IOCTL_SET_SIZE arg k s = Some (- Errno.EINVAL, s)) /\
  (0 < C.int_of_bytes arg ->
   stack_ioctl IOCTL_SET_SIZE arg KNull s = Some (- Errno.ENOMEM, s)) /\
  (forall cmd arg' k r s',
     stack_ioctl cmd arg' k s = Some (r, s') -> r <> 0 -> s' = s).
Proof.
  intros Harg. split; [|split].
  - intros Hn k. apply stack_ioctl_nonpositive; assumption.
  - intros Hn. apply stack_ioctl_nomem; assumption.
  - intros cmd arg' k r s'. apply stack_ioctl_failure.
Qed.

Lemma failed_resize_changes_nothing_witness :
  (forall k, stack_ioctl IOCTL_SET_SIZE (C.int_bytes (-1)) k
                         {| data := Some [7; 8]; top := 1; size := 2 |}
             = Some (- Errno.EINVAL, {| data := Some [7; 8]; top := 1; size := 2 |})) /\
  stack_ioctl IOCTL_SET_SIZE (C.int_bytes 0) KNull stack0 = Some (- Errno.EINVAL, stack0) /\
  stack_ioctl IOCTL_SET_SIZE (C.int_bytes 3) KNull
              {| data := Some [7; 8]; top := 1; size := 2 |}
  = Some (- Errno.ENOMEM, {| data := Some [7; 8]; top := 1; size := 2 |}).
Proof.
  assert (Hm : (4 <= length (C.int_bytes (-1)))%nat) by (vm_compute; lia).
  assert (Hz : (4 <= length (C.int_bytes 0))%nat) by (vm_compute; lia).
  assert (Hp : (4 <= length (C.int_bytes 3))%nat) by (vm_compute; lia).
  split; [|split].
  - apply (proj1 (failed_resize_changes_nothing _ _ Hm)). vm_compute. discriminate.
  - apply (proj1 (failed_resize_changes_nothing _ _ Hz)). vm_compute. discriminate.
  - apply (proj1 (proj2 (failed_resize_changes_nothing _ _ Hp))). vm_compute. reflexivity.
Defined.

(** C6: on a stack with [top < size], a write (push) of the four bytes of
    [v] followed at once by a read (pop) into a buffer that takes four bytes
    returns those four bytes, that is [v], and leaves [size], [top] and the
    elements as they were before the write. *)
Theorem push_then_pop (buf : list byte) (w : nat) (s : stack) :
  stack_ok s -> top s < size s -> (4 <= length buf)%nat -> (4 <= w)%nat ->
  exists s1 r s2,
    stack_write buf C.sizeof_int s = Some (C.sizeof_int, s1) /\
    stack_read w C.sizeof_int s1 = Some (r, s2) /\
    ret r = C.sizeof_int /\
    to_user r = take 4 buf /\
    C.int_of_bytes (to_user r) = C.int_of_bytes buf /\
    size s2 = size s /\ top s2 = top s /\ elements s2 = elements s.
Proof.
  intros Hok Hroom Hbuf Hw.
  destruct (stack_write_push buf s Hok Hbuf Hroom) as (block & Hd & Hwr).
  destruct (stack_write_ok buf C.sizeof_int s Hok) as (r1 & s1 & Hwr' & Hok1).
  rewrite Hwr in Hwr'. injection Hwr' as <- <-.
  assert (Hnz : top {| data := Some (<[Z.to_nat (top s) := C.int_of_bytes buf]> block);
                       top := top s + 1; size := size s |} <> 0)
    by (cbn [top]; destruct Hok; lia).
  destruct (stack_read_pop w _ Hok1 Hnz) as (block1 & v & Hd1 & Hv & Hrd).
  cbn [data top size] in Hd1, Hv, Hrd. injection Hd1 as <-.
  destruct Hok as (Ht & Hm & Hlen). rewrite Hd in Hlen.
  replace (top s + 1 - 1) with (top s) in Hv, Hrd by lia.
  rewrite list_lookup_insert_eq in Hv by lia. injection Hv as <-.
  destruct (Nat.ltb_spec w 4); [lia|].
  do 3 eexists. split; [exact Hwr|]. split; [exact Hrd|].
  cbn [ret to_user data top size].
  split; [reflexivity|].
  rewrite int_bytes_int_of_bytes by exact Hbuf.
  split; [reflexivity|]. split.
  { unfold C.int_of_bytes. rewrite take_take, Nat.min_id. reflexivity. }
  split; [reflexivity|]. split; [reflexivity|].
  rewrite (elements_eta s block Hd). unfold elements. cbn [data top from_option id].
  apply take_insert_ge. lia.
Qed.

Lemma push_then_pop_witness :
  exists s1 r s2,
    stack_write (C.int_bytes 5) C.sizeof_int {| data := Some [7; 8]; top := 1; size := 2 |}
      = Some (C.sizeof_int, s1) /\
    stack_read 4 C.sizeof_int s1 = Some (r, s2) /\
    ret r = C.sizeof_int /\
    to_user r = take 4 (C.int_bytes 5) /\
    C.int_of_bytes (to_user r) = C.int_of_bytes (C.int_bytes 5) /\
    size s2 = 2 /\ top s2 = 1 /\
    elements s2 = elements {| data := Some [7; 8]; top := 1; size := 2 |}.
Proof.
  assert (Hok : stack_ok {| data := Some [7; 8]; top := 1; size := 2 |})
    by (unfold stack_ok, C.INT_MAX; cbn; lia).
  assert (Hbuf : (4 <= length (C.int_bytes 5))%nat) by (vm_compute; lia).
  apply (push_then_pop _ 4 _ Hok); [cbn; lia | exact Hbuf | lia].
Defined.

(** C7: whatever the kernel answers to the registrations, removing the key
    and inserting it again leaves the stack object exactly as it was (same
    block, same [top], same [size]); and neither callback looks at the stack:
    run around any other stack object, each makes the same calls, returns the
    same value and leaves that other object in place. *)
Theorem detach_attach_keeps_stack (k : probe_answers) (m : module_state) :
  the_stack (snd (usb_key_disconnect m)) = the_stack m /\
  the_stack (snd (usb_key_probe k m)) = the_stack m /\
  the_stack (snd (usb_key_probe k (snd (usb_key_disconnect m)))) = the_stack m /\
  (forall s,
     usb_key_disconnect (with_stack m s)
     = (fst (usb_key_disconnect m), with_stack (snd (usb_key_disconnect m)) s)) /\
  (forall s,
     usb_key_probe k (with_stack m s)
     = (fst (usb_key_probe k m), with_stack (snd (usb_key_probe k m)) s)).
Proof.
  assert (Hp : forall m0, the_stack (snd (usb_key_probe k m0)) = the_stack m0).
  { intros m0. unfold usb_key_probe. cbn [major_number stack_class stack_device the_stack].
    destruct (register_chrdev_ret k <? 0); [reflexivity|].
    destruct (IS_ERR (class_create_ret k)); [reflexivity|].
    destruct (IS_ERR (device_create_ret k)); reflexivity. }
  split; [reflexivity|]. split; [apply Hp|]. split; [apply Hp|].
  split; [reflexivity|].
  intros s. unfold usb_key_probe, with_stack.
  cbn [major_number stack_class stack_device the_stack].
  destruct (register_chrdev_ret k <? 0); [reflexivity|].
  destruct (IS_ERR (class_create_ret k)); [reflexivity|].
  destruct (IS_ERR (device_create_ret k)); reflexivity.
Qed.

(** C8: a read or a write whose byte count is not 4 fails with [-EINVAL],
    and an ioctl whose command is not [IOCTL_SET_SIZE] fails with [-ENOTTY];
    all three return with the stack exactly as it was (and a read stores
    nothing in the caller's buffer). *)
Theorem wrong_count_or_command (count cmd : Z) (s : stack) :
  (count <> 4 ->
   (forall w, stack_read w count s = Some (Reply (- Errno.EINVAL) [], s)) /\
   (forall buf, stack_write buf count s = Some (- Errno.EINVAL, s))) /\
  (cmd <> IOCTL_SET_SIZE ->
   forall arg k, stack_ioctl cmd arg k s = Some (- Errno.ENOTTY, s)).
Proof.
  split.
  - intros Hc. split.
    + intros w. apply stack_read_count, Hc.
    + intros buf. apply stack_write_count, Hc.
  - intros Hc arg k. apply stack_ioctl_cmd, Hc.
Qed.

Lemma wrong_count_or_command_witness :
  stack_read 8 8 {| data := Some [7; 8]; top := 1; size := 2 |}
  = Some (Reply (- Errno.EINVAL) [], {| data := Some [7; 8]; top := 1; size := 2 |}) /\
  stack_write (C.int_bytes 5) 3 {| data := Some [7; 8]; top := 1; size := 2 |}
  = Some (- Errno.EINVAL, {| data := Some [7; 8]; top := 1; size := 2 |}) /\
  stack_ioctl 0 (C.int_bytes 5) KNull {| data := Some [7; 8]; top := 1; size := 2 |}
  = Some (- Errno.ENOTTY, {| data := Some [7; 8]; top := 1; size := 2 |}).
Proof.
  assert (H8 : 8 <> 4) by lia.
  assert (H3 : 3 <> 4) by lia.
  assert (H0 : 0 <> IOCTL_SET_SIZE) by (vm_compute; discriminate).
  split; [|split].
  - apply (proj1 (proj1 (wrong_count_or_command 8 0 _) H8)).
  - apply (proj2 (proj1 (wrong_count_or_command 3 0 _) H3)).
  - apply (proj2 (wrong_count_or_command 4 0 _) H0).
Defined.

(** C10: a read (pop) of a non-empty stack into a buffer that cannot take
    the four bytes returns [-EFAULT], and yet the stack has lost its top
    element: with elements [es ++ [v]] before the call, [top] is one less
    after it and the elements are [es]; at most the first bytes of [v]
    reached the caller. *)
Theorem failed_read_still_pops (w : nat) (s : stack) :
  stack_ok s -> top s <> 0 -> (w < 4)%nat ->
  exists es v s',
    elements s = es ++ [v] /\
    stack_read w C.sizeof_int s
      = Some (Reply (- Errno.EFAULT) (take w (C.int_bytes v)), s') /\
    top s' = top s - 1 /\ size s' = size s /\
    elements s' = es /\ s' <> s.
Proof.
  intros Hok Hnz Hw.
  destruct (stack_read_pop w s Hok Hnz) as (block & v & Hd & Hv & Hr).
  destruct (Nat.ltb_spec w 4); [|lia].
  assert (Hpos : 0 < top s) by (destruct Hok; lia).
  do 3 eexists. split; [|split; [exact Hr|]].
  - rewrite (elements_eta s block Hd). apply elements_pop; eassumption.
  - cbn [data top size]. repeat split.
    intros Heq. apply (f_equal top) in Heq. cbn [top] in Heq. lia.
Qed.

Lemma failed_read_still_pops_witness :
  exists es v s',
    elements {| data := Some [7; 8; 9]; top := 2; size := 3 |} = es ++ [v] /\
    stack_read 0 C.sizeof_int {| data := Some [7; 8; 9]; top := 2; size := 3 |}
      = Some (Reply (- Errno.EFAULT) (take 0 (C.int_bytes v)), s') /\
    top s' = 2 - 1 /\ size s' = 3 /\
    elements s' = es /\ s' <> {| data := Some [7; 8; 9]; top := 2; size := 3 |}.
Proof.
  assert (Hok : stack_ok {| data := Some [7; 8; 9]; top := 2; size := 3 |})
    by (unfold stack_ok, C.INT_MAX; cbn; lia).
  apply (failed_read_still_pops 0 _ Hok); [cbn; lia | lia].
Defined.

(** ** Concurrent callers: the shape of the steps *)

Lemma enter_phase c : phase_of (enter c) = Waiting \/ exists r, enter c = Done r.
Proof.
  destruct c as [w count|buf count|cmd arg k]; cbn [enter].
  - destruct (negb (count =? C.sizeof_int)); [right; eauto | left; reflexivity].
  - destruct (negb (count =? C.sizeof_int)); [right; eauto|].
    destruct (copy_from_user buf C.sizeof_int) as [missed bytes].
    destruct (negb (missed =? 0)); [right; eauto | left; reflexivity].
  - destruct (negb (cmd =? IOCTL_SET_SIZE)); [right; eauto|].
    destruct (copy_from_user arg C.sizeof_int) as [missed bytes].
    destruct (negb (missed =? 0)); [right; eauto|].
    destruct (C.int_of_bytes bytes <=? 0); [right; eauto | left; reflexivity].
Qed.

Lemma tstep_before i l sh l' sh' :
  phase_of l = Before -> tstep i l sh = Some (l', sh') ->
  exists c, l = Entry c /\ l' = enter c /\ sh' = sh.
Proof.
  destruct l; try discriminate. intros _ [= <- <-]. eauto.
Qed.

Lemma tstep_waiting i l sh l' sh' :
  phase_of l = Waiting -> tstep i l sh = Some (l', sh') ->
  lock sh = None /\ sh' = set_lock sh (Some i) /\ phase_of l' = Inside.
Proof.
  destruct l; try discriminate; intros _; cbn [tstep]; unfold mutex_lock;
    destruct (lock sh); try discriminate; intros [= <- <-]; auto.
Qed.

Lemma tstep_inside i l sh l' sh' :
  phase_of l = Inside -> tstep i l sh = Some (l', sh') ->
  (phase_of l' = Inside /\ lock sh' = lock sh) \/
  (phase_of l' = After /\ lock sh' = None).
Proof.
  destruct l; try discriminate; intros _; cbn [tstep]; unfold mutex_unlock.
  - intros [= <- <-]. left. destruct (top (stk sh) >=? size (stk sh)); auto.
  - destruct (data (stk sh)) as [block|]; cbn [mbind option_bind]; [|discriminate].
    destruct (set_cell block (top (stk sh)) value); cbn [mbind option_bind]; [|discriminate].
    intros [= <- <-]. auto.
  - intros [= <- <-]. auto.
  - intros [= <- <-]. auto.
  - intros [= <- <-]. left. destruct (top (stk sh) =? 0); auto.
  - intros [= <- <-]. auto.
  - intros [= <- <-]. auto.
  - destruct (data (stk sh)) as [block|]; cbn [mbind option_bind]; [|discriminate].
    destruct (cell block (top (stk sh))); cbn [mbind option_bind]; [|discriminate].
    intros [= <- <-]. auto.
  - intros [= <- <-]. auto.
  - destruct (kmalloc k _); intros [= <- <-]; auto.
  - destruct (data (stk sh)) as [old|]; [|intros [= <- <-]; auto].
    destruct (memcpy new_data old _); cbn [mbind option_bind]; [|discriminate].
    intros [= <- <-]. auto.
  - intros [= <- <-]. auto.
  - intros [= <- <-]. auto.
  - intros [= <- <-]. auto.
  - intros [= <- <-]. auto.
Qed.

Lemma tstep_after i l sh l' sh' :
  phase_of l = After -> tstep i l sh = Some (l', sh') ->
  sh' = sh /\ phase_of l' = After /\ final_reply l' = final_reply l.
Proof.
  destruct l; try discriminate; intros _; cbn [tstep final_reply].
  destruct (copy_to_user buf (C.int_bytes value)) as [missed sent].
  intros [= <- <-]. auto.
Qed.

(** Every step uses up some of the steps left. *)
Lemma tstep_steps_left i l sh l' sh' :
  tstep i l sh = Some (l', sh') -> (steps_left l' < steps_left l)%nat.
Proof.
  destruct l; cbn [tstep]; unfold mutex_lock, mutex_unlock.
  - intros [= <- <-]. destruct c as [w count|buf count|cmd arg k]; cbn [enter].
    + destruct (negb _); cbn; lia.
    + destruct (negb _); [cbn; lia|].
      destruct (copy_from_user buf C.sizeof_int) as [missed bytes].
      destruct (negb _); cbn; lia.
    + destruct (negb _); [cbn; lia|].
      destruct (copy_from_user arg C.sizeof_int) as [missed bytes].
      destruct (negb _); [cbn; lia|].
      destruct (_ <=? 0); cbn; lia.
  - destruct (lock sh); [discriminate|]. intros [= <- <-]. cbn; lia.
  - intros [= <- <-]. destruct (_ >=? _); cbn; lia.
  - destruct (data (stk sh)) as [block|]; cbn [mbind option_bind]; [|discriminate].
    destruct (set_cell _ _ _); cbn [mbind option_bind]; [|discriminate].
    intros [= <- <-]. cbn; lia.
  - intros [= <- <-]. cbn; lia.
  - intros [= <- <-]. cbn; lia.
  - destruct (lock sh); [discriminate|]. intros [= <- <-]. cbn; lia.
  - intros [= <- <-]. destruct (_ =? 0); cbn; lia.
  - intros [= <- <-]. cbn; lia.
  - intros [= <- <-]. cbn; lia.
  - destruct (data (stk sh)) as [block|]; cbn [mbind option_bind]; [|discriminate].
    destruct (cell _ _); cbn [mbind option_bind]; [|discriminate].
    intros [= <- <-]. cbn; lia.
  - intros [= <- <-]. cbn; lia.
  - destruct (copy_to_user _ _) as [missed sent]. intros [= <- <-]. cbn; lia.
  - destruct (lock sh); [discriminate|]. intros [= <- <-]. cbn; lia.
  - destruct (kmalloc k _); intros [= <- <-]; cbn; lia.
  - destruct (data (stk sh)) as [old|]; [|intros [= <- <-]; cbn; lia].
    destruct (memcpy _ _ _); cbn [mbind option_bind]; [|discriminate].
    intros [= <- <-]. cbn; lia.
  - intros [= <- <-]. cbn; lia.
  - intros [= <- <-]. cbn; lia.
  - intros [= <- <-]. cbn; lia.
  - intros [= <- <-]. cbn; lia.
  - discriminate.
Qed.

(** ** Concurrent callers: a handler run alone is the handler of the first part *)

(** A call that returns before [mutex_lock] returns the same when served
    in one piece, and leaves the shared object alone. *)
Lemma enter_done i c r sh :
  enter c = Done r -> atomic i c sh = Some (r, sh).
Proof.
  intros He.
  assert (Hh : handle c (stk sh) = Some (r, stk sh) /\ stores i c (stk sh) = []).
  { destruct c as [w count|buf count|cmd arg k]; cbn [enter handle stores] in *.
    - unfold stack_read. destruct (negb (count =? C.sizeof_int)); [|discriminate].
      injection He as <-. auto.
    - unfold stack_write. destruct (negb (count =? C.sizeof_int)).
      { injection He as <-. auto. }
      destruct (copy_from_user buf C.sizeof_int) as [missed bytes].
      destruct (negb (missed =? 0)); [|discriminate].
      injection He as <-. auto.
    - unfold stack_ioctl. destruct (negb (cmd =? IOCTL_SET_SIZE)).
      { injection He as <-. auto. }
      destruct (copy_from_user arg C.sizeof_int) as [missed bytes].
      destruct (negb (missed =? 0)).
      { injection He as <-. auto. }
      destruct (C.int_of_bytes bytes <=? 0); [|discriminate].
      injection He as <-. auto. }
  destruct Hh as [Hh Hs]. unfold atomic. rewrite Hh, Hs. cbn [mbind option_bind].
  rewrite app_nil_r. destruct sh; reflexivity.
Qed.

Lemma enter_read w count :
  phase_of (enter (CRead w count)) = Waiting ->
  count = C.sizeof_int /\ enter (CRead w count) = RLock w.
Proof.
  cbn [enter]. destruct (Z.eqb_spec count C.sizeof_int); cbn [negb]; [auto | discriminate].
Qed.

Lemma enter_write buf count :
  phase_of (enter (CWrite buf count)) = Waiting ->
  count = C.sizeof_int /\ (4 <= length buf)%nat /\
  enter (CWrite buf count) = WLock (C.int_of_bytes buf).
Proof.
  cbn [enter]. destruct (Z.eqb_spec count C.sizeof_int); cbn [negb]; [|discriminate].
  destruct (Nat.lt_ge_cases (length buf) 4) as [Hb|Hb].
  - pose proof (copy_from_user_fault buf Hb) as Hf.
    destruct (copy_from_user buf C.sizeof_int) as [missed bytes]. cbn [fst] in Hf.
    destruct (Z.eqb_spec missed 0); [contradiction | discriminate].
  - rewrite copy_from_user_ok by exact Hb. rewrite Z.eqb_refl. cbn [negb].
    intros _. repeat split; try assumption.
    unfold C.int_of_bytes. rewrite take_take, Nat.min_id. reflexivity.
Qed.

Lemma enter_ioctl cmd arg k :
  phase_of (enter (CIoctl cmd arg k)) = Waiting ->
  cmd = IOCTL_SET_SIZE /\ (4 <= length arg)%nat /\ 0 < C.int_of_bytes arg /\
  enter (CIoctl cmd arg k) = ILock (C.int_of_bytes arg) k.
Proof.
  cbn [enter]. destruct (Z.eqb_spec cmd IOCTL_SET_SIZE); cbn [negb]; [|discriminate].
  destruct (Nat.lt_ge_cases (length arg) 4) as [Hb|Hb].
  - pose proof (copy_from_user_fault arg Hb) as Hf.
    destruct (copy_from_user arg C.sizeof_int) as [missed bytes]. cbn [fst] in Hf.
    destruct (Z.eqb_spec missed 0); [contradiction | discriminate].
  - rewrite copy_from_user_ok by exact Hb. rewrite Z.eqb_refl. cbn [negb].
    assert (Heq : C.int_of_bytes (take 4 arg) = C.int_of_bytes arg).
    { unfold C.int_of_bytes. rewrite take_take, Nat.min_id. reflexivity. }
    rewrite Heq.
    destruct (Z.leb_spec (C.int_of_bytes arg) 0); [discriminate|].
    intros _. auto.
Qed.

(** The reply of a pop, as the last step of [stack_read] builds it. *)
Lemma stack_read_pop_reply w s :
  stack_ok s -> top s <> 0 ->
  exists block v r,
    data s = Some block /\ block !! Z.to_nat (top s - 1) = Some v /\
    final_reply (RCopy w v) = Some r /\
    stack_read w C.sizeof_int s
    = Some (r, {| data := Some block; top := top s - 1; size := size s |}).
Proof.
  intros Hok Hnz.
  destruct (stack_read_pop w s Hok Hnz) as (block & v & Hd & Hv & Hr).
  exists block, v. eexists. split; [exact Hd|]. split; [exact Hv|].
  split; [|exact Hr]. cbn [final_reply].
  destruct (Nat.ltb_spec w 4) as [Hw|Hw].
  - pose proof (copy_to_user_fault w v Hw) as Hf.
    unfold copy_to_user in *. cbn [fst] in Hf.
    destruct (Z.eqb_spec (Z.of_nat (length (C.int_bytes v))
                          - Z.of_nat (length (take w (C.int_bytes v)))) 0); [lia|].
    reflexivity.
  - rewrite copy_to_user_ok by exact Hw. reflexivity.
Qed.

Lemma atomic_ok i c base r sh' :
  stack_ok (stk base) -> atomic i c base = Some (r, sh') ->
  stack_ok (stk sh') /\ lock sh' = lock base.
Proof.
  intros Hok. unfold atomic.
  destruct (handle_ok c (stk base) Hok) as (r0 & s' & -> & Hok').
  cbn [mbind option_bind]. intros [= <- <-]. auto.
Qed.

Ltac run_finish :=
  cbn [finish phase_of tstep set_lock set_stk stk lock log mutex_unlock
       mbind option_bind data top size].

(** After [mutex_lock], a push run alone does what [stack_write] does. *)
Lemma acquire_write i buf count base :
  phase_of (enter (CWrite buf count)) = Waiting ->
  stack_ok (stk base) -> lock base = None ->
  exists l1 fuel l' sh' r,
    tstep i (enter (CWrite buf count)) base = Some (l1, set_lock base (Some i)) /\
    finish fuel i l1 (set_lock base (Some i)) = Some (l', sh') /\
    phase_of l' = After /\ final_reply l' = Some r /\
    atomic i (CWrite buf count) base = Some (r, sh').
Proof.
  intros Hw Hok Hfree.
  destruct (enter_write buf count Hw) as (-> & Hb & ->).
  cbn [tstep]. unfold mutex_lock. rewrite Hfree.
  exists (WCheck (C.int_of_bytes buf)), 4%nat.
  unfold atomic. cbn [handle stores].
  destruct (Z.lt_ge_cases (top (stk base)) (size (stk base))) as [Hroom|Hfull].
  - destruct (stack_write_push buf _ Hok Hb Hroom) as (block & Hd & ->).
    destruct Hok as (Ht & Hm & Hlen). rewrite Hd in Hlen.
    run_finish.
    destruct (Z.geb_spec (top (stk base)) (size (stk base))); [lia|].
    run_finish. rewrite Hd. run_finish. unfold set_cell.
    destruct (Z.leb_spec 0 (top (stk base))); [|lia].
    destruct (Z.ltb_spec (top (stk base)) (Z.of_nat (length block))); [|lia].
    cbn [andb]. run_finish.
    rewrite int_wrap_id by (unfold C.int_range, C.INT_MIN, C.INT_MAX in *; lia).
    rewrite Z.eqb_refl, Hfree.
    do 3 eexists. split; [reflexivity|]. split; [reflexivity|].
    split; [reflexivity|]. split; reflexivity.
  - rewrite stack_write_full by (assumption || lia).
    run_finish.
    destruct (Z.geb_spec (top (stk base)) (size (stk base))); [|lia].
    run_finish. cbn [mbind option_bind].
    assert (Hne : (- Errno.ERANGE =? C.sizeof_int) = false) by reflexivity.
    rewrite Hne, app_nil_r, Hfree.
    do 3 eexists. split; [reflexivity|]. split; [reflexivity|].
    split; [reflexivity|]. split; reflexivity.
Qed.

(** After [mutex_lock], a pop run alone does what [stack_read] does. *)
Lemma acquire_read i w count base :
  phase_of (enter (CRead w count)) = Waiting ->
  stack_ok (stk base) -> lock base = None ->
  exists l1 fuel l' sh' r,
    tstep i (enter (CRead w count)) base = Some (l1, set_lock base (Some i)) /\
    finish fuel i l1 (set_lock base (Some i)) = Some (l', sh') /\
    phase_of l' = After /\ final_reply l' = Some r /\
    atomic i (CRead w count) base = Some (r, sh').
Proof.
  intros Hw Hok Hfree.
  destruct (enter_read w count Hw) as (-> & ->).
  cbn [tstep]. unfold mutex_lock. rewrite Hfree.
  exists (RCheck w), 4%nat.
  unfold atomic. cbn [handle stores]. rewrite app_nil_r.
  destruct (Z.eq_dec (top (stk base)) 0) as [Hz|Hnz].
  - rewrite stack_read_empty by exact Hz.
    run_finish.
    destruct (Z.eqb_spec (top (stk base)) 0); [|contradiction].
    run_finish. rewrite Hfree.
    do 3 eexists. split; [reflexivity|]. split; [reflexivity|].
    split; [reflexivity|]. split; reflexivity.
  - destruct (stack_read_pop_reply w _ Hok Hnz) as (block & v & r & Hd & Hv & Hr & ->).
    destruct Hok as (Ht & Hm & Hlen). rewrite Hd in Hlen.
    run_finish.
    destruct (Z.eqb_spec (top (stk base)) 0); [contradiction|].
    run_finish.
    rewrite int_wrap_id by (unfold C.int_range, C.INT_MIN, C.INT_MAX in *; lia).
    rewrite Hd. run_finish. unfold cell.
    destruct (Z.leb_spec 0 (top (stk base) - 1)); [|lia].
    rewrite Hv. run_finish. rewrite Hfree.
    do 3 eexists. split; [reflexivity|]. split; [reflexivity|].
    split; [reflexivity|]. split; [exact Hr | reflexivity].
Qed.

(** After [mutex_lock], a resize run alone does what [stack_ioctl] does. *)
Lemma acquire_ioctl i cmd arg k base :
  phase_of (enter (CIoctl cmd arg k)) = Waiting ->
  stack_ok (stk base) -> lock base = None ->
  exists l1 fuel l' sh' r,
    tstep i (enter (CIoctl cmd arg k)) base = Some (l1, set_lock base (Some i)) /\
    finish fuel i l1 (set_lock base (Some i)) = Some (l', sh') /\
    phase_of l' = After /\ final_reply l' = Some r /\
    atomic i (CIoctl cmd arg k) base = Some (r, sh').
Proof.
  intros Hw Hok Hfree.
  destruct (enter_ioctl cmd arg k Hw) as (-> & Hb & Hpos & ->).
  cbn [tstep]. unfold mutex_lock. rewrite Hfree.
  exists (IAlloc (C.int_of_bytes arg) k), 6%nat.
  unfold atomic. cbn [handle stores]. rewrite app_nil_r.
  pose proof (int_of_bytes_range arg) as [_ Hmax].
  destruct k as [|junk].
  - rewrite stack_ioctl_nomem by assumption.
    run_finish. cbn [kmalloc]. run_finish. rewrite Hfree.
    do 3 eexists. split; [reflexivity|]. split; [reflexivity|].
    split; [reflexivity|]. split; reflexivity.
  - rewrite stack_ioctl_resize by assumption.
    run_finish. unfold kmalloc. rewrite size_t_cells by lia.
    run_finish.
    destruct Hok as (Ht & Hm & Hlen).
    assert (Htopn : (if top (stk base) >? C.int_of_bytes arg
                     then C.int_of_bytes arg else top (stk base))
                    = Z.min (top (stk base)) (C.int_of_bytes arg)).
    { destruct (Z.gtb_spec (top (stk base)) (C.int_of_bytes arg)); lia. }
    destruct (data (stk base)) as [old|]; cbn [from_option id].
    + assert (Hcp : (if top (stk base) <? C.int_of_bytes arg
                     then top (stk base) else C.int_of_bytes arg)
                    = Z.min (top (stk base)) (C.int_of_bytes arg)).
      { destruct (Z.ltb_spec (top (stk base)) (C.int_of_bytes arg)); lia. }
      rewrite Hcp. unfold memcpy.
      rewrite size_t_cells by lia. rewrite length_map, length_seq.
      destruct (Z.leb_spec (Z.min (top (stk base)) (C.int_of_bytes arg))
                           (Z.of_nat (length old))); [|lia].
      destruct (Z.leb_spec (Z.min (top (stk base)) (C.int_of_bytes arg))
                           (Z.of_nat (Z.to_nat (C.int_of_bytes arg)))); [|lia].
      cbn [andb]. run_finish. rewrite Htopn, Hfree.
      do 3 eexists. split; [reflexivity|]. split; [reflexivity|].
      split; [reflexivity|]. split; reflexivity.
    + run_finish. rewrite Htopn, Hfree.
      assert (Hk : Z.to_nat (Z.min (top (stk base)) (C.int_of_bytes arg)) = 0%nat) by lia.
      rewrite Hk, take_nil. cbn [app drop].
      do 3 eexists. split; [reflexivity|]. split; [reflexivity|].
      split; [reflexivity|]. split; reflexivity.
Qed.

Lemma acquire_finishes i c base :
  phase_of (enter c) = Waiting -> stack_ok (stk base) -> lock base = None ->
  exists l1 fuel l' sh' r,
    tstep i (enter c) base = Some (l1, set_lock base (Some i)) /\
    finish fuel i l1 (set_lock base (Some i)) = Some (l', sh') /\
    phase_of l' = After /\ final_reply l' = Some r /\
    atomic i c base = Some (r, sh').
Proof.
  destruct c as [w count|buf count|cmd arg k].
  - apply acquire_read.
  - apply acquire_write.
  - apply acquire_ioctl.
Qed.

(** ** Concurrent callers: every interleaving is linearized *)

Lemma serial_snoc cs order : forall sh rs base i c r base',
  serial cs order sh = Some (rs, base) ->
  cs !! i = Some c -> atomic i c base = Some (r, base') ->
  serial cs (order ++ [i]) sh = Some (rs ++ [(i, r)], base').
Proof.
  induction order as [|j order IH]; intros sh rs base i c r base' Hs Hc Ha.
  - injection Hs as <- <-. cbn [app serial]. rewrite Hc. cbn [mbind option_bind].
    rewrite Ha. reflexivity.
  - cbn [app serial] in *.
    destruct (cs !! j) as [cj|]; cbn [mbind option_bind] in *; [|discriminate].
    destruct (atomic j cj sh) as [[rj shj]|]; cbn [mbind option_bind] in *; [|discriminate].
    destruct (serial cs order shj) as [[rs' sh'']|] eqn:Hrest;
      cbn [mbind option_bind] in *; [|discriminate].
    injection Hs as <- <-.
    rewrite (IH _ _ _ _ _ _ _ Hrest Hc Ha). reflexivity.
Qed.

Lemma serial_order cs order : forall sh rs base,
  serial cs order sh = Some (rs, base) ->
  map fst rs = order /\ Forall (fun i => is_Some (cs !! i)) order.
Proof.
  induction order as [|j order IH]; intros sh rs base Hs; cbn [serial] in Hs.
  - injection Hs as <- <-. auto.
  - destruct (cs !! j) as [cj|] eqn:Hj; cbn [mbind option_bind] in *; [|discriminate].
    destruct (atomic j cj sh) as [[rj shj]|]; cbn [mbind option_bind] in *; [|discriminate].
    destruct (serial cs order shj) as [[rs' sh'']|] eqn:Hrest;
      cbn [mbind option_bind] in *; [|discriminate].
    injection Hs as <- <-.
    destruct (IH _ _ _ Hrest) as [Hm Hall]. cbn [map fst]. rewrite Hm.
    split; [reflexivity|]. constructor; [rewrite Hj; eauto | exact Hall].
Qed.

(** What is known of a caller survives the step of another one. *)
Lemma caller_ok_other sh0 sh1 base base' order order' rs rs' j c l :
  caller_ok sh0 base order rs j c l ->
  (j ∉ order -> j ∉ order') ->
  (forall x, x ∈ rs -> x ∈ rs') ->
  (lock sh0 <> Some j -> lock sh1 <> Some j) ->
  (lock sh0 = Some j -> sh1 = sh0 /\ base' = base) ->
  caller_ok sh1 base' order' rs' j c l.
Proof.
  unfold caller_ok. intros Hc Ho Hr Hn He.
  destruct (phase_of l).
  - destruct Hc as (? & ? & ?). auto.
  - destruct Hc as (? & ? & ?). auto.
  - destruct Hc as (Hl & Hno & Hf).
    destruct (He Hl) as [-> ->]. auto.
  - destruct Hc as (r & ? & ?). eauto.
Qed.

Lemma linearized_start cs s0 : stack_ok s0 -> linearized cs s0 (start cs s0).
Proof.
  intros Hok. exists [], [], {| stk := s0; lock := None; log := [] |}.
  cbn [serial start sh threads stk lock].
  split; [reflexivity|]. split; [constructor|]. split; [exact Hok|].
  split; [reflexivity|]. split; [reflexivity|]. split; [discriminate|].
  split; [apply length_map|].
  intros i c l Hc Hl. rewrite list_lookup_fmap, Hc in Hl. injection Hl as <-.
  unfold caller_ok. cbn [phase_of lock].
  split; [reflexivity|]. split; [apply not_elem_of_nil | discriminate].
Qed.

Lemma finish_step fuel i l sh0 l' sh' :
  phase_of l = Inside -> finish fuel i l sh0 = Some (l', sh') ->
  exists fuel' l1 sh1,
    tstep i l sh0 = Some (l1, sh1) /\ finish fuel' i l1 sh1 = Some (l', sh').
Proof.
  intros Hp. destruct fuel as [|fuel']; cbn [finish]; rewrite Hp; [discriminate|].
  destruct (tstep i l sh0) as [[l1 sh1]|]; cbn [mbind option_bind]; [|discriminate].
  intros Hf. eauto.
Qed.

Lemma finish_after fuel i l sh0 l' sh' :
  phase_of l = After -> finish fuel i l sh0 = Some (l', sh') -> l' = l /\ sh' = sh0.
Proof.
  intros Hp. destruct fuel; cbn [finish]; rewrite Hp; intros [= <- <-]; auto.
Qed.

Lemma linearized_step cs s0 i cf cf' :
  linearized cs s0 cf -> sched_step i cf = Some cf' -> linearized cs s0 cf'.
Proof.
  intros (order & rs & base & Hser & Hnd & Hok & Hfree & Hidle & Hheld & Hlen & Hall) Hstep.
  unfold sched_step in Hstep.
  destruct (threads cf !! i) as [l|] eqn:Hl; cbn [mbind option_bind] in Hstep; [|discriminate].
  destruct (tstep i l (sh cf)) as [[l' sh']|] eqn:Ht;
    cbn [mbind option_bind] in Hstep; [|discriminate].
  injection Hstep as <-.
  assert (Hit : (i < length (threads cf))%nat) by (eapply lookup_lt_Some; eauto).
  assert (Hi : (i < length cs)%nat) by (rewrite <- Hlen; exact Hit).
  destruct (lookup_lt_is_Some_2 cs i Hi) as [c Hc].
  pose proof (Hall i c l Hc Hl) as Hme. unfold caller_ok in Hme.
  unfold linearized. cbn [threads sh].
  destruct (phase_of l) eqn:Hp.
  - (* the part before mutex_lock *)
    destruct Hme as (-> & Hno & Hnl).
    cbn [tstep] in Ht. injection Ht as <- <-.
    destruct (enter_phase c) as [Hw | [r Hd]].
    + exists order, rs, base.
      split; [exact Hser|]. split; [exact Hnd|]. split; [exact Hok|].
      split; [exact Hfree|]. split; [exact Hidle|]. split.
      { intros j Hj. destruct (Hheld j Hj) as (lj & Hlj & Hpj).
        exists lj. split; [|exact Hpj].
        rewrite list_lookup_insert_ne; [exact Hlj | congruence]. }
      split; [rewrite length_insert; exact Hlen|].
      intros j cj lj Hcj Hlj. destruct (decide (j = i)) as [->|Hne].
      * rewrite list_lookup_insert_eq in Hlj by exact Hit. injection Hlj as <-.
        rewrite Hc in Hcj. injection Hcj as <-.
        unfold caller_ok. rewrite Hw. auto.
      * rewrite list_lookup_insert_ne in Hlj by congruence.
        eapply caller_ok_other; [apply (Hall j cj lj Hcj Hlj) | auto..].
    + pose proof (enter_done i c r base Hd) as Ha.
      exists (order ++ [i]), (rs ++ [(i, r)]), base.
      split; [eapply serial_snoc; eauto|].
      split.
      { apply NoDup_app. split; [exact Hnd|]. split; [|apply NoDup_singleton].
        intros x Hx Hx'. apply list_elem_of_singleton in Hx'. subst x. contradiction. }
      split; [exact Hok|]. split; [exact Hfree|]. split; [exact Hidle|]. split.
      { intros j Hj. destruct (Hheld j Hj) as (lj & Hlj & Hpj).
        exists lj. split; [|exact Hpj].
        rewrite list_lookup_insert_ne; [exact Hlj | congruence]. }
      split; [rewrite length_insert; exact Hlen|].
      intros j cj lj Hcj Hlj. destruct (decide (j = i)) as [->|Hne].
      * rewrite list_lookup_insert_eq in Hlj by exact Hit. injection Hlj as <-.
        unfold caller_ok. rewrite Hd. cbn [phase_of final_reply].
        exists r. split; [reflexivity|]. apply elem_of_app. right. apply list_elem_of_singleton.
        reflexivity.
      * rewrite list_lookup_insert_ne in Hlj by congruence.
        eapply caller_ok_other; [apply (Hall j cj lj Hcj Hlj) | | | auto | auto].
        -- intros Hj Hj'. apply elem_of_app in Hj' as [Hj'|Hj']; [contradiction|].
           apply list_elem_of_singleton in Hj'. contradiction.
        -- intros x Hx. apply elem_of_app. left. exact Hx.
  - (* mutex_lock *)
    destruct Hme as (-> & Hno & Hnl).
    destruct (enter_phase c) as [Hw | [r Hd]]; [|rewrite Hd in Hp; discriminate].
    destruct (tstep_waiting _ _ _ _ _ Hp Ht) as (Hnone & -> & Hin).
    pose proof (Hidle Hnone) as Hsh.
    destruct (acquire_finishes i c base Hw Hok Hfree)
      as (l1 & fuel & l'' & sh'' & r & Ht' & Hfin & Hafter & Hrep & Hat).
    rewrite Hsh in Ht. rewrite Ht in Ht'. injection Ht' as <-.
    exists order, rs, base.
    split; [exact Hser|]. split; [exact Hnd|]. split; [exact Hok|].
    split; [exact Hfree|]. split; [discriminate|]. split.
    { cbn [set_lock lock]. intros j [= <-]. exists l'. split; [|exact Hin].
      apply list_lookup_insert_eq. exact Hit. }
    split; [rewrite length_insert; exact Hlen|].
    intros j cj lj Hcj Hlj. destruct (decide (j = i)) as [->|Hne].
    * rewrite list_lookup_insert_eq in Hlj by exact Hit. injection Hlj as <-.
      rewrite Hc in Hcj. injection Hcj as <-.
      unfold caller_ok. rewrite Hin. split; [reflexivity|]. split; [exact Hno|].
      exists fuel, l'', sh'', r. rewrite Hsh. auto.
    * rewrite list_lookup_insert_ne in Hlj by congruence.
      eapply caller_ok_other; [apply (Hall j cj lj Hcj Hlj) | auto | auto | | ].
      -- cbn [set_lock lock]. congruence.
      -- rewrite Hnone. discriminate.
  - (* between mutex_lock and mutex_unlock *)
    destruct Hme as (Hmine & Hno & fuel & l'' & sh'' & r & Hfin & Hafter & Hrep & Hat).
    destruct (finish_step _ _ _ _ _ _ Hp Hfin) as (fuel' & l1 & sh1 & Ht' & Hfin').
    rewrite Ht in Ht'. injection Ht' as <- <-.
    destruct (tstep_inside _ _ _ _ _ Hp Ht) as [[Hin Hlock]|[Hout Hlock]].
    + exists order, rs, base.
      split; [exact Hser|]. split; [exact Hnd|]. split; [exact Hok|].
      split; [exact Hfree|]. split; [rewrite Hlock, Hmine; discriminate|]. split.
      { rewrite Hlock, Hmine. intros j [= <-]. exists l'. split; [|exact Hin].
        apply list_lookup_insert_eq. exact Hit. }
      split; [rewrite length_insert; exact Hlen|].
      intros j cj lj Hcj Hlj. destruct (decide (j = i)) as [->|Hne].
      * rewrite list_lookup_insert_eq in Hlj by exact Hit. injection Hlj as <-.
        rewrite Hc in Hcj. injection Hcj as <-.
        unfold caller_ok. rewrite Hin. split; [congruence|]. split; [exact Hno|].
        exists fuel', l'', sh'', r. auto.
      * rewrite list_lookup_insert_ne in Hlj by congruence.
        eapply caller_ok_other; [apply (Hall j cj lj Hcj Hlj) | auto | auto | | ].
        -- rewrite Hlock. auto.
        -- rewrite Hmine. intros [= ->]. contradiction.
    + destruct (finish_after _ _ _ _ _ _ Hout Hfin') as [-> ->].
      destruct (atomic_ok _ _ _ _ _ Hok Hat) as [Hok' Hlock'].
      exists (order ++ [i]), (rs ++ [(i, r)]), sh'.
      split; [eapply serial_snoc; eauto|].
      split.
      { apply NoDup_app. split; [exact Hnd|]. split; [|apply NoDup_singleton].
        intros x Hx Hx'. apply list_elem_of_singleton in Hx'. subst x. contradiction. }
      split; [exact Hok'|]. split; [exact Hlock|]. split; [reflexivity|]. split.
      { rewrite Hlock. discriminate. }
      split; [rewrite length_insert; exact Hlen|].
      intros j cj lj Hcj Hlj. destruct (decide (j = i)) as [->|Hne].
      * rewrite list_lookup_insert_eq in Hlj by exact Hit. injection Hlj as <-.
        unfold caller_ok. rewrite Hout.
        exists r. split; [exact Hrep|]. apply elem_of_app. right.
        apply list_elem_of_singleton. reflexivity.
      * rewrite list_lookup_insert_ne in Hlj by congruence.
        eapply caller_ok_other; [apply (Hall j cj lj Hcj Hlj) | | | | ].
        -- intros Hj Hj'. apply elem_of_app in Hj' as [Hj'|Hj']; [contradiction|].
           apply list_elem_of_singleton in Hj'. contradiction.
        -- intros x Hx. apply elem_of_app. left. exact Hx.
        -- rewrite Hlock. discriminate.
        -- rewrite Hmine. intros [= ->]. contradiction.
  - (* after mutex_unlock *)
    destruct Hme as (r & Hrep & Hin).
    destruct (tstep_after _ _ _ _ _ Hp Ht) as (-> & Hafter & Hrep').
    exists order, rs, base.
    split; [exact Hser|]. split; [exact Hnd|]. split; [exact Hok|].
    split; [exact Hfree|]. split; [exact Hidle|]. split.
    { intros j Hj. destruct (Hheld j Hj) as (lj & Hlj & Hpj).
      exists lj. split; [|exact Hpj].
      rewrite list_lookup_insert_ne; [exact Hlj|].
      intros <-. rewrite Hl in Hlj. injection Hlj as <-. congruence. }
    split; [rewrite length_insert; exact Hlen|].
    intros j cj lj Hcj Hlj. destruct (decide (j = i)) as [->|Hne].
    * rewrite list_lookup_insert_eq in Hlj by exact Hit. injection Hlj as <-.
      unfold caller_ok. rewrite Hafter. exists r. split; [congruence | exact Hin].
    * rewrite list_lookup_insert_ne in Hlj by congruence.
      eapply caller_ok_other; [apply (Hall j cj lj Hcj Hlj) | auto..].
Qed.

Lemma linearized_run cs s0 sched : forall cf cf',
  linearized cs s0 cf -> run sched cf = Some cf' -> linearized cs s0 cf'.
Proof.
  induction sched as [|i sched IH]; intros cf cf' Hlin Hrun; cbn [run] in Hrun.
  - injection Hrun as <-. exact Hlin.
  - destruct (sched_step i cf) as [cf1|] eqn:Hs; cbn [mbind option_bind] in Hrun;
      [|discriminate].
    eapply IH; [eapply linearized_step; eauto | exact Hrun].
Qed.

(** ** Concurrent callers: no deadlock, and every caller returns *)

Lemma returned_dec l : {is_Some (returned l)} + {~ is_Some (returned l)}.
Proof.
  destruct l; cbn [returned];
    try (right; intros [x Hx]; discriminate); left; eauto.
Qed.

Lemma tstep_waiting_free i l sh0 :
  phase_of l = Waiting -> lock sh0 = None -> is_Some (tstep i l sh0).
Proof.
  destruct l; try discriminate; intros _ Hfree; cbn [tstep]; unfold mutex_lock;
    rewrite Hfree; eauto.
Qed.

Lemma tstep_after_pending i l sh0 :
  phase_of l = After -> ~ is_Some (returned l) -> is_Some (tstep i l sh0).
Proof.
  destruct l; try discriminate; intros _ Hr.
  - cbn [tstep]. destruct (copy_to_user buf (C.int_bytes value)). eauto.
  - exfalso. apply Hr. cbn [returned]. eauto.
Qed.

Lemma sched_step_is_Some i cf l :
  threads cf !! i = Some l -> is_Some (tstep i l (sh cf)) ->
  exists cf', sched_step i cf = Some cf'.
Proof.
  intros Hl [[l' sh'] Ht]. unfold sched_step. rewrite Hl. cbn [mbind option_bind].
  rewrite Ht. cbn [mbind option_bind]. eauto.
Qed.

Lemma linearized_progress cs s0 cf :
  linearized cs s0 cf -> all_done cf \/ exists i cf', sched_step i cf = Some cf'.
Proof.
  intros (order & rs & base & Hser & Hnd & Hok & Hfree & Hidle & Hheld & Hlen & Hall).
  assert (Hcall : forall i l, threads cf !! i = Some l -> exists c, cs !! i = Some c).
  { intros i l Hl. apply lookup_lt_is_Some_2. rewrite <- Hlen.
    eapply lookup_lt_Some; eauto. }
  destruct (lock (sh cf)) as [j|] eqn:Hlock.
  - right. destruct (Hheld j eq_refl) as (lj & Hlj & Hpj).
    destruct (Hcall j lj Hlj) as [c Hc].
    pose proof (Hall j c lj Hc Hlj) as Hme. unfold caller_ok in Hme. rewrite Hpj in Hme.
    destruct Hme as (_ & _ & fuel & l' & sh' & r & Hfin & _).
    destruct (finish_step _ _ _ _ _ _ Hpj Hfin) as (fuel' & l1 & sh1 & Ht & _).
    exists j. eapply sched_step_is_Some; [exact Hlj | rewrite Ht; eauto].
  - destruct (Forall_Exists_dec (fun l => is_Some (returned l))
                (fun l => ~ is_Some (returned l)) returned_dec (threads cf))
      as [Hdone|Hex].
    + left. exact Hdone.
    + right. apply Exists_exists in Hex as (l & Hin & Hnot).
      apply list_elem_of_lookup in Hin as [i Hl].
      destruct (Hcall i l Hl) as [c Hc].
      pose proof (Hall i c l Hc Hl) as Hme. unfold caller_ok in Hme.
      exists i. eapply sched_step_is_Some; [exact Hl|].
      destruct (phase_of l) eqn:Hp.
      * destruct Hme as (-> & _). cbn [tstep]. eauto.
      * apply tstep_waiting_free; assumption.
      * destruct Hme as (Hmine & _). congruence.
      * apply tstep_after_pending; assumption.
Qed.

Lemma steps_left_insert ts : forall i l l',
  ts !! i = Some l ->
  (foldr (fun l n => steps_left l + n) 0 (<[i := l']> ts) + steps_left l
   = foldr (fun l n => steps_left l + n) 0 ts + steps_left l')%nat.
Proof.
  induction ts as [|t ts IH]; intros i l l' Hl; [discriminate|].
  destruct i as [|i]; cbn [lookup list_lookup insert list_insert foldr] in *.
  - injection Hl as ->. lia.
  - specialize (IH i l l' Hl).
    assert (E : forall a b c d x : nat, (b + c = d + x -> a + b + c = a + d + x)%nat)
      by (intros; lia).
    apply E. exact IH.
Qed.

Lemma sched_step_work_left i cf cf' :
  sched_step i cf = Some cf' -> (S (work_left cf') <= work_left cf)%nat.
Proof.
  unfold sched_step.
  destruct (threads cf !! i) as [l|] eqn:Hl; cbn [mbind option_bind]; [|discriminate].
  destruct (tstep i l (sh cf)) as [[l' sh']|] eqn:Ht; cbn [mbind option_bind]; [|discriminate].
  intros [= <-]. unfold work_left. cbn [threads].
  pose proof (steps_left_insert (threads cf) i l l' Hl).
  pose proof (tstep_steps_left _ _ _ _ _ Ht). lia.
Qed.

Lemma run_work_left sched : forall cf cf',
  run sched cf = Some cf' -> (length sched + work_left cf' <= work_left cf)%nat.
Proof.
  induction sched as [|i sched IH]; intros cf cf' Hrun; cbn [run length] in *.
  - injection Hrun as <-. lia.
  - destruct (sched_step i cf) as [cf1|] eqn:Hs; cbn [mbind option_bind] in Hrun;
      [|discriminate].
    pose proof (sched_step_work_left _ _ _ Hs). specialize (IH _ _ Hrun). lia.
Qed.

Lemma work_left_pushes bufs s0 :
  work_left (start (pushes bufs) s0) = (6 * length bufs)%nat.
Proof.
  unfold work_left, start, pushes. cbn [threads].
  induction bufs as [|b bufs IH]; cbn [map foldr length steps_left]; lia.
Qed.

(** ** Concurrent pushes *)

Lemma atomic_push i buf sh0 :
  (4 <= length buf)%nat -> stack_ok (stk sh0) -> top (stk sh0) < size (stk sh0) ->
  exists sh',
    atomic i (CWrite buf C.sizeof_int) sh0 = Some (Reply C.sizeof_int [], sh') /\
    stack_ok (stk sh') /\
    top (stk sh') = top (stk sh0) + 1 /\ size (stk sh') = size (stk sh0) /\
    lock sh' = lock sh0 /\
    log sh' = log sh0 ++ [(i, top (stk sh0))] /\
    elements (stk sh') = elements (stk sh0) ++ [C.int_of_bytes buf].
Proof.
  intros Hb Hok Hroom.
  destruct (stack_write_push buf _ Hok Hb Hroom) as (block & Hd & Hw).
  destruct (stack_write_ok buf C.sizeof_int _ Hok) as (r & s' & Hw' & Hok').
  rewrite Hw in Hw'. injection Hw' as <- <-.
  unfold atomic. cbn [handle stores]. rewrite Hw. cbn [mbind option_bind].
  rewrite Z.eqb_refl.
  eexists. split; [reflexivity|]. cbn [stk lock log top size].
  split; [exact Hok'|]. repeat (split; [reflexivity|]).
  rewrite (elements_eta _ block Hd). apply elements_push.
  destruct Hok as (Ht & _ & Hlen). rewrite Hd in Hlen. lia.
Qed.

Lemma serial_pushes bufs order : forall sh0 rs sh',
  Forall (fun buf => (4 <= length buf)%nat) bufs ->
  stack_ok (stk sh0) ->
  top (stk sh0) + Z.of_nat (length order) <= size (stk sh0) ->
  serial (pushes bufs) order sh0 = Some (rs, sh') ->
  rs = map (fun i => (i, Reply C.sizeof_int [])) order /\
  top (stk sh') = top (stk sh0) + Z.of_nat (length order) /\
  size (stk sh') = size (stk sh0) /\
  lock sh' = lock sh0 /\
  map fst (log sh') = map fst (log sh0) ++ order /\
  map snd (log sh') =
    map snd (log sh0) ++ map Z.of_nat (seq (Z.to_nat (top (stk sh0))) (length order)) /\
  elements (stk sh') =
    elements (stk sh0) ++ map (fun i => C.int_of_bytes (default [] (bufs !! i))) order.
Proof.
  induction order as [|i order IH]; intros sh0 rs sh' Hbufs Hok Hroom Hs;
    cbn [serial length map seq] in *.
  - injection Hs as <- <-. rewrite !app_nil_r.
    repeat split; try reflexivity. lia.
  - unfold pushes in Hs. rewrite list_lookup_fmap in Hs.
    destruct (bufs !! i) as [buf|] eqn:Hbuf; cbn [fmap option_fmap option_map mbind option_bind] in Hs;
      [|discriminate].
    assert (Hb : (4 <= length buf)%nat).
    { rewrite Forall_forall in Hbufs. apply Hbufs.
      apply list_elem_of_lookup. eauto. }
    destruct (atomic_push i buf sh0 Hb Hok) as (sh1 & Ha & Hok1 & Ht1 & Hs1 & Hl1 & Hg1 & He1);
      [lia|].
    rewrite Ha in Hs. cbn [mbind option_bind] in Hs.
    fold (pushes bufs) in Hs.
    destruct (serial (pushes bufs) order sh1) as [[rs' sh'']|] eqn:Hrest;
      cbn [mbind option_bind] in Hs; [|discriminate].
    injection Hs as <- <-.
    destruct (IH sh1 rs' sh'' Hbufs Hok1) as (Hr & Ht & Hsz & Hl & Hf & Hsn & He);
      [lia | exact Hrest |].
    destruct Hok as (Htop & _).
    split; [rewrite Hr; reflexivity|].
    split; [lia|]. split; [congruence|]. split; [congruence|].
    split; [rewrite Hf, Hg1, map_app, <- app_assoc; reflexivity|].
    split.
    + rewrite Hsn, Hg1, map_app, <- app_assoc. cbn [map snd app].
      rewrite Ht1. replace (Z.to_nat (top (stk sh0) + 1)) with (S (Z.to_nat (top (stk sh0)))) by lia.
      rewrite Z2Nat.id by lia. reflexivity.
    + rewrite He, He1, <- app_assoc. cbn [app]. reflexivity.
Qed.

(** Two callers are never both between [mutex_lock] and [mutex_unlock]. *)
Lemma linearized_exclusive cs s0 cf i j li lj :
  linearized cs s0 cf ->
  threads cf !! i = Some li -> threads cf !! j = Some lj ->
  phase_of li = Inside -> phase_of lj = Inside -> i = j.
Proof.
  intros (order & rs & base & _ & _ & _ & _ & _ & _ & Hlen & Hall) Hi Hj Hpi Hpj.
  assert (Hcall : forall i l, threads cf !! i = Some l -> exists c, cs !! i = Some c).
  { intros k l Hl. apply lookup_lt_is_Some_2. rewrite <- Hlen.
    eapply lookup_lt_Some; eauto. }
  destruct (Hcall i li Hi) as [ci Hci]. destruct (Hcall j lj Hj) as [cj Hcj].
  pose proof (Hall i ci li Hci Hi) as Hmi. pose proof (Hall j cj lj Hcj Hj) as Hmj.
  unfold caller_ok in Hmi, Hmj. rewrite Hpi in Hmi. rewrite Hpj in Hmj.
  destruct Hmi as (Hli & _). destruct Hmj as (Hlj & _). congruence.
Qed.

(** Once every caller has returned, the interleaving has given what serving
    the calls one after the other, in some order of the callers, gives. *)
Lemma linearized_done cs s0 cf :
  linearized cs s0 cf -> all_done cf ->
  exists order rs,
    Permutation order (seq 0 (length cs)) /\
    serial cs order {| stk := s0; lock := None; log := [] |} = Some (rs, sh cf) /\
    forall i r, threads cf !! i = Some (Done r) -> (i, r) ∈ rs.
Proof.
  intros (order & rs & base & Hser & Hnd & Hok & Hfree & Hidle & Hheld & Hlen & Hall) Hdone.
  unfold all_done in Hdone. rewrite Forall_forall in Hdone.
  assert (Hcall : forall i l, threads cf !! i = Some l -> exists c, cs !! i = Some c).
  { intros k l Hl. apply lookup_lt_is_Some_2. rewrite <- Hlen.
    eapply lookup_lt_Some; eauto. }
  assert (Hret : forall i r, threads cf !! i = Some (Done r) -> (i, r) ∈ rs).
  { intros i r Hl. destruct (Hcall i _ Hl) as [c Hc].
    pose proof (Hall i c _ Hc Hl) as Hme. unfold caller_ok in Hme.
    cbn [phase_of final_reply] in Hme. destruct Hme as (r' & [= <-] & Hin). exact Hin. }
  assert (Hnone : lock (sh cf) = None).
  { destruct (lock (sh cf)) as [j|] eqn:Hlock; [|reflexivity].
    destruct (Hheld j eq_refl) as (lj & Hlj & Hpj).
    assert (Hd : is_Some (returned lj)).
    { apply Hdone. apply list_elem_of_lookup. eauto. }
    destruct lj; cbn [returned] in Hd; destruct Hd as [x Hx]; discriminate. }
  destruct (serial_order _ _ _ _ _ Hser) as [Hfst Hvalid].
  exists order, rs. split; [|split; [rewrite (Hidle Hnone); exact Hser | exact Hret]].
  apply NoDup_Permutation; [exact Hnd | apply NoDup_seq|].
  intros i. rewrite elem_of_seq. split.
  - intros Hin. rewrite Forall_forall in Hvalid.
    pose proof (lookup_lt_is_Some_1 _ _ (Hvalid i Hin)). lia.
  - intros [_ Hi]. cbn in Hi.
    destruct (lookup_lt_is_Some_2 (threads cf) i) as [l Hl]; [rewrite Hlen; exact Hi|].
    assert (Hd : is_Some (returned l)).
    { apply Hdone. apply list_elem_of_lookup. eauto. }
    destruct l; cbn [returned] in Hd; destruct Hd as [x Hx]; try discriminate.
    rewrite <- Hfst. apply list_elem_of_fmap. exists (i, r). split; [reflexivity|].
    apply Hret. exact Hl.
Qed.

(** Every interleaving can be continued until every caller has returned. *)
Lemma run_app sched1 : forall sched2 cf,
  run (sched1 ++ sched2) cf = (cf1 ← run sched1 cf; run sched2 cf1).
Proof.
  induction sched1 as [|i sched1 IH]; intros sched2 cf; cbn [app run].
  - reflexivity.
  - destruct (sched_step i cf) as [cf1|]; cbn [mbind option_bind]; [apply IH | reflexivity].
Qed.

Lemma linearized_completes cs s0 n : forall cf,
  (work_left cf <= n)%nat -> linearized cs s0 cf ->
  exists rest cf', run rest cf = Some cf' /\ all_done cf'.
Proof.
  induction n as [|n IH]; intros cf Hn Hlin.
  - destruct (linearized_progress _ _ _ Hlin) as [Hdone|(i & cf1 & Hs)].
    + exists [], cf. auto.
    + pose proof (sched_step_work_left _ _ _ Hs). lia.
  - destruct (linearized_progress _ _ _ Hlin) as [Hdone|(i & cf1 & Hs)].
    + exists [], cf. auto.
    + pose proof (sched_step_work_left _ _ _ Hs) as Hw.
      destruct (IH cf1) as (rest & cf' & Hrun & Hdone);
        [lia | eapply linearized_step; eauto |].
      exists (i :: rest), cf'. cbn [run]. rewrite Hs. cbn [mbind option_bind]. auto.
Qed.

(** ** Concurrent pushes: the claim *)

Lemma work_left_start cs s0 : (work_left (start cs s0) <= 8 * length cs)%nat.
Proof.
  unfold work_left, start. cbn [threads].
  induction cs as [|c cs IH]; cbn [map foldr length]; [lia|].
  destruct c; cbn [steps_left]; lia.
Qed.

(** Any calls, any interleaving: mutual exclusion, no deadlock, a bound on
    the steps, a continuation in which every caller returns, and at the end
    the result of serving the calls one by one. *)
Lemma interleaving_linearized cs s0 sched cf :
  stack_ok s0 -> run sched (start cs s0) = Some cf ->
  (forall i j li lj,
     threads cf !! i = Some li -> threads cf !! j = Some lj ->
     phase_of li = Inside -> phase_of lj = Inside -> i = j) /\
  (all_done cf \/ exists i cf', sched_step i cf = Some cf') /\
  (length sched <= 8 * length cs)%nat /\
  (exists rest cf', run (sched ++ rest) (start cs s0) = Some cf' /\ all_done cf') /\
  (all_done cf ->
   exists order rs,
     Permutation order (seq 0 (length cs)) /\
     serial cs order {| stk := s0; lock := None; log := [] |} = Some (rs, sh cf) /\
     forall i r, threads cf !! i = Some (Done r) -> (i, r) ∈ rs).
Proof.
  intros Hok Hrun.
  assert (Hlin : linearized cs s0 cf).
  { eapply linearized_run; [apply linearized_start, Hok | exact Hrun]. }
  split; [|split; [|split; [|split]]].
  - intros i j li lj. apply (linearized_exclusive _ _ _ _ _ _ _ Hlin).
  - eapply linearized_progress, Hlin.
  - pose proof (run_work_left _ _ _ Hrun) as Hw.
    pose proof (work_left_start cs s0). lia.
  - destruct (linearized_completes cs s0 _ cf (Nat.le_refl _) Hlin)
      as (rest & cf' & Hrest & Hdone).
    exists rest, cf'. rewrite run_app, Hrun. auto.
  - apply linearized_done, Hlin.
Qed.

(** While caller 0 holds the mutex, caller 1 cannot pass [mutex_lock]. *)
Example second_caller_waits :
  run [0; 1; 0; 1]%nat
      (start [CWrite (C.int_bytes 7) 4; CRead 4 4]
             {| data := Some [0]; top := 0; size := 1 |}) = None.
Proof. vm_compute. reflexivity. Qed.

(** A push and a pop, the pop entering its handler during the push. *)
Example push_meets_pop :
  run [0; 0; 0; 1; 0; 0; 0; 1; 1; 1; 1; 1; 1]%nat
      (start [CWrite (C.int_bytes 7) 4; CRead 4 4]
             {| data := Some [0]; top := 0; size := 1 |})
  = Some {| threads := [Done (Reply 4 []); Done (Reply 4 (C.int_bytes 7))];
            sh := {| stk := {| data := Some [7]; top := 0; size := 1 |};
                     lock := None; log := [(0%nat, 0)] |} |}.
Proof. vm_compute. reflexivity. Qed.

(** C9: [N] callers push at once on an empty stack of capacity [N], in any
    interleaving of the steps of their handlers.  Never are two of them
    between [mutex_lock] and [mutex_unlock]; as long as one has not returned
    some caller can step, at most [6 * N] steps are made, and the
    interleaving can be continued until all have returned; and once all
    have returned, each has returned 4 (its push succeeded), [top] is [N],
    each caller made exactly one store into the block, the stores went to
    the cells [0], [1], ..., [N - 1] in this order (no two to the same
    cell), the elements are the callers' values in the order of their
    stores, and the whole is what serving the pushes one after the other in
    that order gives.  The same holds of any calls: in every interleaving
    of reads, writes and ioctls on a well-formed stack there is mutual
    exclusion, no deadlock, and at the end the replies and the stack are
    those of serving the calls one after the other in some order. *)
Theorem concurrent_pushes (bufs : list (list byte)) (s0 : stack)
    (sched : list nat) (cf : config) :
  Forall (fun buf => (4 <= length buf)%nat) bufs ->
  stack_ok s0 -> top s0 = 0 -> size s0 = Z.of_nat (length bufs) ->
  run sched (start (pushes bufs) s0) = Some cf ->
  (forall i j li lj,
     threads cf !! i = Some li -> threads cf !! j = Some lj ->
     phase_of li = Inside -> phase_of lj = Inside -> i = j) /\
  (all_done cf \/ exists i cf', sched_step i cf = Some cf') /\
  (length sched <= 6 * length bufs)%nat /\
  (exists rest cf',
     run (sched ++ rest) (start (pushes bufs) s0) = Some cf' /\ all_done cf') /\
  (all_done cf ->
   threads cf = map (fun _ => Done (Reply C.sizeof_int [])) bufs /\
   top (stk (sh cf)) = Z.of_nat (length bufs) /\
   size (stk (sh cf)) = Z.of_nat (length bufs) /\
   lock (sh cf) = None /\
   Permutation (map fst (log (sh cf))) (seq 0 (length bufs)) /\
   map snd (log (sh cf)) = map Z.of_nat (seq 0 (length bufs)) /\
   NoDup (map snd (log (sh cf))) /\
   elements (stk (sh cf))
   = map (fun i => C.int_of_bytes (default [] (bufs !! i))) (map fst (log (sh cf))) /\
   serial (pushes bufs) (map fst (log (sh cf))) {| stk := s0; lock := None; log := [] |}
   = Some (map (fun i => (i, Reply C.sizeof_int [])) (map fst (log (sh cf))), sh cf)) /\
  (forall (cs : list call) (s : stack) (sched' : list nat) (cf' : config),
     stack_ok s -> run sched' (start cs s) = Some cf' ->
     (forall i j li lj,
        threads cf' !! i = Some li -> threads cf' !! j = Some lj ->
        phase_of li = Inside -> phase_of lj = Inside -> i = j) /\
     (all_done cf' \/ exists i cf'', sched_step i cf' = Some cf'') /\
     (length sched' <= 8 * length cs)%nat /\
     (exists rest cf'',
        run (sched' ++ rest) (start cs s) = Some cf'' /\ all_done cf'') /\
     (all_done cf' ->
      exists order rs,
        Permutation order (seq 0 (length cs)) /\
        serial cs order {| stk := s; lock := None; log := [] |} = Some (rs, sh cf') /\
        forall i r, threads cf' !! i = Some (Done r) -> (i, r) ∈ rs)).
Proof.
  intros Hbufs Hok Htop Hsize Hrun.
  assert (Hlin : linearized (pushes bufs) s0 cf).
  { eapply linearized_run; [apply linearized_start, Hok | exact Hrun]. }
  assert (Hn : length (pushes bufs) = length bufs) by apply length_map.
  split; [|split; [|split; [|split; [|split]]]].
  - intros i j li lj. apply (linearized_exclusive _ _ _ _ _ _ _ Hlin).
  - eapply linearized_progress, Hlin.
  - pose proof (run_work_left _ _ _ Hrun) as Hw.
    rewrite work_left_pushes in Hw. lia.
  - destruct (linearized_completes (pushes bufs) s0 _ cf (Nat.le_refl _) Hlin)
      as (rest & cf' & Hrest & Hdone).
    exists rest, cf'. rewrite run_app, Hrun. auto.
  - intros Hdone.
    destruct (linearized_done _ _ _ Hlin Hdone) as (order & rs & Hperm & Hser & Hret).
    rewrite Hn in Hperm.
    assert (Hlen : length order = length bufs).
    { rewrite (Permutation_length Hperm). apply length_seq. }
    destruct (serial_pushes bufs order {| stk := s0; lock := None; log := [] |}
                            rs (sh cf) Hbufs Hok)
      as (Hrs & Ht & Hsz & Hl & Hf & Hsn & He); [cbn [stk]; lia | exact Hser |].
    cbn [stk lock log map app] in Ht, Hsz, Hl, Hf, Hsn, He.
    rewrite Htop in Ht, Hsn. cbn [Z.to_nat] in Hsn. rewrite Hlen in Ht, Hsn.
    assert (Hel0 : elements s0 = []).
    { unfold elements. rewrite Htop. apply take_0. }
    rewrite Hel0 in He. cbn [app] in He.
    rewrite Hf.
    split; [|split; [lia|split; [lia|split; [exact Hl|split; [exact Hperm|
             split; [exact Hsn|split; [|split; [exact He|rewrite <- Hrs; exact Hser]]]]]]]].
    + destruct Hlin as (_ & _ & _ & _ & _ & _ & _ & _ & _ & Hthreads & _).
      rewrite Hn in Hthreads.
      apply list_eq. intros i. rewrite list_lookup_fmap.
      destruct (threads cf !! i) as [l|] eqn:Hli.
      * assert (Hi : (i < length bufs)%nat).
        { rewrite <- Hthreads. eapply lookup_lt_Some; eauto. }
        destruct (lookup_lt_is_Some_2 bufs i Hi) as [buf ->]. cbn [fmap option_fmap option_map].
        assert (Hd : is_Some (returned l)).
        { unfold all_done in Hdone. rewrite Forall_forall in Hdone.
          apply Hdone. apply list_elem_of_lookup. eauto. }
        destruct l; cbn [returned] in Hd; destruct Hd as [x Hx]; try discriminate.
        pose proof (Hret i r Hli) as Hin. rewrite Hrs in Hin.
        apply list_elem_of_fmap in Hin as (k & [= _ ->] & _). reflexivity.
      * apply lookup_ge_None in Hli. rewrite Hthreads in Hli.
        rewrite (proj2 (lookup_ge_None bufs i)) by exact Hli. reflexivity.
    + rewrite Hsn. apply NoDup_fmap; [intros x y; lia | apply NoDup_seq].
  - intros cs s sched' cf'. apply interleaving_linearized.
Qed.

Lemma concurrent_pushes_witness :
  run [0; 1; 0; 0; 0; 0; 0; 1; 1; 1; 1; 1]%nat
      (start (pushes [C.int_bytes 5; C.int_bytes 6])
             {| data := Some [0; 0]; top := 0; size := 2 |})
  = Some {| threads := [Done (Reply 4 []); Done (Reply 4 [])];
            sh := {| stk := {| data := Some [5; 6]; top := 2; size := 2 |};
                     lock := None;
                     log := [(0%nat, 0); (1%nat, 1)] |} |} /\
  map snd [(0%nat, 0); (1%nat, 1)] = map Z.of_nat (seq 0 2) /\
  NoDup (map snd [(0%nat, 0); (1%nat, 1)]).
Proof.
  assert (Hrun :
    run [0; 1; 0; 0; 0; 0; 0; 1; 1; 1; 1; 1]%nat
        (start (pushes [C.int_bytes 5; C.int_bytes 6])
               {| data := Some [0; 0]; top := 0; size := 2 |})
    = Some {| threads := [Done (Reply 4 []); Done (Reply 4 [])];
              sh := {| stk := {| data := Some [5; 6]; top := 2; size := 2 |};
                       lock := None;
                       log := [(0%nat, 0); (1%nat, 1)] |} |})
    by (vm_compute; reflexivity).
  assert (Hbufs : Forall (fun buf : list byte => (4 <= length buf)%nat)
                         [C.int_bytes 5; C.int_bytes 6])
    by (repeat constructor; vm_compute; lia).
  assert (Hok : stack_ok {| data := Some [0; 0]; top := 0; size := 2 |})
    by (unfold stack_ok, C.INT_MAX; cbn; lia).
  split; [exact Hrun|].
  destruct (concurrent_pushes _ _ _ _ Hbufs Hok eq_refl eq_refl Hrun)
    as (_ & _ & _ & _ & Hend & _).
  destruct Hend as (_ & _ & _ & _ & _ & Hslots & Hnodup & _).
  { repeat constructor; cbn [returned]; eauto. }
  split; [exact Hslots | exact Hnodup].
Defined.

(** * More properties of the handlers *)

(** ** The order of the checks *)

(** X1: the result of a write is decided by its checks in their order: a
    byte count other than 4 gives [-EINVAL], else a buffer with fewer than
    four readable bytes gives [-EFAULT], else a full stack gives [-ERANGE],
    else the write returns 4; and only a write that returns 4 changes the
    stack. *)
Theorem write_checks_in_order (buf : list byte) (count : Z) (s : stack) :
  stack_ok s ->
  exists s',
    stack_write buf count s
    = Some (if negb (count =? 4) then - Errno.EINVAL
            else if (length buf <? 4)%nat then - Errno.EFAULT
            else if size s <=? top s then - Errno.ERANGE
            else 4, s') /\
    (count <> 4 \/ (length buf < 4)%nat \/ size s <= top s -> s' = s) /\
    (count = 4 -> (4 <= length buf)%nat -> top s < size s ->
     elements s' = elements s ++ [C.int_of_bytes buf] /\ top s' = top s + 1).
Proof.
  intros Hok.
  destruct (Z.eqb_spec count 4) as [->|Hc]; cbn [negb].
  - destruct (Nat.ltb_spec (length buf) 4) as [Hb|Hb].
    + exists s. split; [apply stack_write_fault, Hb|]. split; [reflexivity | lia].
    + destruct (Z.leb_spec (size s) (top s)) as [Hfull|Hroom].
      * exists s. split; [apply stack_write_full; assumption|].
        split; [reflexivity | lia].
      * destruct (stack_write_push buf s Hok Hb Hroom) as (block & Hd & Hw).
        eexists. split; [exact Hw|]. split; [lia|]. intros _ _ _. cbn [top].
        split; [|reflexivity].
        rewrite (elements_eta s block Hd). apply elements_push.
        destruct Hok as (Ht & _ & Hlen). rewrite Hd in Hlen. lia.
  - exists s. split; [apply stack_write_count, Hc|]. split; [reflexivity | lia].
Qed.

Lemma write_checks_in_order_witness :
  exists s',
    stack_write [] 4 {| data := Some [7; 8]; top := 2; size := 2 |}
    = Some (- Errno.EFAULT, s') /\
    s' = {| data := Some [7; 8]; top := 2; size := 2 |}.
Proof.
  assert (Hok : stack_ok {| data := Some [7; 8]; top := 2; size := 2 |})
    by (unfold stack_ok, C.INT_MAX; cbn; lia).
  destruct (write_checks_in_order [] 4 _ Hok) as (s' & Hw & Hsame & _).
  exists s'. split; [exact Hw|]. apply Hsame. right. left. cbn. lia.
Defined.

(** X2: the result of an ioctl is decided by its checks in their order: an
    unknown command gives [-ENOTTY], else an argument with fewer than four
    readable bytes gives [-EFAULT], else a size [<= 0] gives [-EINVAL], else
    a failed allocation gives [-ENOMEM], else the ioctl returns 0; the
    allocator is only asked when all the checks before it have passed, and
    only an ioctl that returns 0 changes the stack. *)
Theorem ioctl_checks_in_order (cmd : Z) (arg : list byte) (k : kmalloc_answer)
    (s : stack) :
  stack_ok s ->
  exists s',
    stack_ioctl cmd arg k s
    = Some (if negb (cmd =? IOCTL_SET_SIZE) then - Errno.ENOTTY
            else if (length arg <? 4)%nat then - Errno.EFAULT
            else if C.int_of_bytes arg <=? 0 then - Errno.EINVAL
            else match k with KNull => - Errno.ENOMEM | KBlock _ => 0 end, s') /\
    (cmd <> IOCTL_SET_SIZE \/ (length arg < 4)%nat \/ C.int_of_bytes arg <= 0 ->
     s' = s /\ stack_ioctl_heap cmd arg k s = []) /\
    (k = KNull -> s' = s).
Proof.
  intros Hok.
  destruct (Z.eqb_spec cmd IOCTL_SET_SIZE) as [->|Hc]; cbn [negb].
  - destruct (Nat.ltb_spec (length arg) 4) as [Hb|Hb].
    + exists s. split; [apply stack_ioctl_fault, Hb|].
      split; [|intros _; reflexivity]. intros _. split; [reflexivity|].
      unfold stack_ioctl_heap. rewrite Z.eqb_refl. cbn [negb].
      pose proof (copy_from_user_fault arg Hb) as Hf.
      destruct (copy_from_user arg C.sizeof_int) as [missed bytes]. cbn [fst] in Hf.
      destruct (Z.eqb_spec missed 0); [contradiction | reflexivity].
    + destruct (Z.leb_spec (C.int_of_bytes arg) 0) as [Hn|Hn].
      * exists s. split; [apply stack_ioctl_nonpositive; assumption|].
        split; [|intros _; reflexivity]. intros _. split; [reflexivity|].
        unfold stack_ioctl_heap.
        rewrite Z.eqb_refl, copy_from_user_ok by exact Hb. cbn [negb].
        rewrite Z.eqb_refl. cbn [negb].
        assert (Heq : C.int_of_bytes (take 4 arg) = C.int_of_bytes arg).
        { unfold C.int_of_bytes. rewrite take_take, Nat.min_id. reflexivity. }
        rewrite Heq.
        destruct (Z.leb_spec (C.int_of_bytes arg) 0); [reflexivity | lia].
      * destruct k as [|junk].
        -- exists s. split; [apply stack_ioctl_nomem; assumption|].
           split; [lia | reflexivity].
        -- rewrite stack_ioctl_resize by assumption.
           eexists. split; [reflexivity|]. split; [lia | discriminate].
  - exists s. split; [apply stack_ioctl_cmd, Hc|].
    split; [|intros _; reflexivity]. intros _. split; [reflexivity|].
    unfold stack_ioctl_heap.
    destruct (Z.eqb_spec cmd IOCTL_SET_SIZE); [contradiction | reflexivity].
Qed.

Lemma ioctl_checks_in_order_witness :
  exists s',
    stack_ioctl IOCTL_SET_SIZE [] KNull {| data := Some [7; 8]; top := 2; size := 2 |}
    = Some (- Errno.EFAULT, s') /\
    s' = {| data := Some [7; 8]; top := 2; size := 2 |}.
Proof.
  assert (Hok : stack_ok {| data := Some [7; 8]; top := 2; size := 2 |})
    by (unfold stack_ok, C.INT_MAX; cbn; lia).
  destruct (ioctl_checks_in_order IOCTL_SET_SIZE [] KNull _ Hok) as (s' & Hw & _ & Hsame).
  exists s'. split; [exact Hw | apply Hsame; reflexivity].
Defined.

(** ** Nothing but pushed values comes back *)

Lemma elements_resize s n junk :
  stack_ok s ->
  elements {| data := Some (take (Z.to_nat (Z.min (top s) n)) (default [] (data s))
                            ++ drop (Z.to_nat (Z.min (top s) n))
                                    (map junk (seq 0 (Z.to_nat n))));
              top := Z.min (top s) n; size := n |}
  = take (Z.to_nat (Z.min (top s) n)) (elements s).
Proof.
  intros Hok. pose proof (elements_length s Hok) as Hlen.
  unfold elements at 1. cbn [data top from_option id].
  unfold elements in Hlen |- *. rewrite length_take in Hlen.
  rewrite take_app_le by (rewrite length_take; lia).
  rewrite !take_take. f_equal. lia.
Qed.

Lemma pushed_cons c cs : pushed (c :: cs) = pushed [c] ++ pushed cs.
Proof. unfold pushed. cbn [omap list_omap]. destruct c; reflexivity. Qed.

Lemma comes_from_mono V V' r :
  (forall v, v ∈ V -> v ∈ V') -> comes_from V r -> comes_from V' r.
Proof.
  intros Hsub [Hnil|(v & w & Hv & Hr)]; [left; exact Hnil|].
  right. exists v, w. auto.
Qed.

(** One call: what it returns comes from the stored elements, and what it
    leaves stored comes from them or from the call itself. *)
Lemma handle_provenance c s V :
  stack_ok s -> Forall (fun v => v ∈ V) (elements s) ->
  exists r s',
    handle c s = Some (r, s') /\ stack_ok s' /\
    Forall (fun v => v ∈ V ++ pushed [c]) (elements s') /\
    comes_from V r.
Proof.
  intros Hok HV.
  assert (Hkeep : Forall (fun v => v ∈ V ++ pushed [c]) (elements s)).
  { eapply Forall_impl; [exact HV|]. intros v Hv. apply elem_of_app. auto. }
  destruct c as [w count|buf count|cmd arg k]; cbn [handle].
  - destruct (Z.eq_dec count C.sizeof_int) as [->|Hc].
    + destruct (Z.eq_dec (top s) 0) as [Hz|Hnz].
      * rewrite stack_read_empty by exact Hz.
        do 2 eexists. split; [reflexivity|]. split; [exact Hok|].
        split; [exact Hkeep | left; reflexivity].
      * destruct (stack_read_pop w s Hok Hnz) as (block & v & Hd & Hv & Hr).
        destruct (stack_read_ok w C.sizeof_int s Hok) as (r & s' & Hr' & Hok').
        rewrite Hr in Hr'. injection Hr' as <- <-. rewrite Hr.
        assert (Hpos : 0 < top s) by (destruct Hok; lia).
        pose proof (elements_pop block v (top s) (size s) Hpos Hv) as Hsplit.
        rewrite <- (elements_eta s block Hd) in Hsplit.
        rewrite Hsplit in HV. apply Forall_app in HV as [Hes Hlast].
        rewrite Forall_singleton in Hlast.
        do 2 eexists. split; [reflexivity|]. split; [exact Hok'|]. split.
        -- eapply Forall_impl; [exact Hes|]. intros x Hx. apply elem_of_app. auto.
        -- right. exists v, w. split; [exact Hlast|].
           destruct (Nat.ltb_spec w 4); cbn [to_user]; [reflexivity|].
           symmetry. apply take_ge. unfold C.int_bytes. rewrite length_le_split. lia.
    + rewrite stack_read_count by exact Hc.
      do 2 eexists. split; [reflexivity|]. split; [exact Hok|].
      split; [exact Hkeep | left; reflexivity].
  - destruct (Z.eq_dec count C.sizeof_int) as [->|Hc].
    + destruct (Nat.lt_ge_cases (length buf) 4) as [Hb|Hb].
      * rewrite stack_write_fault by exact Hb. cbn [mbind option_bind].
        do 2 eexists. split; [reflexivity|]. split; [exact Hok|].
        split; [exact Hkeep | left; reflexivity].
      * destruct (Z.lt_ge_cases (top s) (size s)) as [Hroom|Hfull].
        -- destruct (stack_write_push buf s Hok Hb Hroom) as (block & Hd & Hw).
           destruct (stack_write_ok buf C.sizeof_int s Hok) as (r & s' & Hw' & Hok').
           rewrite Hw in Hw'. injection Hw' as <- <-. rewrite Hw. cbn [mbind option_bind].
           do 2 eexists. split; [reflexivity|]. split; [exact Hok'|].
           split; [|left; reflexivity].
           assert (Hel : elements {| data := Some (<[Z.to_nat (top s) := C.int_of_bytes buf]> block);
                                     top := top s + 1; size := size s |}
                         = elements s ++ [C.int_of_bytes buf]).
           { rewrite (elements_eta s block Hd). apply elements_push.
             destruct Hok as (Ht & _ & Hlen). rewrite Hd in Hlen. lia. }
           rewrite Hel. apply Forall_app. split; [exact Hkeep|].
           apply Forall_singleton. apply elem_of_app. right.
           cbn. apply list_elem_of_singleton. reflexivity.
        -- rewrite stack_write_full by assumption. cbn [mbind option_bind].
           do 2 eexists. split; [reflexivity|]. split; [exact Hok|].
           split; [exact Hkeep | left; reflexivity].
    + rewrite stack_write_count by exact Hc. cbn [mbind option_bind].
      do 2 eexists. split; [reflexivity|]. split; [exact Hok|].
      split; [exact Hkeep | left; reflexivity].
  - destruct (Z.eq_dec cmd IOCTL_SET_SIZE) as [->|Hc].
    + destruct (Nat.lt_ge_cases (length arg) 4) as [Hb|Hb].
      * rewrite stack_ioctl_fault by exact Hb. cbn [mbind option_bind].
        do 2 eexists. split; [reflexivity|]. split; [exact Hok|].
        split; [exact Hkeep | left; reflexivity].
      * destruct (Z.lt_ge_cases 0 (C.int_of_bytes arg)) as [Hpos|Hneg].
        -- destruct k as [|junk].
           ++ rewrite stack_ioctl_nomem by assumption. cbn [mbind option_bind].
              do 2 eexists. split; [reflexivity|]. split; [exact Hok|].
              split; [exact Hkeep | left; reflexivity].
           ++ destruct (stack_ioctl_ok IOCTL_SET_SIZE arg (KBlock junk) s Hok)
                as (r & s' & Hi & Hok').
              rewrite stack_ioctl_resize in Hi by assumption. injection Hi as <- <-.
              rewrite stack_ioctl_resize by assumption. cbn [mbind option_bind].
              do 2 eexists. split; [reflexivity|]. split; [exact Hok'|].
              split; [|left; reflexivity].
              rewrite (elements_resize s _ junk Hok).
              apply Forall_take. exact Hkeep.
        -- rewrite stack_ioctl_nonpositive by assumption. cbn [mbind option_bind].
           do 2 eexists. split; [reflexivity|]. split; [exact Hok|].
           split; [exact Hkeep | left; reflexivity].
    + rewrite stack_ioctl_cmd by exact Hc. cbn [mbind option_bind].
      do 2 eexists. split; [reflexivity|]. split; [exact Hok|].
      split; [exact Hkeep | left; reflexivity].
Qed.

Lemma replies_provenance cs : forall s V,
  stack_ok s -> Forall (fun v => v ∈ V) (elements s) ->
  exists rs s',
    replies_of cs s = Some (rs, s') /\ stack_ok s' /\
    Forall (fun v => v ∈ V ++ pushed cs) (elements s') /\
    Forall (comes_from (V ++ pushed cs)) rs.
Proof.
  induction cs as [|c cs IH]; intros s V Hok HV; cbn [replies_of].
  - exists [], s. split; [reflexivity|]. split; [exact Hok|]. split; [|constructor].
    eapply Forall_impl; [exact HV|]. intros v Hv. apply elem_of_app. auto.
  - destruct (handle_provenance c s V Hok HV) as (r & s1 & -> & Hok1 & HV1 & Hr).
    cbn [mbind option_bind].
    destruct (IH s1 (V ++ pushed [c]) Hok1 HV1) as (rs & s' & -> & Hok' & HV' & Hrs).
    cbn [mbind option_bind].
    rewrite pushed_cons, app_assoc.
    exists (r :: rs), s'. split; [reflexivity|]. split; [exact Hok'|].
    split; [exact HV'|]. constructor; [|exact Hrs].
    eapply comes_from_mono; [|exact Hr].
    intros v Hv. apply elem_of_app. left. apply elem_of_app. auto.
Qed.

(** X3: in every sequence of calls on the device from its initial state,
    whatever the allocator hands out as uninitialised memory, the bytes that
    a call gives back to its caller are none, or the first bytes (all four
    when the read succeeds) of a value that a write call of the sequence
    offered; and the elements left on the stack are such values too. *)
Theorem only_pushed_values_come_back (cs : list call) :
  exists rs s',
    replies_of cs stack0 = Some (rs, s') /\
    Forall (comes_from (pushed cs)) rs /\
    Forall (fun v => v ∈ pushed cs) (elements s').
Proof.
  destruct (replies_provenance cs stack0 [] stack_ok_stack0) as (rs & s' & Hrun & _ & Hel & Hrs).
  { unfold elements, stack0. cbn. constructor. }
  exists rs, s'. auto.
Qed.

(** ** Filling up, and resizing twice *)

Lemma stack_ioctl_elements arg junk s :
  stack_ok s -> (4 <= length arg)%nat -> 0 < C.int_of_bytes arg ->
  exists s',
    stack_ioctl IOCTL_SET_SIZE arg (KBlock junk) s = Some (0, s') /\
    stack_ok s' /\ size s' = C.int_of_bytes arg /\
    top s' = Z.min (top s) (C.int_of_bytes arg) /\
    elements s' = take (Z.to_nat (Z.min (top s) (C.int_of_bytes arg))) (elements s).
Proof.
  intros Hok Hb Hpos.
  destruct (stack_ioctl_ok IOCTL_SET_SIZE arg (KBlock junk) s Hok) as (r & s' & Hi & Hok').
  rewrite stack_ioctl_resize in Hi by assumption. injection Hi as <- <-.
  rewrite stack_ioctl_resize by assumption.
  eexists. split; [reflexivity|]. split; [exact Hok'|]. cbn [top size].
  split; [reflexivity|]. split; [reflexivity|].
  apply elements_resize, Hok.
Qed.

(** X4: a batch of pushes fills the room that is left and no more: on a
    stack with room for [size - top] values, the first that many writes
    return 4 and their values are appended in order, every later write
    returns [-ERANGE], and [size] is unchanged. *)
Theorem pushes_fill_the_room (bufs : list (list byte)) : forall s : stack,
  stack_ok s -> Forall (fun buf => (4 <= length buf)%nat) bufs ->
  exists s',
    replies_of (map (fun buf => CWrite buf C.sizeof_int) bufs) s
    = Some (repeat (Reply C.sizeof_int [])
                   (Nat.min (length bufs) (Z.to_nat (size s - top s)))
            ++ repeat (Reply (- Errno.ERANGE) [])
                      (length bufs - Z.to_nat (size s - top s)), s') /\
    stack_ok s' /\ size s' = size s /\
    top s' = Z.min (size s) (top s + Z.of_nat (length bufs)) /\
    elements s'
    = elements s ++ map C.int_of_bytes (take (Z.to_nat (size s - top s)) bufs).
Proof. exact (pushes_fill bufs). Qed.

Lemma pushes_fill_the_room_witness :
  exists s',
    replies_of (map (fun buf => CWrite buf C.sizeof_int)
                    [C.int_bytes 1; C.int_bytes 2; C.int_bytes 3])
               {| data := Some [0; 0]; top := 0; size := 2 |}
    = Some ([Reply 4 []; Reply 4 []; Reply (- Errno.ERANGE) []], s') /\
    elements s' = [1; 2].
Proof.
  assert (Hok : stack_ok {| data := Some [0; 0]; top := 0; size := 2 |})
    by (unfold stack_ok, C.INT_MAX; cbn; lia).
  assert (Hbufs : Forall (fun buf : list byte => (4 <= length buf)%nat)
                         [C.int_bytes 1; C.int_bytes 2; C.int_bytes 3])
    by (repeat constructor; vm_compute; lia).
  destruct (pushes_fill_the_room _ _ Hok Hbufs) as (s' & Hrun & _ & _ & _ & Hel).
  exists s'. split; [exact Hrun | exact Hel].
Defined.

(** X5: two resizes in a row keep what the smaller of the two sizes keeps:
    after "set size" [n] then "set size" [m], both granted, [size] is [m]
    and the elements are the first [min n m] of the original ones (all of
    them if there were fewer); growing again does not bring back what a
    shrink dropped.  The stack is well formed afterwards. *)
Theorem resize_twice (arg1 arg2 : list byte) (junk1 junk2 : nat -> Z) (s : stack) :
  stack_ok s ->
  (4 <= length arg1)%nat -> (4 <= length arg2)%nat ->
  0 < C.int_of_bytes arg1 -> 0 < C.int_of_bytes arg2 ->
  exists s1 s2,
    stack_ioctl IOCTL_SET_SIZE arg1 (KBlock junk1) s = Some (0, s1) /\
    stack_ioctl IOCTL_SET_SIZE arg2 (KBlock junk2) s1 = Some (0, s2) /\
    size s2 = C.int_of_bytes arg2 /\
    top s2 = Z.min (top s) (Z.min (C.int_of_bytes arg1) (C.int_of_bytes arg2)) /\
    elements s2
    = take (Z.to_nat (Z.min (C.int_of_bytes arg1) (C.int_of_bytes arg2))) (elements s) /\
    stack_ok s2.
Proof.
  intros Hok Hb1 Hb2 Hn Hm.
  destruct (stack_ioctl_elements arg1 junk1 s Hok Hb1 Hn)
    as (s1 & Hi1 & Hok1 & Hs1 & Ht1 & He1).
  destruct (stack_ioctl_elements arg2 junk2 s1 Hok1 Hb2 Hm)
    as (s2 & Hi2 & Hok2 & Hs2 & Ht2 & He2).
  exists s1, s2. split; [exact Hi1|]. split; [exact Hi2|]. split; [exact Hs2|].
  split; [lia|]. split; [|exact Hok2].
  rewrite He2, He1, Ht1, take_take.
  pose proof (elements_length s Hok) as Hlen.
  destruct (Z.le_gt_cases (top s) (Z.min (C.int_of_bytes arg1) (C.int_of_bytes arg2))).
  - rewrite !take_ge by lia. reflexivity.
  - f_equal. lia.
Qed.

Lemma resize_twice_witness :
  exists s1 s2,
    stack_ioctl IOCTL_SET_SIZE (C.int_bytes 1) (KBlock (fun _ => 0))
                {| data := Some [7; 8; 9]; top := 3; size := 3 |} = Some (0, s1) /\
    stack_ioctl IOCTL_SET_SIZE (C.int_bytes 3) (KBlock (fun _ => 0)) s1 = Some (0, s2) /\
    size s2 = 3 /\ top s2 = 1 /\ elements s2 = [7] /\ stack_ok s2.
Proof.
  assert (Hok : stack_ok {| data := Some [7; 8; 9]; top := 3; size := 3 |})
    by (unfold stack_ok, C.INT_MAX; cbn; lia).
  assert (H1 : (4 <= length (C.int_bytes 1))%nat) by (vm_compute; lia).
  assert (H3 : (4 <= length (C.int_bytes 3))%nat) by (vm_compute; lia).
  exact (resize_twice (C.int_bytes 1) (C.int_bytes 3) (fun _ => 0) (fun _ => 0) _
                      Hok H1 H3 eq_refl eq_refl).
Defined.

(** * The command-line utility *)

(** ** The system calls it makes *)

Lemma int_of_bytes_int_bytes_wrap v : C.int_of_bytes (C.int_bytes v) = C.int_wrap v.
Proof.
  unfold C.int_of_bytes, C.int_bytes.
  rewrite take_ge by (rewrite length_le_split; lia).
  rewrite le_combine_split. change (Z.of_nat 4 * 8) with 32.
  unfold C.int_wrap. rewrite Zplus_mod_idemp_l. reflexivity.
Qed.

Lemma int_bytes_length v : length (C.int_bytes v) = 4%nat.
Proof. apply length_le_split. Qed.

(** [write(fd, &value, sizeof(int))]. *)
Lemma write_int v s :
  stack_ok s ->
  (size s <= top s /\
   stack_write (C.int_bytes v) C.sizeof_int s = Some (- Errno.ERANGE, s)) \/
  (top s < size s /\
   exists s',
     stack_write (C.int_bytes v) C.sizeof_int s = Some (C.sizeof_int, s') /\
     stack_ok s' /\ elements s' = elements s ++ [C.int_wrap v] /\
     top s' = top s + 1 /\ size s' = size s).
Proof.
  intros Hok.
  assert (Hb : (4 <= length (C.int_bytes v))%nat) by (rewrite int_bytes_length; lia).
  destruct (Z.lt_ge_cases (top s) (size s)) as [Hroom|Hfull].
  - right. split; [exact Hroom|].
    destruct (stack_write_push _ s Hok Hb Hroom) as (block & Hd & Hw).
    destruct (stack_write_ok (C.int_bytes v) C.sizeof_int s Hok) as (r & s' & Hw' & Hok').
    rewrite Hw in Hw'. injection Hw' as <- <-.
    eexists. split; [exact Hw|]. split; [exact Hok'|]. cbn [top size].
    split; [|split; reflexivity].
    rewrite (elements_eta s block Hd), int_of_bytes_int_bytes_wrap.
    apply elements_push.
    destruct Hok as (Ht & _ & Hlen). rewrite Hd in Hlen. lia.
  - left. split; [lia|]. apply stack_write_full; [exact Hb | lia].
Qed.

(** [read(fd, &value, sizeof(int))]. *)
Lemma read_int s :
  stack_ok s ->
  (top s = 0 /\ stack_read 4 C.sizeof_int s = Some (Reply 0 [], s)) \/
  (exists es v s',
     elements s = es ++ [v] /\
     stack_read 4 C.sizeof_int s = Some (Reply C.sizeof_int (C.int_bytes v), s') /\
     stack_ok s' /\ elements s' = es /\
     top s' = top s - 1 /\ size s' = size s /\ data s' = data s).
Proof.
  intros Hok. destruct (Z.eq_dec (top s) 0) as [Hz|Hnz].
  - left. split; [exact Hz | apply stack_read_empty, Hz].
  - right.
    destruct (stack_read_pop 4 s Hok Hnz) as (block & v & Hd & Hv & Hr).
    destruct (stack_read_ok 4 C.sizeof_int s Hok) as (r & s' & Hr' & Hok').
    rewrite Hr in Hr'. injection Hr' as <- <-.
    assert (Hpos : 0 < top s) by (destruct Hok; lia).
    do 3 eexists. split; [|split; [exact Hr|]].
    + rewrite (elements_eta s block Hd). apply elements_pop; eassumption.
    + split; [exact Hok'|]. cbn [top size data]. repeat split. symmetry. exact Hd.
Qed.

(** The loop of [unwind] with enough fuel: one [read] per element and one
    more, which finds the stack empty. *)
Lemma unwind_loop_drains n : forall fuel errno s out,
  stack_ok s -> top s = Z.of_nat n -> (n < fuel)%nat ->
  unwind_loop fuel errno s out
  = Some (0, out ++ map (fun v => PrintfInt (C.int_wrap v)) (rev (elements s)),
          {| data := data s; top := 0; size := size s |}).
Proof.
  induction n as [|n IH]; intros fuel errno s out Hok Htop Hfuel;
    (destruct fuel as [|fuel]; [lia|]); cbn [unwind_loop].
  - destruct (read_int s Hok) as [[Hz ->]|(es & v & s' & _ & _ & Hok' & _ & Ht & _)];
      [|destruct Hok'; lia].
    cbn [mbind option_bind ret syscall]. unfold syscall. cbn.
    unfold elements. rewrite Hz. cbn [Z.to_nat]. rewrite take_0. cbn [rev map].
    rewrite app_nil_r. destruct s; cbn in *. subst. reflexivity.
  - destruct (read_int s Hok) as [[Hz _]|(es & v & s' & Hel & -> & Hok' & Hes & Ht & Hs & Hd)];
      [lia|].
    cbn [mbind option_bind ret to_user]. unfold syscall. cbn [Z.ltb Z.compare C.sizeof_int].
    cbn [Z.eqb].
    rewrite (IH fuel errno s' _ Hok') by lia.
    rewrite Hel, Hes, rev_unit, int_of_bytes_int_bytes_wrap, Hs, Hd.
    cbn [map]. rewrite <- app_assoc. reflexivity.
Qed.

(** ** One run of the utility *)

(** X6: whatever its arguments, whether the key is in or not and whatever
    [open] and the allocator answer, a run of the utility on a well-formed
    stack returns, leaves the stack well-formed, and returns 0, 1 or
    [-ERANGE] and nothing else (the [perror] branches of push, pop and
    unwind are never taken); a run that does not return 0 leaves the stack
    exactly as it was; and without the key it only says so and returns 1. *)
Theorem main_is_safe (atoi : string -> Z) (present : bool) (open_errno : option Z)
    (k : kmalloc_answer) (argv : list string) (s : stack) :
  stack_ok s ->
  exists r out s',
    main atoi (S (Z.to_nat (top s))) present open_errno k argv s = Some (r, out, s') /\
    stack_ok s' /\
    (r = 0 \/ r = 1 \/ r = - Errno.ERANGE) /\
    (r <> 0 -> s' = s) /\
    (present = false -> r = 1 /\ out = [Stderr "error: USB key not inserted"]).
Proof.
  intros Hok. unfold main.
  destruct present; cbn [negb].
  2:{ do 3 eexists. split; [reflexivity|]. split; [exact Hok|]. auto. }
  destruct (length argv <? 2)%nat.
  { do 3 eexists. split; [reflexivity|]. split; [exact Hok|].
    split; [auto|]. split; [auto | discriminate]. }
  destruct open_errno as [e|].
  { do 3 eexists. split; [reflexivity|]. split; [exact Hok|].
    split; [auto|]. split; [auto | discriminate]. }
  cbv zeta.
  destruct (String.eqb _ "set-size").
  { destruct (negb (length argv =? 3)%nat).
    { do 3 eexists. split; [reflexivity|]. split; [exact Hok|].
      split; [auto|]. split; [auto | discriminate]. }
    destruct (atoi _ <=? 0).
    { do 3 eexists. split; [reflexivity|]. split; [exact Hok|].
      split; [auto|]. split; [auto | discriminate]. }
    destruct (stack_ioctl_ok IOCTL_SET_SIZE (C.int_bytes (atoi (default "" (argv !! 2%nat))))
                             k s Hok) as (r & s' & Hi & Hok').
    rewrite Hi. cbn [mbind option_bind]. unfold syscall.
    destruct (Z.ltb_spec r 0) as [Hr|Hr].
    - assert (Hs : s' = s) by (eapply stack_ioctl_failure; [exact Hi | lia]).
      subst s'. change (-1 <? 0) with true. cbv iota.
      do 3 eexists. split; [reflexivity|]. split; [exact Hok|].
      split; [right; left; reflexivity|]. split; [auto | discriminate].
    - destruct (Z.ltb_spec r 0); [lia|].
      do 3 eexists. split; [reflexivity|]. split; [exact Hok'|].
      split; [auto|]. split; [intros Hne; contradiction | discriminate]. }
  destruct (String.eqb _ "push").
  { destruct (negb (length argv =? 3)%nat).
    { do 3 eexists. split; [reflexivity|]. split; [exact Hok|].
      split; [auto|]. split; [auto | discriminate]. }
    destruct (write_int (atoi (default "" (argv !! 2%nat))) s Hok)
      as [[_ Hw]|[_ (s' & Hw & Hok' & _)]]; rewrite Hw; cbn [mbind option_bind];
      unfold syscall.
    - change (- Errno.ERANGE <? 0) with true. cbv iota.
      change (-1 <? 0) with true. rewrite Z.opp_involutive, Z.eqb_refl.
      do 3 eexists. split; [reflexivity|]. split; [exact Hok|].
      split; [auto|]. split; [auto | discriminate].
    - change (C.sizeof_int <? 0) with false. cbv iota.
      do 3 eexists. split; [reflexivity|]. split; [exact Hok'|].
      split; [auto|]. split; [intros Hne; contradiction | discriminate]. }
  destruct (String.eqb _ "pop").
  { destruct (negb (length argv =? 2)%nat).
    { do 3 eexists. split; [reflexivity|]. split; [exact Hok|].
      split; [auto|]. split; [auto | discriminate]. }
    destruct (read_int s Hok) as [[_ Hr]|(es & v & s' & _ & Hr & Hok' & _)];
      rewrite Hr; cbn [mbind option_bind ret to_user]; unfold syscall.
    - do 3 eexists. split; [reflexivity|]. split; [exact Hok|].
      split; [auto|]. split; [intros Hne; contradiction | discriminate].
    - do 3 eexists. split; [reflexivity|]. split; [exact Hok'|].
      split; [auto|]. split; [intros Hne; contradiction | discriminate]. }
  destruct (String.eqb _ "unwind").
  { destruct (negb (length argv =? 2)%nat).
    { do 3 eexists. split; [reflexivity|]. split; [exact Hok|].
      split; [auto|]. split; [auto | discriminate]. }
    pose proof Hok as (Ht & Hm & Hd).
    rewrite (unwind_loop_drains (Z.to_nat (top s))); [|exact Hok | lia | lia].
    do 3 eexists. split; [reflexivity|]. split.
    { unfold stack_ok. cbn [top size data]. repeat split; try lia. exact Hd. }
    split; [auto|]. split; [intros Hne; contradiction | discriminate]. }
  do 3 eexists. split; [reflexivity|]. split; [exact Hok|].
  split; [auto|]. split; [auto | discriminate].
Qed.

Lemma main_is_safe_witness :
  exists r out s',
    main (fun _ => 5) 3 true None KNull ["kernel_stack"; "push"; "5"]
         {| data := Some [7; 8]; top := 2; size := 2 |} = Some (r, out, s') /\
    (r = 0 \/ r = 1 \/ r = - Errno.ERANGE) /\
    (r <> 0 -> s' = {| data := Some [7; 8]; top := 2; size := 2 |}).
Proof.
  assert (Hok : stack_ok {| data := Some [7; 8]; top := 2; size := 2 |})
    by (unfold stack_ok, C.INT_MAX; cbn; lia).
  destruct (main_is_safe (fun _ => 5) true None KNull ["kernel_stack"; "push"; "5"] _ Hok)
    as (r & out & s' & Hrun & _ & Hr & Hs & _).
  exists r, out, s'. auto.
Defined.

Ltac run_main :=
  unfold main;
  cbn -[stack_ioctl stack_write stack_read unwind_loop syscall C.int_bytes
        C.int_of_bytes Z.leb Z.ltb Z.eqb Z.opp IOCTL_SET_SIZE].

(** X7: [kernel_stack set-size a].  When [atoi a <= 0] the utility refuses
    by itself: it prints "ERROR: size should be > 0", returns 1 and makes no
    system call, so the stack is as it was.  Otherwise, for [atoi a] an
    [int], the stack is resized as the ioctl does it when the allocation
    succeeds (return 0, nothing printed), and when it fails the utility
    reports [ENOMEM] through [perror] and returns 1 (the opposite of the -1
    that [ioctl] returned, not of the error number), the stack as it was. *)
Theorem cli_set_size (atoi : string -> Z) (fuel : nat) (prog a : string) (s : stack) :
  stack_ok s ->
  (atoi a <= 0 ->
   forall k, main atoi fuel true None k [prog; "set-size"; a] s
             = Some (1, [Printf "ERROR: size should be > 0"], s)) /\
  (0 < atoi a <= C.INT_MAX ->
   (forall junk, exists s',
      main atoi fuel true None (KBlock junk) [prog; "set-size"; a] s = Some (0, [], s') /\
      stack_ok s' /\ size s' = atoi a /\ top s' = Z.min (top s) (atoi a) /\
      elements s' = take (Z.to_nat (atoi a)) (elements s)) /\
   main atoi fuel true None KNull [prog; "set-size"; a] s
   = Some (1, [Perror "ERROR: failed to set stack size" Errno.ENOMEM], s)).
Proof.
  intros Hok. split.
  - intros Hn k. run_main.
    destruct (Z.leb_spec (atoi a) 0); [reflexivity | lia].
  - intros Hn.
    assert (Hb : (4 <= length (C.int_bytes (atoi a)))%nat)
      by (rewrite int_bytes_length; lia).
    assert (Hv : C.int_of_bytes (C.int_bytes (atoi a)) = atoi a).
    { apply int_of_bytes_int_bytes. unfold C.int_range, C.INT_MIN, C.INT_MAX in *. lia. }
    split.
    + intros junk. run_main.
      destruct (Z.leb_spec (atoi a) 0); [lia|].
      destruct (stack_ioctl_elements (C.int_bytes (atoi a)) junk s Hok Hb)
        as (s' & Hi & Hok' & Hs & Ht & He); [lia|].
      rewrite Hi. cbn [mbind option_bind]. unfold syscall.
      change (0 <? 0) with false. cbv iota.
      exists s'. split; [reflexivity|]. split; [exact Hok'|].
      rewrite Hv in *. split; [exact Hs|]. split; [exact Ht|].
      rewrite He. pose proof (elements_length s Hok) as Hlen.
      destruct (Z.le_gt_cases (top s) (atoi a)).
      * rewrite !take_ge by lia. reflexivity.
      * f_equal. lia.
    + run_main.
      destruct (Z.leb_spec (atoi a) 0); [lia|].
      rewrite stack_ioctl_nomem by (exact Hb || lia).
      cbn [mbind option_bind]. unfold syscall. reflexivity.
Qed.

Lemma cli_set_size_witness :
  main (fun _ => -1) 0 true None KNull ["kernel_stack"; "set-size"; "-1"] stack0
  = Some (1, [Printf "ERROR: size should be > 0"], stack0) /\
  main (fun _ => 2) 0 true None KNull ["kernel_stack"; "set-size"; "2"] stack0
  = Some (1, [Perror "ERROR: failed to set stack size" Errno.ENOMEM], stack0).
Proof.
  split.
  - apply (proj1 (cli_set_size (fun _ => -1) 0 "kernel_stack" "-1" _ stack_ok_stack0)). lia.
  - apply (proj2 (cli_set_size (fun _ => 2) 0 "kernel_stack" "2" _ stack_ok_stack0)).
    unfold C.INT_MAX. lia.
Defined.

(** X8: [kernel_stack push a].  With room on the stack the value
    [atoi a] (as an [int]) is appended, nothing is printed and 0 is
    returned; on a full stack (or one never sized) the utility prints
    "ERROR: stack is full", returns [-ERANGE], which the shell shows as exit
    status 222, and the stack is as it was. *)
Theorem cli_push (atoi : string -> Z) (fuel : nat) (k : kmalloc_answer)
    (prog a : string) (s : stack) :
  stack_ok s ->
  (top s < size s ->
   exists s',
     main atoi fuel true None k [prog; "push"; a] s = Some (0, [], s') /\
     stack_ok s' /\ elements s' = elements s ++ [C.int_wrap (atoi a)] /\
     top s' = top s + 1 /\ size s' = size s) /\
  (top s = size s ->
   main atoi fuel true None k [prog; "push"; a] s
   = Some (- Errno.ERANGE, [Printf "ERROR: stack is full"], s) /\
   exit_status (- Errno.ERANGE) = 222).
Proof.
  intros Hok. split.
  - intros Hroom. run_main.
    destruct (write_int (atoi a) s Hok) as [[Hfull _]|[_ (s' & Hw & Hrest)]]; [lia|].
    rewrite Hw. cbn [mbind option_bind]. unfold syscall.
    change (C.sizeof_int <? 0) with false. cbv iota.
    exists s'. split; [reflexivity | exact Hrest].
  - intros Hfull. split; [|reflexivity]. run_main.
    destruct (write_int (atoi a) s Hok) as [[_ Hw]|[Hroom _]]; [|lia].
    rewrite Hw. cbn [mbind option_bind]. unfold syscall.
    change (- Errno.ERANGE <? 0) with true. cbv iota.
    change (-1 <? 0) with true. rewrite Z.opp_involutive, Z.eqb_refl. reflexivity.
Qed.

Lemma cli_push_witness :
  main (fun _ => 3) 0 true None KNull ["kernel_stack"; "push"; "3"]
       {| data := Some [1; 2]; top := 2; size := 2 |}
  = Some (- Errno.ERANGE, [Printf "ERROR: stack is full"],
          {| data := Some [1; 2]; top := 2; size := 2 |}) /\
  exit_status (- Errno.ERANGE) = 222.
Proof.
  assert (Hok : stack_ok {| data := Some [1; 2]; top := 2; size := 2 |})
    by (unfold stack_ok, C.INT_MAX; cbn; lia).
  exact (proj2 (cli_push (fun _ => 3) 0 KNull "kernel_stack" "3" _ Hok) eq_refl).
Defined.

(** X9: [kernel_stack pop].  On an empty stack it prints "NULL" and returns
    0, the stack as it was; on a stack whose elements are [es ++ [v]] it
    prints [v] (as an [int]), returns 0 and leaves [es]. *)
Theorem cli_pop (atoi : string -> Z) (fuel : nat) (k : kmalloc_answer)
    (prog : string) (s : stack) :
  stack_ok s ->
  (top s = 0 ->
   main atoi fuel true None k [prog; "pop"] s = Some (0, [Printf "NULL"], s)) /\
  (forall es v, elements s = es ++ [v] ->
   exists s',
     main atoi fuel true None k [prog; "pop"] s
     = Some (0, [PrintfInt (C.int_wrap v)], s') /\
     stack_ok s' /\ elements s' = es /\ size s' = size s).
Proof.
  intros Hok. split.
  - intros Hz. run_main. rewrite stack_read_empty by exact Hz.
    cbn [mbind option_bind ret]. unfold syscall. reflexivity.
  - intros es v Hel. run_main.
    destruct (stack_read_top 4 s es v Hok (Nat.le_refl _) Hel)
      as (s' & Hr & Hok' & _ & Hs & He).
    rewrite Hr. cbn [mbind option_bind ret to_user]. unfold syscall.
    change (C.sizeof_int <? 0) with false. cbv iota.
    change (C.sizeof_int =? 0) with false. cbv iota.
    rewrite int_of_bytes_int_bytes_wrap.
    exists s'. auto.
Qed.

Lemma cli_pop_witness :
  main (fun _ => 0) 0 true None KNull ["kernel_stack"; "pop"] stack0
  = Some (0, [Printf "NULL"], stack0).
Proof.
  exact (proj1 (cli_pop (fun _ => 0) 0 KNull "kernel_stack" _ stack_ok_stack0) eq_refl).
Defined.

(** X10: [kernel_stack unwind], with fuel for one [read] more than there
    are elements: it prints the elements (as [int]s) from the top down, one
    per line, returns 0, and leaves the stack empty with its block and its
    size as they were. *)
Theorem cli_unwind (atoi : string -> Z) (fuel : nat) (k : kmalloc_answer)
    (prog : string) (s : stack) :
  stack_ok s -> (Z.to_nat (top s) < fuel)%nat ->
  main atoi fuel true None k [prog; "unwind"] s
  = Some (0, map (fun v => PrintfInt (C.int_wrap v)) (rev (elements s)),
          {| data := data s; top := 0; size := size s |}) /\
  elements {| data := data s; top := 0; size := size s |} = [].
Proof.
  intros Hok Hfuel. split.
  - run_main. pose proof Hok as (Ht & _).
    rewrite (unwind_loop_drains (Z.to_nat (top s))) by (exact Hok || lia).
    reflexivity.
  - unfold elements. cbn [top Z.to_nat]. apply take_0.
Qed.

Lemma cli_unwind_witness :
  main (fun _ => 0) 4 true None KNull ["kernel_stack"; "unwind"]
       {| data := Some [1; 2; 3]; top := 3; size := 3 |}
  = Some (0, [PrintfInt 3; PrintfInt 2; PrintfInt 1],
          {| data := Some [1; 2; 3]; top := 0; size := 3 |}).
Proof.
  assert (Hok : stack_ok {| data := Some [1; 2; 3]; top := 3; size := 3 |})
    by (unfold stack_ok, C.INT_MAX; cbn; lia).
  assert (Hfuel : (Z.to_nat 3 < 4)%nat) by (cbn; lia).
  exact (proj1 (cli_unwind (fun _ => 0) 4 KNull "kernel_stack" _ Hok Hfuel)).
Defined.

(** * The key *)

Lemma C_int_wrap_idem v : C.int_wrap (C.int_wrap v) = C.int_wrap v.
Proof. apply int_wrap_id, int_wrap_range. Qed.

Lemma with_stack_same m : with_stack m (the_stack m) = m.
Proof. destruct m; reflexivity. Qed.

Lemma usb_key_probe_stack k m : the_stack (snd (usb_key_probe k m)) = the_stack m.
Proof.
  unfold usb_key_probe. cbn [major_number stack_class stack_device the_stack].
  destruct (register_chrdev_ret k <? 0); [reflexivity|].
  destruct (IS_ERR (class_create_ret k)); [reflexivity|].
  destruct (IS_ERR (device_create_ret k)); reflexivity.
Qed.

Lemma usb_key_probe_success k m :
  0 <= register_chrdev_ret k -> IS_ERR (class_create_ret k) = false ->
  IS_ERR (device_create_ret k) = false ->
  fst (fst (usb_key_probe k m)) = 0.
Proof.
  intros Hr Hc Hd. unfold usb_key_probe. cbn [major_number stack_class stack_device].
  destruct (Z.ltb_spec (register_chrdev_ret k) 0); [lia|].
  rewrite Hc, Hd. reflexivity.
Qed.

(** X11: the stack outlives the key.  A value pushed while the key is in
    stays on the stack when the key is removed; while the key is out every
    run of the utility, whatever its arguments, only reports that the key
    is not inserted, returns 1 and changes nothing; whatever happens to a
    probe, it leaves the stack alone; and once a probe has succeeded again a
    pop prints the value that was pushed before the removal. *)
Theorem stack_outlives_the_key (atoi : string -> Z) (fuel : nat)
    (ka : kmalloc_answer) (k : probe_answers) (prog a : string) (m : machine) :
  node m = true -> stack_ok (the_stack (modst m)) ->
  top (the_stack (modst m)) < size (the_stack (modst m)) ->
  0 <= register_chrdev_ret k -> IS_ERR (class_create_ret k) = false ->
  IS_ERR (device_create_ret k) = false ->
  exists m1,
    cli atoi fuel None ka [prog; "push"; a] m = Some (0, [], m1) /\
    (forall fuel' open_errno ka' argv,
       cli atoi fuel' open_errno ka' argv (remove_key m1)
       = Some (1, [Stderr "error: USB key not inserted"], remove_key m1)) /\
    (forall k', the_stack (modst (insert_key k' (remove_key m1))) = the_stack (modst m1)) /\
    node (insert_key k (remove_key m1)) = true /\
    exists m2,
      cli atoi fuel None ka [prog; "pop"] (insert_key k (remove_key m1))
      = Some (0, [PrintfInt (C.int_wrap (atoi a))], m2) /\
      elements (the_stack (modst m2)) = elements (the_stack (modst m)).
Proof.
  intros Hnode Hok Hroom Hreg Hcls Hdev.
  destruct (write_int (atoi a) _ Hok) as [[Hfull _]|[_ (s1 & Hw & Hok1 & Hel1 & _)]]; [lia|].
  exists {| modst := with_stack (modst m) s1; node := node m |}.
  split.
  { unfold cli. rewrite Hnode. run_main. rewrite Hw. cbn [mbind option_bind].
    unfold syscall. change (C.sizeof_int <? 0) with false. cbv iota.
    cbn [mbind option_bind]. reflexivity. }
  split.
  { intros fuel' open_errno ka' argv. unfold cli, remove_key. cbn [node modst main negb].
    cbn [mbind option_bind usb_key_disconnect snd]. rewrite with_stack_same. reflexivity. }
  split.
  { intros k'. unfold insert_key, remove_key. cbn [modst usb_key_disconnect snd].
    pose proof (usb_key_probe_stack k' (with_stack (modst m) s1)) as Hp.
    destruct (usb_key_probe k' (with_stack (modst m) s1)) as [[r tr] ms].
    cbn [modst snd] in *. exact Hp. }
  assert (Hins : exists ms,
             insert_key k (remove_key {| modst := with_stack (modst m) s1; node := node m |})
             = {| modst := ms; node := true |} /\ the_stack ms = s1).
  { unfold insert_key, remove_key. cbn [modst usb_key_disconnect snd node].
    pose proof (usb_key_probe_stack k (with_stack (modst m) s1)) as Hp.
    pose proof (usb_key_probe_success k (with_stack (modst m) s1) Hreg Hcls Hdev) as Hs.
    destruct (usb_key_probe k (with_stack (modst m) s1)) as [[r tr] ms].
    cbn [fst snd] in *. subst r. exists ms. split; [reflexivity | exact Hp]. }
  destruct Hins as (ms & -> & Hms). split; [reflexivity|].
  destruct (stack_read_top 4 s1 _ _ Hok1 (Nat.le_refl _) Hel1)
    as (s2 & Hr & Hok2 & _ & _ & He2).
  exists {| modst := with_stack ms s2; node := true |}. split.
  - unfold cli. cbn [node modst]. rewrite Hms. run_main. rewrite Hr.
    cbn [mbind option_bind ret to_user]. unfold syscall.
    change (C.sizeof_int <? 0) with false. cbv iota.
    change (C.sizeof_int =? 0) with false. cbv iota.
    rewrite int_of_bytes_int_bytes_wrap. cbn [mbind option_bind].
    rewrite C_int_wrap_idem. reflexivity.
  - cbn [modst with_stack the_stack]. exact He2.
Qed.

Lemma stack_outlives_the_key_witness :
  exists m1,
    cli (fun _ => 5) 0 None KNull ["kernel_stack"; "push"; "5"]
        {| modst := {| the_stack := {| data := Some [0]; top := 0; size := 1 |};
                       major_number := 240; stack_class := 1000; stack_device := 2000 |};
           node := true |}
    = Some (0, [], m1) /\
    exists m2,
      cli (fun _ => 5) 0 None KNull ["kernel_stack"; "pop"]
          (insert_key {| register_chrdev_ret := 241; class_create_ret := 1001;
                         device_create_ret := 2001 |} (remove_key m1))
      = Some (0, [PrintfInt 5], m2).
Proof.
  assert (Hok : stack_ok {| data := Some [0]; top := 0; size := 1 |})
    by (unfold stack_ok, C.INT_MAX; cbn; lia).
  assert (Hroom : top {| data := Some [0]; top := 0; size := 1 |}
                  < size {| data := Some [0]; top := 0; size := 1 |}) by (cbn; lia).
  assert (Hreg : 0 <= 241) by lia.
  destruct (stack_outlives_the_key (fun _ => 5) 0 KNull
              {| register_chrdev_ret := 241; class_create_ret := 1001;
                 device_create_ret := 2001 |} "kernel_stack" "5"
              {| modst := {| the_stack := {| data := Some [0]; top := 0; size := 1 |};
                             major_number := 240; stack_class := 1000;
                             stack_device := 2000 |};
                 node := true |} eq_refl Hok Hroom Hreg eq_refl eq_refl)
    as (m1 & Hpush & _ & _ & _ & m2 & Hpop & _).
  exists m1. split; [exact Hpush|]. exists m2. exact Hpop.
Defined.

(** X12: what [usb_key_probe] registers it gives up again.  A probe returns
    0 or a negative value.  When it returns 0 it holds the character device
    number, the class and the device it created, and the [usb_key_disconnect]
    that follows releases exactly these three, device first, and nothing
    that is not held.  When it fails, every registration that had succeeded
    before the failure has been undone and nothing is held. *)
Theorem probe_registrations_balance (k : probe_answers) (m : module_state) :
  let r := fst (fst (usb_key_probe k m)) in
  let calls := snd (fst (usb_key_probe k m)) in
  let m' := snd (usb_key_probe k m) in
  (r = 0 /\
   registry_run k [] calls
   = Some [Device (class_create_ret k) (register_chrdev_ret k);
           Class (class_create_ret k); Chrdev (register_chrdev_ret k)] /\
   registry_run k [] (calls ++ fst (usb_key_disconnect m')) = Some []) \/
  (r < 0 /\ registry_run k [] calls = Some []).
Proof.
  assert (Hneg : forall p, IS_ERR p = true -> PTR_ERR p < 0).
  { intros p Hp. unfold IS_ERR, Errno.MAX_ERRNO in Hp. unfold PTR_ERR.
    apply andb_true_iff in Hp as [H1 H2].
    apply Z.leb_le in H1. apply Z.ltb_lt in H2.
    rewrite int_wrap_id by (unfold C.int_range, C.INT_MIN, C.INT_MAX; lia). exact H2. }
  unfold usb_key_probe. cbn [major_number stack_class stack_device the_stack].
  destruct (Z.ltb_spec (register_chrdev_ret k) 0) as [Hr|Hr].
  - right. cbn [fst snd registry_run registry_step mbind option_bind].
    destruct (Z.ltb_spec (register_chrdev_ret k) 0); [|lia]. auto.
  - destruct (IS_ERR (class_create_ret k)) eqn:Hc.
    + right. cbn [fst snd registry_run registry_step mbind option_bind].
      destruct (Z.ltb_spec (register_chrdev_ret k) 0); [lia|]. rewrite Hc.
      cbn [registry_run registry_step mbind option_bind release].
      rewrite decide_True by reflexivity. cbn [registry_run mbind option_bind]. auto.
    + destruct (IS_ERR (device_create_ret k)) eqn:Hd.
      * right. cbn [fst snd registry_run registry_step mbind option_bind].
        destruct (Z.ltb_spec (register_chrdev_ret k) 0); [lia|]. rewrite Hc, Hd.
        cbn [registry_run registry_step mbind option_bind release].
        rewrite decide_True by reflexivity.
        cbn [registry_run registry_step mbind option_bind release].
        rewrite decide_True by reflexivity. cbn [registry_run mbind option_bind]. auto.
      * left. cbn [fst snd registry_run registry_step mbind option_bind app
                   usb_key_disconnect stack_class major_number].
        destruct (Z.ltb_spec (register_chrdev_ret k) 0); [lia|]. rewrite Hc, Hd.
        cbn [registry_run registry_step mbind option_bind release].
        rewrite !decide_True by reflexivity.
        cbn [registry_run registry_step mbind option_bind release].
        rewrite !decide_True by reflexivity.
        cbn [registry_run registry_step mbind option_bind release].
        rewrite !decide_True by reflexivity.
        cbn [registry_run mbind option_bind]. auto.
Qed.

(** * Loading, unloading and the heap *)

Lemma heap_run_app hs1 : forall hs2 live,
  heap_run live (hs1 ++ hs2) = (live' ← heap_run live hs1; heap_run live' hs2).
Proof.
  induction hs1 as [|h hs1 IH]; intros hs2 live; cbn [app heap_run mbind option_bind].
  - reflexivity.
  - destruct (heap_step live h) as [live1|]; cbn [mbind option_bind]; [apply IH | reflexivity].
Qed.

(** One call on the device: the allocator calls it makes leave live, of the
    data blocks, exactly the one that the stack points to. *)
Lemma heap_of_call_live c s L :
  stack_ok s ->
  exists r s',
    handle c s = Some (r, s') /\ stack_ok s' /\
    heap_run (data_live s ++ L) (heap_of_call c s) = Some (data_live s' ++ L).
Proof.
  intros Hok. destruct c as [w count|buf count|cmd arg k]; cbn [handle heap_of_call heap_run].
  - destruct (stack_read_ok w count s Hok) as (r & s' & Hr & Hok').
    exists r, s'. split; [exact Hr|]. split; [exact Hok'|].
    destruct (Z.eq_dec count C.sizeof_int) as [->|Hc].
    + destruct (Z.eq_dec (top s) 0) as [Hz|Hnz].
      * rewrite stack_read_empty in Hr by exact Hz. injection Hr as <- <-. reflexivity.
      * destruct (stack_read_pop w s Hok Hnz) as (block & v & Hd & _ & Hr').
        rewrite Hr in Hr'. injection Hr' as _ ->.
        unfold data_live. cbn [data]. rewrite Hd. reflexivity.
    + rewrite stack_read_count in Hr by exact Hc. injection Hr as <- <-. reflexivity.
  - destruct (stack_write_ok buf count s Hok) as (r & s' & Hw & Hok').
    rewrite Hw. cbn [mbind option_bind].
    do 2 eexists. split; [reflexivity|]. split; [exact Hok'|].
    destruct (Z.eq_dec count C.sizeof_int) as [->|Hc].
    + destruct (Nat.lt_ge_cases (length buf) 4) as [Hb|Hb].
      * rewrite stack_write_fault in Hw by exact Hb. injection Hw as <- <-. reflexivity.
      * destruct (Z.lt_ge_cases (top s) (size s)) as [Hroom|Hfull].
        -- destruct (stack_write_push buf s Hok Hb Hroom) as (block & Hd & Hw').
           rewrite Hw in Hw'. injection Hw' as _ ->.
           unfold data_live. cbn [data]. rewrite Hd. reflexivity.
        -- rewrite stack_write_full in Hw by assumption. injection Hw as <- <-. reflexivity.
    + rewrite stack_write_count in Hw by exact Hc. injection Hw as <- <-. reflexivity.
  - destruct (stack_ioctl_ok cmd arg k s Hok) as (r & s' & Hi & Hok').
    rewrite Hi. cbn [mbind option_bind].
    do 2 eexists. split; [reflexivity|]. split; [exact Hok'|].
    unfold stack_ioctl_heap.
    destruct (Z.eqb_spec cmd IOCTL_SET_SIZE) as [->|Hc]; cbn [negb].
    2:{ rewrite stack_ioctl_cmd in Hi by exact Hc. injection Hi as <- <-. reflexivity. }
    destruct (Nat.lt_ge_cases (length arg) 4) as [Hb|Hb].
    { rewrite stack_ioctl_fault in Hi by exact Hb. injection Hi as <- <-.
      pose proof (copy_from_user_fault arg Hb) as Hf.
      destruct (copy_from_user arg C.sizeof_int) as [missed bytes]. cbn [fst] in Hf.
      destruct (Z.eqb_spec missed 0); [contradiction | reflexivity]. }
    rewrite copy_from_user_ok by exact Hb. rewrite Z.eqb_refl. cbn [negb].
    assert (Heq : C.int_of_bytes (take 4 arg) = C.int_of_bytes arg).
    { unfold C.int_of_bytes. rewrite take_take, Nat.min_id. reflexivity. }
    rewrite Heq.
    destruct (Z.leb_spec (C.int_of_bytes arg) 0) as [Hn|Hn].
    { rewrite stack_ioctl_nonpositive in Hi by assumption. injection Hi as <- <-.
      reflexivity. }
    destruct k as [|junk]; cbn [kmalloc].
    { rewrite stack_ioctl_nomem in Hi by assumption. injection Hi as <- <-. reflexivity. }
    rewrite stack_ioctl_resize in Hi by assumption. injection Hi as _ <-.
    unfold data_live at 2. cbn [data].
    unfold data_live. destruct (data s); reflexivity.
Qed.

Lemma heap_of_calls_live cs : forall s L,
  stack_ok s ->
  exists rs s',
    replies_of cs s = Some (rs, s') /\ stack_ok s' /\
    heap_run (data_live s ++ L) (heap_of_calls cs s) = Some (data_live s' ++ L).
Proof.
  induction cs as [|c cs IH]; intros s L Hok; cbn [replies_of heap_of_calls heap_run].
  - exists [], s. auto.
  - destruct (heap_of_call_live c s L Hok) as (r & s1 & Hh & Hok1 & Hrun1).
    unfold after. rewrite Hh. cbn [mbind option_bind fmap option_fmap option_map snd].
    destruct (IH s1 L Hok1) as (rs & s' & -> & Hok' & Hrun).
    cbn [mbind option_bind].
    exists (r :: rs), s'. split; [reflexivity|]. split; [exact Hok'|].
    rewrite heap_run_app, Hrun1. cbn [mbind option_bind]. exact Hrun.
Qed.

(** One call on the device, block by block: its allocator calls are
    legitimate and leave live exactly the blocks that the module points to;
    block numbers are not reused. *)
Lemma blocks_of_call_live c p fresh :
  (stack_ptr p < fresh)%nat ->
  (forall d, data_ptr p = Some d -> (d < fresh)%nat /\ d <> stack_ptr p) ->
  exists os p' fresh',
    blocks_of_call c p fresh = (os, p', fresh') /\
    bheap_run (pointed p) os = Some (pointed p') /\
    stack_ptr p' = stack_ptr p /\ (stack_ptr p' < fresh')%nat /\
    (forall d, data_ptr p' = Some d -> (d < fresh')%nat /\ d <> stack_ptr p').
Proof.
  intros Hsp Hdp.
  assert (Hsame : exists os p' fresh',
             ([] : list bop, p, fresh) = (os, p', fresh') /\
             bheap_run (pointed p) os = Some (pointed p') /\
             stack_ptr p' = stack_ptr p /\ (stack_ptr p' < fresh')%nat /\
             (forall d, data_ptr p' = Some d -> (d < fresh')%nat /\ d <> stack_ptr p')).
  { exists [], p, fresh. auto. }
  destruct c as [w count|buf count|cmd arg k]; cbn [blocks_of_call]; try exact Hsame.
  unfold stack_ioctl_blocks.
  destruct (negb (cmd =? IOCTL_SET_SIZE)); [exact Hsame|].
  destruct (copy_from_user arg C.sizeof_int) as [missed bytes].
  destruct (negb (missed =? 0)); [exact Hsame|].
  destruct (C.int_of_bytes bytes <=? 0); [exact Hsame|].
  destruct (kmalloc k _) as [new_data|].
  - cbv zeta. do 3 eexists. split; [reflexivity|]. cbn [stack_ptr data_ptr].
    split; [|split; [reflexivity|split; [lia|]]].
    + unfold pointed. cbn [stack_ptr data_ptr].
      destruct (data_ptr p) as [d|] eqn:Hd; cbn [app bheap_run bheap_step].
      * destruct (Hdp d eq_refl) as [Hlt Hne].
        rewrite decide_False by (rewrite !elem_of_cons, elem_of_nil; lia).
        cbn [mbind option_bind bheap_run bheap_step bfree].
        rewrite decide_False by lia. rewrite decide_True by reflexivity.
        reflexivity.
      * rewrite decide_False by (rewrite !elem_of_cons, elem_of_nil; lia).
        reflexivity.
    + intros d [= <-]. lia.
  - exists [Bmalloc None], p, fresh. auto.
Qed.

Lemma bheap_run_app os1 : forall os2 live,
  bheap_run live (os1 ++ os2) = (live' ← bheap_run live os1; bheap_run live' os2).
Proof.
  induction os1 as [|o os1 IH]; intros os2 live; cbn [app bheap_run mbind option_bind].
  - reflexivity.
  - destruct (bheap_step live o) as [live1|]; cbn [mbind option_bind]; [apply IH | reflexivity].
Qed.

Lemma blocks_of_calls_live cs : forall p fresh,
  (stack_ptr p < fresh)%nat ->
  (forall d, data_ptr p = Some d -> (d < fresh)%nat /\ d <> stack_ptr p) ->
  exists os p' fresh',
    blocks_of_calls cs p fresh = (os, p', fresh') /\
    bheap_run (pointed p) os = Some (pointed p') /\
    stack_ptr p' = stack_ptr p.
Proof.
  induction cs as [|c cs IH]; intros p fresh Hsp Hdp; cbn [blocks_of_calls].
  - exists [], p, fresh. auto.
  - destruct (blocks_of_call_live c p fresh Hsp Hdp)
      as (os & p1 & fresh1 & -> & Hrun1 & Hs1 & Hsp1 & Hdp1).
    destruct (IH p1 fresh1 Hsp1 Hdp1) as (os' & p' & fresh' & -> & Hrun & Hs).
    exists (os ++ os'), p', fresh'. split; [reflexivity|].
    split; [|congruence].
    rewrite bheap_run_app, Hrun1. cbn [mbind option_bind]. exact Hrun.
Qed.

(** The pointer [stack->data] of this account is NULL exactly when the
    stack of the handlers has no block. *)
Lemma blocks_of_call_agree c s p fresh :
  stack_ok s -> (is_Some (data s) <-> is_Some (data_ptr p)) ->
  exists r s',
    handle c s = Some (r, s') /\ stack_ok s' /\
    (is_Some (data s') <-> is_Some (data_ptr (snd (fst (blocks_of_call c p fresh))))).
Proof.
  intros Hok Hag.
  destruct (heap_of_call_live c s [] Hok) as (r & s' & Hh & Hok' & Hrun).
  exists r, s'. split; [exact Hh|]. split; [exact Hok'|].
  rewrite !app_nil_r in Hrun.
  assert (Hkeep : heap_run (data_live s) [] = Some (data_live s') ->
                  is_Some (data s') <-> is_Some (data_ptr p)).
  { intros [= Hk]. rewrite <- Hag. unfold data_live in Hk.
    destruct (data s), (data s'); try discriminate;
      split; intros [x Hx]; try discriminate; eauto. }
  destruct c as [w count|buf count|cmd arg k]; cbn [blocks_of_call heap_of_call fst snd] in *.
  - exact (Hkeep Hrun).
  - exact (Hkeep Hrun).
  - unfold stack_ioctl_heap in Hrun. unfold stack_ioctl_blocks.
    destruct (negb (cmd =? IOCTL_SET_SIZE)); [exact (Hkeep Hrun)|].
    destruct (copy_from_user arg C.sizeof_int) as [missed bytes].
    destruct (negb (missed =? 0)); [exact (Hkeep Hrun)|].
    destruct (C.int_of_bytes bytes <=? 0); [exact (Hkeep Hrun)|].
    destruct (kmalloc k _) as [new_data|].
    + cbn [fst snd data_ptr]. split; [eauto|]. intros _.
      unfold data_live in Hrun.
      destruct (data s), (data s'); cbn in Hrun; try discriminate; eauto.
    + cbn [fst snd]. apply Hkeep.
      cbn [heap_run heap_step mbind option_bind] in Hrun. exact Hrun.
Qed.

Lemma blocks_of_calls_agree cs : forall s p fresh,
  stack_ok s -> (is_Some (data s) <-> is_Some (data_ptr p)) ->
  exists rs s',
    replies_of cs s = Some (rs, s') /\
    (is_Some (data s') <-> is_Some (data_ptr (snd (fst (blocks_of_calls cs p fresh))))).
Proof.
  induction cs as [|c cs IH]; intros s p fresh Hok Hag; cbn [replies_of blocks_of_calls].
  - exists [], s. auto.
  - destruct (blocks_of_call_agree c s p fresh Hok Hag) as (r & s1 & -> & Hok1 & Hag1).
    cbn [mbind option_bind].
    destruct (blocks_of_call c p fresh) as [[os p1] fresh1]. cbn [fst snd] in Hag1.
    destruct (IH s1 p1 fresh1 Hok1 Hag1) as (rs & s' & -> & Hag').
    cbn [mbind option_bind].
    destruct (blocks_of_calls cs p1 fresh1) as [[os' p'] fresh']. cbn [fst snd] in *.
    exists (r :: rs), s'. auto.
Qed.

(** X13: over the life of the module of [int_stack.c] the allocator calls
    balance, block by block (blocks are told apart: each successful
    [kmalloc] returns a new one).  A [stack_init] that fails leaves no
    block behind.  After a [stack_init] that succeeds and any sequence of
    calls on the device, the live blocks are exactly the struct and the
    block that [stack->data] points to, every [kfree] so far was of a live
    block, and [stack_exit] then frees these blocks and leaves none: every
    block obtained from [kmalloc] is given to [kfree] exactly once.  The
    pointer [stack->data] is non-NULL exactly when the stack of the
    handlers has a block. *)
Theorem module_heap_balance (cs : list call) (b0 : nat) :
  (forall r, bheap_run [] (fst (stack_init_blocks false r b0)) = Some []) /\
  (forall r, r <> 0 -> bheap_run [] (fst (stack_init_blocks true r b0)) = Some []) /\
  exists p0 os p fresh,
    stack_init_blocks true 0 b0 = ([Bmalloc (Some b0)], Some p0) /\
    blocks_of_calls cs p0 (S b0) = (os, p, fresh) /\
    bheap_run [] ([Bmalloc (Some b0)] ++ os) = Some (pointed p) /\
    bheap_run [] ([Bmalloc (Some b0)] ++ os ++ stack_exit_blocks p) = Some [] /\
    exists rs s',
      replies_of cs stack0 = Some (rs, s') /\
      (is_Some (data s') <-> is_Some (data_ptr p)).
Proof.
  split.
  { intros r. reflexivity. }
  split.
  { intros r Hr. unfold stack_init_blocks. cbn [negb].
    destruct (Z.eqb_spec r 0); [contradiction|]. cbn [negb fst bheap_run bheap_step].
    rewrite decide_False by apply not_elem_of_nil.
    cbn [mbind option_bind bheap_run bheap_step bfree].
    rewrite decide_True by reflexivity. reflexivity. }
  set (p0 := {| stack_ptr := b0; data_ptr := None |}).
  destruct (blocks_of_calls_live cs p0 (S b0)) as (os & p & fresh & Hbl & Hrun & Hsp).
  { cbn. lia. }
  { intros d Hd. discriminate. }
  exists p0, os, p, fresh. split; [reflexivity|]. split; [exact Hbl|].
  assert (Hfirst : bheap_run [] ([Bmalloc (Some b0)] ++ os) = Some (pointed p)).
  { cbn [app bheap_run bheap_step].
    rewrite decide_False by apply not_elem_of_nil.
    cbn [mbind option_bind]. exact Hrun. }
  split; [exact Hfirst|]. split.
  - rewrite app_assoc, bheap_run_app, Hfirst. cbn [mbind option_bind].
    unfold stack_exit_blocks, pointed.
    destruct (data_ptr p) as [d|]; cbn [app bheap_run bheap_step bfree].
    + rewrite decide_True by reflexivity. cbn [mbind option_bind bheap_run bheap_step bfree].
      rewrite decide_True by reflexivity. reflexivity.
    + rewrite decide_True by reflexivity. reflexivity.
  - destruct (blocks_of_calls_agree cs stack0 p0 (S b0) stack_ok_stack0)
      as (rs & s' & Hrs & Hag).
    { cbn. split; intros [x Hx]; discriminate. }
    rewrite Hbl in Hag. cbn [fst snd] in Hag. exists rs, s'. auto.
Qed.

(** A resize of a stack that has a block: the new block is allocated, the
    old one freed, and the new one is the one left. *)
Example resize_frees_the_old_block :
  blocks_of_calls [CIoctl IOCTL_SET_SIZE (C.int_bytes 2) (KBlock (fun _ => 0));
                   CWrite (C.int_bytes 1) 4;
                   CIoctl IOCTL_SET_SIZE (C.int_bytes 3) (KBlock (fun _ => 0));
                   CIoctl IOCTL_SET_SIZE (C.int_bytes 4) KNull]
                  {| stack_ptr := 0; data_ptr := None |} 1
  = ([Bmalloc (Some 1%nat); Bmalloc (Some 2%nat); Bfree 1; Bmalloc None],
     {| stack_ptr := 0; data_ptr := Some 2%nat |}, 3%nat).
Proof. vm_compute. reflexivity. Qed.

(** Freeing the new block instead of the old one would not pass: the block
    is freed again at [stack_exit]. *)
Example freeing_the_new_block_is_caught :
  bheap_run [] ([Bmalloc (Some 0%nat); Bmalloc (Some 1%nat); Bmalloc (Some 2%nat); Bfree 2]
                ++ stack_exit_blocks {| stack_ptr := 0; data_ptr := Some 2%nat |}) = None.
Proof. vm_compute. reflexivity. Qed.

(** X14: the module before the USB key.  Its [stack_init] returns 0 or a
    negative value; when it fails, every registration that had succeeded
    has been undone and the [struct stack] freed; when it succeeds the stack
    is the empty one and, after any calls on the device, its [stack_exit]
    releases the three registrations and frees the data block and the
    [struct stack], each once, and nothing that is not held or live. *)
Theorem legacy_load_unload (alloc : bool) (k : probe_answers) (cs : list call) :
  let r := fst (fst (Legacy.stack_init alloc k)) in
  let calls := snd (fst (Legacy.stack_init alloc k)) in
  match snd (Legacy.stack_init alloc k) with
  | None =>
      r < 0 /\ registry_run k [] (reg_of calls) = Some [] /\
      heap_run [] (heap_of calls) = Some []
  | Some m =>
      r = 0 /\ the_stack m = stack0 /\
      exists rs s',
        replies_of cs stack0 = Some (rs, s') /\
        registry_run k [] (reg_of (calls ++ Legacy.stack_exit (with_stack m s')))
        = Some [] /\
        heap_run [] (heap_of calls ++ heap_of_calls cs stack0
                     ++ heap_of (Legacy.stack_exit (with_stack m s'))) = Some []
  end.
Proof.
  assert (Hneg : forall p, IS_ERR p = true -> PTR_ERR p < 0).
  { intros p Hp. unfold IS_ERR, Errno.MAX_ERRNO in Hp. unfold PTR_ERR.
    apply andb_true_iff in Hp as [H1 H2].
    apply Z.leb_le in H1. apply Z.ltb_lt in H2.
    rewrite int_wrap_id by (unfold C.int_range, C.INT_MIN, C.INT_MAX; lia). exact H2. }
  unfold Legacy.stack_init.
  destruct alloc; cbn [negb].
  2:{ cbn. split; [reflexivity|]. split; reflexivity. }
  destruct (Z.ltb_spec (register_chrdev_ret k) 0) as [Hr|Hr].
  { cbn [fst snd reg_of heap_of omap list_omap registry_run registry_step
         mbind option_bind].
    destruct (Z.ltb_spec (register_chrdev_ret k) 0); [|lia].
    split; [exact Hr|]. split; reflexivity. }
  destruct (IS_ERR (class_create_ret k)) eqn:Hc.
  { cbn [fst snd reg_of heap_of omap list_omap registry_run registry_step
         mbind option_bind].
    destruct (Z.ltb_spec (register_chrdev_ret k) 0); [lia|]. rewrite Hc.
    cbn [registry_run registry_step mbind option_bind release].
    rewrite decide_True by reflexivity.
    split; [auto|]. split; reflexivity. }
  destruct (IS_ERR (device_create_ret k)) eqn:Hd.
  { cbn [fst snd reg_of heap_of omap list_omap registry_run registry_step
         mbind option_bind].
    destruct (Z.ltb_spec (register_chrdev_ret k) 0); [lia|]. rewrite Hc, Hd.
    cbn [registry_run registry_step mbind option_bind release].
    rewrite decide_True by reflexivity.
    cbn [registry_run registry_step mbind option_bind release].
    rewrite decide_True by reflexivity.
    split; [auto|]. split; reflexivity. }
  cbn [fst snd the_stack]. split; [reflexivity|]. split; [reflexivity|].
  destruct (heap_of_calls_live cs stack0 [StackStruct] stack_ok_stack0)
    as (rs & s' & Hrun & _ & Hheap).
  exists rs, s'. split; [exact Hrun|]. split.
  - unfold Legacy.stack_exit, with_stack.
    cbn [stack_class major_number the_stack app].
    assert (Hreg : forall l : list lcall,
              reg_of ((match data s' with Some _ => [Lheap (Kfree StackData)] | None => [] end)
                      ++ [Lheap (Kfree StackStruct)]) = []).
    { intros _. destruct (data s'); reflexivity. }
    cbn [reg_of omap list_omap]. fold (reg_of
      ((match data s' with Some _ => [Lheap (Kfree StackData)] | None => [] end)
       ++ [Lheap (Kfree StackStruct)])).
    rewrite (Hreg []).
    cbn [registry_run registry_step mbind option_bind].
    destruct (Z.ltb_spec (register_chrdev_ret k) 0); [lia|]. rewrite Hc, Hd.
    cbn [registry_run registry_step mbind option_bind release].
    rewrite !decide_True by reflexivity.
    cbn [registry_run registry_step mbind option_bind release].
    rewrite !decide_True by reflexivity.
    cbn [registry_run registry_step mbind option_bind release].
    rewrite !decide_True by reflexivity. reflexivity.
  - cbn [heap_of omap list_omap app heap_run heap_step mbind option_bind].
    change (data_live stack0 ++ [StackStruct]) with [StackStruct] in Hheap.
    rewrite heap_run_app, Hheap. cbn [mbind option_bind].
    unfold Legacy.stack_exit, data_live, with_stack. cbn [the_stack].
    destruct (data s'); reflexivity.
Qed.

(** * A push racing with a pop *)

Lemma atomic_read_empty i sh0 :
  top (stk sh0) = 0 -> atomic i (CRead 4 C.sizeof_int) sh0 = Some (Reply 0 [], sh0).
Proof.
  intros Hz. unfold atomic. cbn [handle stores]. rewrite stack_read_empty by exact Hz.
  cbn [mbind option_bind]. rewrite app_nil_r. destruct sh0; reflexivity.
Qed.

Lemma atomic_read_top i sh0 es v :
  stack_ok (stk sh0) -> elements (stk sh0) = es ++ [v] ->
  exists sh',
    atomic i (CRead 4 C.sizeof_int) sh0 = Some (Reply C.sizeof_int (C.int_bytes v), sh') /\
    elements (stk sh') = es /\ top (stk sh') = top (stk sh0) - 1.
Proof.
  intros Hok Hel.
  destruct (stack_read_top 4 _ es v Hok (Nat.le_refl _) Hel) as (s' & Hr & _ & Ht & _ & He).
  unfold atomic. cbn [handle stores]. rewrite Hr. cbn [mbind option_bind].
  eexists. split; [reflexivity|]. cbn [stk]. auto.
Qed.

(** X15: one caller pushes while another pops, on an empty stack with room,
    in any interleaving of their steps.  Once both have returned the push
    has returned 4, and either the pop found the stack empty (it returned 0
    bytes) and the value is on the stack, or the pop returned the four bytes
    just pushed and the stack is empty again; the pop never returns anything
    else. *)
Theorem push_races_pop (buf : list byte) (s0 : stack) (sched : list nat) (cf : config) :
  (4 <= length buf)%nat -> stack_ok s0 -> top s0 = 0 -> 0 < size s0 ->
  run sched (start [CWrite buf C.sizeof_int; CRead 4 C.sizeof_int] s0) = Some cf ->
  all_done cf ->
  (threads cf = [Done (Reply C.sizeof_int []); Done (Reply 0 [])] /\
   elements (stk (sh cf)) = [C.int_of_bytes buf]) \/
  (threads cf = [Done (Reply C.sizeof_int []); Done (Reply C.sizeof_int (take 4 buf))] /\
   elements (stk (sh cf)) = []).
Proof.
  intros Hb Hok Htop Hsize Hrun Hdone.
  assert (Hlin : linearized [CWrite buf C.sizeof_int; CRead 4 C.sizeof_int] s0 cf).
  { eapply linearized_run; [apply linearized_start, Hok | exact Hrun]. }
  destruct (linearized_done _ _ _ Hlin Hdone) as (order & rs & Hperm & Hser & Hret).
  destruct Hlin as (_ & _ & _ & _ & _ & _ & _ & _ & _ & Hlen & _).
  cbn [length] in Hlen.
  assert (Hthreads : exists r0 r1, threads cf = [Done r0; Done r1]).
  { unfold all_done in Hdone.
    destruct (threads cf) as [|l0 [|l1 [|l2 ts]]]; try discriminate.
    apply Forall_cons in Hdone as [H0 Hdone]. apply Forall_cons in Hdone as [H1 _].
    destruct l0; cbn [returned] in H0; destruct H0 as [x0 Hx0]; try discriminate.
    destruct l1; cbn [returned] in H1; destruct H1 as [x1 Hx1]; try discriminate.
    eauto. }
  destruct Hthreads as (r0 & r1 & Hth).
  pose proof (Hret 0%nat r0) as H0. pose proof (Hret 1%nat r1) as H1.
  rewrite Hth in H0, H1. specialize (H0 eq_refl). specialize (H1 eq_refl).
  assert (Hel0 : elements s0 = []).
  { unfold elements. rewrite Htop. apply take_0. }
  set (sh0 := {| stk := s0; lock := None; log := [] |}) in *.
  apply Permutation_sym, Permutation_length_2_inv in Hperm as [->| ->];
    cbn [serial lookup list_lookup mbind option_bind] in Hser.
  - (* the push first *)
    destruct (atomic_push 0 buf sh0 Hb Hok) as (sh1 & Ha1 & Hok1 & Ht1 & _ & _ & _ & He1);
      [cbn [stk sh0]; lia|].
    rewrite Ha1 in Hser. cbn [mbind option_bind] in Hser.
    cbn [stk sh0] in He1. rewrite Hel0 in He1. cbn [app] in He1.
    destruct (atomic_read_top 1 sh1 [] _ Hok1 He1) as (sh2 & Ha2 & He2 & _).
    rewrite Ha2 in Hser. cbn [mbind option_bind] in Hser.
    injection Hser as <- <-.
    right. split; [|exact He2]. rewrite Hth.
    rewrite int_bytes_int_of_bytes in H0, H1 by exact Hb.
    apply elem_of_cons in H0 as [[= ->]|H0];
      [|apply elem_of_cons in H0 as [[=]|H0]; inversion H0].
    apply elem_of_cons in H1 as [[=]|H1].
    apply elem_of_cons in H1 as [[= ->]|H1]; [reflexivity | inversion H1].
  - (* the pop first *)
    rewrite atomic_read_empty in Hser by exact Htop. cbn [mbind option_bind] in Hser.
    destruct (atomic_push 0 buf sh0 Hb Hok) as (sh1 & Ha1 & _ & _ & _ & _ & _ & He1);
      [cbn [stk sh0]; lia|].
    rewrite Ha1 in Hser. cbn [mbind option_bind] in Hser.
    injection Hser as <- <-.
    cbn [stk sh0] in He1. rewrite Hel0 in He1. cbn [app] in He1.
    left. split; [|exact He1]. rewrite Hth.
    apply elem_of_cons in H0 as [[=]|H0].
    apply elem_of_cons in H0 as [[= ->]|H0]; [|inversion H0].
    apply elem_of_cons in H1 as [[= ->]|H1]; [reflexivity|].
    apply elem_of_cons in H1 as [[=]|H1]. inversion H1.
Qed.

Lemma push_races_pop_witness :
  run [0; 0; 0; 1; 0; 0; 0; 1; 1; 1; 1; 1; 1]%nat
      (start [CWrite (C.int_bytes 7) C.sizeof_int; CRead 4 C.sizeof_int]
             {| data := Some [0]; top := 0; size := 1 |})
  = Some {| threads := [Done (Reply 4 []); Done (Reply 4 (C.int_bytes 7))];
            sh := {| stk := {| data := Some [7]; top := 0; size := 1 |};
                     lock := None; log := [(0%nat, 0)] |} |} /\
  ([Done (Reply 4 []); Done (Reply 4 (C.int_bytes 7))]
   = [Done (Reply C.sizeof_int []); Done (Reply 0 [])] /\
   elements {| data := Some [7]; top := 0; size := 1 |} = [C.int_of_bytes (C.int_bytes 7)] \/
   [Done (Reply 4 []); Done (Reply 4 (C.int_bytes 7))]
   = [Done (Reply C.sizeof_int []); Done (Reply C.sizeof_int (take 4 (C.int_bytes 7)))] /\
   elements {| data := Some [7]; top := 0; size := 1 |} = []).
Proof.
  assert (Hok : stack_ok {| data := Some [0]; top := 0; size := 1 |})
    by (unfold stack_ok, C.INT_MAX; cbn; lia).
  assert (Hb : (4 <= length (C.int_bytes 7))%nat) by (vm_compute; lia).
  assert (Hsize : 0 < size {| data := Some [0]; top := 0; size := 1 |}) by (cbn; lia).
  assert (Hrun :
    run [0; 0; 0; 1; 0; 0; 0; 1; 1; 1; 1; 1; 1]%nat
        (start [CWrite (C.int_bytes 7) C.sizeof_int; CRead 4 C.sizeof_int]
               {| data := Some [0]; top := 0; size := 1 |})
    = Some {| threads := [Done (Reply 4 []); Done (Reply 4 (C.int_bytes 7))];
              sh := {| stk := {| data := Some [7]; top := 0; size := 1 |};
                       lock := None; log := [(0%nat, 0)] |} |})
    by (vm_compute; reflexivity).
  split; [exact Hrun|].
  apply (push_races_pop _ _ _ _ Hb Hok eq_refl Hsize Hrun).
  repeat constructor; cbn [returned]; eauto.
Defined.

(** * Two probes in a row *)

(** X16: the probe does not look whether the device is already there.  If
    a second [usb_key_probe] succeeds on a module whose first probe
    succeeded, the module variables remember the handles of the second
    only; the one [usb_key_disconnect] that follows releases the
    registrations of the second probe, and those of the first stay held. *)
Theorem second_probe_forgets_the_first (k1 k2 : probe_answers) (m : module_state) :
  fst (fst (usb_key_probe k1 m)) = 0 ->
  fst (fst (usb_key_probe k2 (snd (usb_key_probe k1 m)))) = 0 ->
  exists held1 held2,
    registry_run k1 [] (snd (fst (usb_key_probe k1 m))) = Some held1 /\
    held1 = [Device (class_create_ret k1) (register_chrdev_ret k1);
             Class (class_create_ret k1); Chrdev (register_chrdev_ret k1)] /\
    registry_run k2 held1 (snd (fst (usb_key_probe k2 (snd (usb_key_probe k1 m)))))
    = Some held2 /\
    registry_run k2 held2
      (fst (usb_key_disconnect (snd (usb_key_probe k2 (snd (usb_key_probe k1 m))))))
    = Some held1 /\
    the_stack (snd (usb_key_probe k2 (snd (usb_key_probe k1 m)))) = the_stack m.
Proof.
  assert (Hneg : forall p, IS_ERR p = true -> PTR_ERR p < 0).
  { intros p Hp. unfold IS_ERR, Errno.MAX_ERRNO in Hp. unfold PTR_ERR.
    apply andb_true_iff in Hp as [H1 H2].
    apply Z.leb_le in H1. apply Z.ltb_lt in H2.
    rewrite int_wrap_id by (unfold C.int_range, C.INT_MIN, C.INT_MAX; lia). exact H2. }
  assert (Hshape : forall k m0, fst (fst (usb_key_probe k m0)) = 0 ->
            (register_chrdev_ret k <? 0) = false /\
            IS_ERR (class_create_ret k) = false /\ IS_ERR (device_create_ret k) = false).
  { intros k m0. unfold usb_key_probe. cbn [major_number stack_class stack_device].
    destruct (Z.ltb_spec (register_chrdev_ret k) 0) as [Hr|Hr]; [cbn [fst]; lia|].
    destruct (IS_ERR (class_create_ret k)) eqn:Hc.
    { cbn [fst]. intros Hz. specialize (Hneg _ Hc). lia. }
    destruct (IS_ERR (device_create_ret k)) eqn:Hd.
    { cbn [fst]. intros Hz. specialize (Hneg _ Hd). lia. }
    auto. }
  intros H1 H2.
  destruct (Hshape _ _ H1) as (Hr1 & Hc1 & Hd1).
  destruct (Hshape _ _ H2) as (Hr2 & Hc2 & Hd2).
  unfold usb_key_probe. cbn [major_number stack_class stack_device the_stack].
  rewrite Hr1, Hc1, Hd1. cbn [fst snd major_number stack_class stack_device the_stack].
  rewrite Hr2, Hc2, Hd2. cbn [fst snd major_number stack_class stack_device the_stack
                              usb_key_disconnect].
  do 2 eexists.
  split.
  { cbn [registry_run registry_step mbind option_bind]. rewrite Hr1, Hc1, Hd1. reflexivity. }
  split; [reflexivity|]. split.
  { cbn [registry_run registry_step mbind option_bind]. rewrite Hr2, Hc2, Hd2. reflexivity. }
  split; [|reflexivity].
  cbn [registry_run registry_step mbind option_bind release].
  rewrite !decide_True by reflexivity.
  cbn [registry_run registry_step mbind option_bind release].
  rewrite !decide_True by reflexivity.
  cbn [registry_run registry_step mbind option_bind release].
  rewrite !decide_True by reflexivity. reflexivity.
Qed.

Lemma second_probe_forgets_the_first_witness :
  registry_run {| register_chrdev_ret := 241; class_create_ret := 1001;
                  device_create_ret := 2001 |}
    [Device 1001 241; Class 1001; Chrdev 241; Device 1000 240; Class 1000; Chrdev 240]
    [Kdevice_destroy 1001 241; Kclass_destroy 1001; Kunregister_chrdev 241]
  = Some [Device 1000 240; Class 1000; Chrdev 240].
Proof.
  destruct (second_probe_forgets_the_first
              {| register_chrdev_ret := 240; class_create_ret := 1000;
                 device_create_ret := 2000 |}
              {| register_chrdev_ret := 241; class_create_ret := 1001;
                 device_create_ret := 2001 |}
              {| the_stack := stack0; major_number := 0; stack_class := 0;
                 stack_device := 0 |} eq_refl eq_refl)
    as (held1 & held2 & Hh1 & -> & Hh2 & Hrel & _).
  cbn in Hh2. injection Hh2 as <-. exact Hrel.
Defined.
